(** * gpbackup-s3-plugin: chunked parallel restore, retry policy, key mapping,
    configuration, deletion and directory transfers

    A shallow embedding of [s3plugin/restore.go], [s3plugin/s3plugin.go] and
    [s3plugin/backup.go].  Go's [int64] and [int] (64 bits on the amd64
    targets of the Makefile) are integers of [Z] with the wrap-around written
    out; byte slices are lists of [Byte.byte]; Go strings are [string]s
    (sequences of bytes); an [error] is [option string], [None] being [nil].
    A Go panic is the [None] of an [option] result. *)

From Stdlib Require Import ZArith List Lia String Ascii Bool Arith.
From stdpp Require Import base list list_numbers sets.
Import ListNotations.

Local Open Scope Z_scope.

(* ===================================================================== *)
(** * Part I: definitions                                                  *)
(* ===================================================================== *)

(** ** Machine integers *)

Definition int64_min : Z := - 2 ^ 63.
Definition int64_max : Z := 2 ^ 63 - 1.

Definition in_int64 (z : Z) : Prop := int64_min <= z <= int64_max.

(** Two's complement wrap-around of a 64-bit signed integer. *)
Definition wrap64 (z : Z) : Z := (z + 2 ^ 63) mod 2 ^ 64 - 2 ^ 63.

Definition add64 (a b : Z) : Z := wrap64 (a + b).
Definition sub64 (a b : Z) : Z := wrap64 (a - b).

(** Go's [/] truncates toward zero and panics on a zero divisor. *)
Definition div64 (a b : Z) : option Z :=
  if b =? 0 then None else Some (wrap64 (Z.quot a b)).

Definition Mebibyte : Z := 1024 * 1024.

(** ** restore.go: the chunk plan *)

Definition error : Type := string.

Record chunk : Type := mkChunk {
  chunkIndex : Z;
  startByte : Z;
  endByte : Z
}.

(** [numberOfChunks := int((totalBytes + downloadChunkSize - 1) / downloadChunkSize)] *)
Definition numberOfChunks (totalBytes downloadChunkSize : Z) : option Z :=
  div64 (sub64 (add64 totalBytes downloadChunkSize) 1) downloadChunkSize.

(** The loop
    [for chunkIndex := 0; chunkIndex < numberOfChunks && !done; chunkIndex++]
    of [downloadFileInParallel]; the result is the content of the [jobs]
    channel in sending order.  [fuel] bounds the number of iterations; the
    loop counter starts at 0 and stops at [numberOfChunks], so
    [Z.to_nat numberOfChunks] iterations are always enough
    (lemma [createJobs_fuel]). *)
Fixpoint createJobs (fuel : nat) (nChunks downloadChunkSize totalBytes : Z)
    (chunkIndex startByte endByte : Z) (done : bool) : list chunk :=
  match fuel with
  | O => []
  | S fuel' =>
      if (chunkIndex <? nChunks) && negb done then
        let startByte := add64 endByte 1 in
        let endByte := add64 endByte downloadChunkSize in
        let hit := totalBytes <=? endByte in
        let endByte := if hit then sub64 totalBytes 1 else endByte in
        let done := if hit then true else done in
        mkChunk chunkIndex startByte endByte
          :: createJobs fuel' nChunks downloadChunkSize totalBytes
               (chunkIndex + 1) startByte endByte done
      else []
  end.

(** The chunk-planning prefix of [downloadFileInParallel]: [None] when the
    division panics or [make] is given a negative length. *)
Definition planJobs (totalBytes downloadChunkSize : Z) : option (list chunk) :=
  match numberOfChunks totalBytes downloadChunkSize with
  | None => None
  | Some n =>
      if n <? 0 then None
      else Some (createJobs (Z.to_nat n) n downloadChunkSize totalBytes 0 0 (-1) false)
  end.

(** Number of bytes of a chunk: [endByte - startByte + 1]. *)
Definition chunkLen (c : chunk) : Z := endByte c - startByte c + 1.

Definition sumLen (l : list chunk) : Z :=
  fold_right (fun c acc => chunkLen c + acc) 0 l.

(** [partitions lo hi l]: the ranges of [l], in order, tile [lo, hi) with
    non-empty pieces, each starting where the previous one stopped. *)
Fixpoint partitions (lo hi : Z) (l : list chunk) : Prop :=
  match l with
  | [] => lo = hi
  | c :: l' => startByte c = lo /\ lo <= endByte c /\ partitions (endByte c + 1) hi l'
  end.

(** [indexedFrom i l]: the chunk indices of [l] are [i, i+1, ...]. *)
Fixpoint indexedFrom (i : Z) (l : list chunk) : Prop :=
  match l with
  | [] => True
  | c :: l' => chunkIndex c = i /\ indexedFrom (i + 1) l'
  end.

Definition lastEnd (l : list chunk) : option Z :=
  match rev l with
  | [] => None
  | c :: _ => Some (endByte c)
  end.

(** ** s3plugin.go: the retry policy *)

(** [strings.Contains(s, substr)] *)
Fixpoint strings_Contains (s substr : string) : bool :=
  if String.prefix substr s then true
  else match s with
       | EmptyString => false
       | String _ s' => strings_Contains s' substr
       end.

(** [http.Response]: only the status code is read. *)
Record Response : Type := mkResponse {
  StatusCode : Z
}.

(** [request.Request]: [Error] is the error's [Error()] text ([None] for
    [nil]); [HTTPResponse] is a pointer, [None] for [nil]; [RetryCount] is
    the number of attempts already retried. *)
Record Request : Type := mkRequest {
  Error : option error;
  HTTPResponse : option Response;
  RetryCount : Z
}.

(** [client.DefaultRetryer]: the configured cap on retries. *)
Record DefaultRetryer : Type := mkDefaultRetryer {
  NumMaxRetries : Z
}.

(** [CustomRetryer] embeds the SDK's [DefaultRetryer]. *)
Record CustomRetryer : Type := mkCustomRetryer {
  embedded : DefaultRetryer
}.

(** The retryer built by [readConfigAndStartSession]. *)
Definition sessionRetryer : CustomRetryer :=
  mkCustomRetryer (mkDefaultRetryer 10).

Definition connectionReset (req : Request) : bool :=
  match Error req with
  | Some e => strings_Contains e "connection reset by peer"%string
  | None => false
  end.

(** [CustomRetryer.ShouldRetry].  [sdkShouldRetry] is the method
    [DefaultRetryer.ShouldRetry] of the SDK, a dependency whose code is not
    part of the repository.  The result is [None] when [req.HTTPResponse] is
    dereferenced while [nil].  The [gplog.Debug] lines written when the
    answer is [true] do not influence it and are left out. *)
Definition ShouldRetry (sdkShouldRetry : DefaultRetryer -> Request -> bool)
    (r : CustomRetryer) (req : Request) : option bool :=
  if NumMaxRetries (embedded r) =? 0 then Some false
  else if connectionReset req then Some true
  else match HTTPResponse req with
       | None => None
       | Some resp =>
           if StatusCode resp =? 404 then Some true
           else Some (sdkShouldRetry (embedded r) req)
       end.

Definition withRetryCount (n : Z) (req : Request) : Request :=
  mkRequest (Error req) (HTTPResponse req) n.

(** A default retryer in the style of the SDK's, used to run the policy on
    concrete requests: no retry when the cap is 0, otherwise retry on the
    throttling and server-error status codes. *)
Definition statusRetryer (d : DefaultRetryer) (req : Request) : bool :=
  if NumMaxRetries d =? 0 then false
  else match HTTPResponse req with
       | Some resp =>
           (StatusCode resp =? 429) || (StatusCode resp =? 500) ||
           (StatusCode resp =? 502) || (StatusCode resp =? 503) ||
           (StatusCode resp =? 504)
       | None => false
       end.

(** ** s3plugin.go: the object key of a backup file *)

(** [strings.Split(s, sep)] for a one-byte separator: the pieces of [s]
    between the occurrences of [sep]; one more piece than occurrences. *)
Fixpoint strings_Split (s : string) (sep : ascii) : list string :=
  match s with
  | EmptyString => [EmptyString]
  | String c s' =>
      if Ascii.eqb c sep then EmptyString :: strings_Split s' sep
      else match strings_Split s' sep with
           | [] => [String c EmptyString]
           | p :: ps => String c p :: ps
           end
  end.

(** [strings.Join(elems, sep)] *)
Fixpoint strings_Join (elems : list string) (sep : string) : string :=
  match elems with
  | [] => ""%string
  | [e] => e
  | e :: rest => (e ++ sep ++ strings_Join rest sep)%string
  end.

(** The slice expression [a[low:]]: a panic ([None]) when [low] is negative
    or beyond the length. *)
Definition sliceFrom {A : Type} (a : list A) (low : Z) : option (list A) :=
  if (low <? 0) || (Z.of_nat (length a) <? low) then None
  else Some (drop (Z.to_nat low) a).

(** [GetS3Path(folder, path)] *)
Definition GetS3Path (folder path : string) : option string :=
  let pathArray := strings_Split path "/"%char in
  match sliceFrom pathArray (Z.of_nat (length pathArray) - 4) with
  | None => None
  | Some tail =>
      let lastFour := strings_Join tail "/"%string in
      Some (folder ++ "/" ++ lastFour)%string
  end.

(** Number of occurrences of a byte in a string. *)
Fixpoint countByte (c : ascii) (s : string) : nat :=
  match s with
  | EmptyString => O
  | String c' s' => (if Ascii.eqb c' c then 1 else 0) + countByte c s'
  end.

(** ** restore.go: the goroutines of [downloadFileInParallel]

    The function starts [numberOfWorkers] download goroutines and one copy
    goroutine, then blocks in [waitGroup.Wait()].  The goroutines share the
    [jobs] and [downloadBuffers] channels, the unbuffered channels
    [copyChannel[i]], the slice [bufferPointers], the variable [finalErr] and
    the byte arrays behind the buffers.  The model is an interleaving
    semantics: a state holds the shared objects and the program point of each
    goroutine, an [action] lets one goroutine run to its next blocking or
    shared operation, and a schedule is a list of actions.  Byte arrays live
    in a heap indexed by address, so that two slices over the same array
    alias in the model as they do in Go. *)

Definition byte : Type := Byte.byte.
Definition addr : Type := nat.

(** The outside world of one transfer: the result of the ranged request of a
    chunk (bytes received, error) and of [file.Write] for the buffer of a
    chunk (number of bytes written, error). *)
Record world : Type := mkWorld {
  rangedGet : chunk -> list byte * option error;
  fileWrite : Z -> list byte -> nat * option error
}.

(** The arguments of [downloadFileInParallel]. *)
Record transfer : Type := mkTransfer {
  downloadConcurrency : Z;
  downloadChunkSize : Z;
  totalBytes : Z
}.

(** Program points of a download worker. *)
Inductive workerState : Type :=
| WIdle                                        (* for j := range jobs *)
| WHasJob (j : chunk)                          (* buffer := <-downloadBuffers *)
| WDownloading (j : chunk) (buffer : addr)     (* downloader.Download(...) *)
| WSignal (j : chunk) (buffer : addr).         (* copyChannel[j.chunkIndex] <- j.chunkIndex *)

(** Program points of the copy goroutine; [i] is the loop variable of
    [for i := range copyChannel]. *)
Inductive copierState : Type :=
| CWait (i : nat)                              (* currentChunk := <-copyChannel[i] *)
| CWrite (i : nat) (currentChunk : Z)          (* file.Write of the buffer of currentChunk *)
| CRelease (i : nat) (currentChunk : Z)        (* downloadBuffers <- that buffer *)
| CDone (i : nat) (currentChunk : Z)           (* waitGroup.Done(); close(copyChannel[i]) *)
| CExit.

(** The [gplog.Debug] lines of the goroutines, with the error of the
    operation they report. *)
Inductive event : Type :=
| EvWorker (id : nat) (chunkIndex : Z)
| EvDownloaded (id : nat) (chunkIndex : Z) (err : option error)
| EvCopied (chunkIndex : Z) (buffer : list byte) (err : option error).

Record state : Type := mkState {
  jobs : list chunk;                  (* buffered channel, in FIFO order *)
  downloadBuffers : list addr;        (* buffered channel of buffers *)
  buffersCap : nat;                   (* cap(downloadBuffers) *)
  heap : list (list byte);            (* the byte arrays, by address *)
  bufferPointers : list (option addr);
  copyChannel : list bool;            (* [true]: the channel is closed *)
  workers : list workerState;
  copier : copierState;
  waitGroup : Z;
  finalErr : option error;
  file : list byte;                   (* bytes written to the destination *)
  returned : option (Z * option error);
  events : list event                 (* oldest first *)
}.

Inductive outcome (A : Type) : Type :=
| Next (a : A)
| Blocked
| Panicked.
Arguments Next {A} a.
Arguments Blocked {A}.
Arguments Panicked {A}.

Inductive action : Type :=
| ReceiveJob (w : nat)
| AcquireBuffer (w : nat)
| Download (w : nat)
| Signal (w : nat)
| ReceiveClosed
| WriteFile
| ReleaseBuffer
| Done
| Return.

(** [l[i]] for a Go index: [None] is the index-out-of-range panic. *)
Definition indexOf {A : Type} (l : list A) (i : Z) : option A :=
  if i <? 0 then None else l !! Z.to_nat i.

(** [make([]byte, n)] *)
Definition zeros (n : Z) : list byte := replicate (Z.to_nat n) Byte.x00.

(** What [aws.NewWriteAtBuffer(buffer)] leaves in the array of [buffer] when
    the downloader writes [data] from offset 0: the bytes that fit overwrite
    the front, the length of the slice does not change. *)
Definition writeAt (buffer data : list byte) : list byte :=
  take (length buffer) (data ++ drop (length data) buffer).

Definition numberOfWorkers (downloadConcurrency nChunks : Z) : Z :=
  if nChunks <? downloadConcurrency then nChunks else downloadConcurrency.

Definition setWorker (w : nat) (st : workerState) (s : state) : state :=
  mkState (jobs s) (downloadBuffers s) (buffersCap s) (heap s) (bufferPointers s)
    (copyChannel s) (<[w := st]> (workers s)) (copier s) (waitGroup s) (finalErr s)
    (file s) (returned s) (events s).

Definition setCopier (c : copierState) (s : state) : state :=
  mkState (jobs s) (downloadBuffers s) (buffersCap s) (heap s) (bufferPointers s)
    (copyChannel s) (workers s) c (waitGroup s) (finalErr s)
    (file s) (returned s) (events s).

Definition setJobs (js : list chunk) (s : state) : state :=
  mkState js (downloadBuffers s) (buffersCap s) (heap s) (bufferPointers s)
    (copyChannel s) (workers s) (copier s) (waitGroup s) (finalErr s)
    (file s) (returned s) (events s).

Definition setBuffers (bs : list addr) (s : state) : state :=
  mkState (jobs s) bs (buffersCap s) (heap s) (bufferPointers s)
    (copyChannel s) (workers s) (copier s) (waitGroup s) (finalErr s)
    (file s) (returned s) (events s).

Definition setHeap (h : list (list byte)) (s : state) : state :=
  mkState (jobs s) (downloadBuffers s) (buffersCap s) h (bufferPointers s)
    (copyChannel s) (workers s) (copier s) (waitGroup s) (finalErr s)
    (file s) (returned s) (events s).

Definition setPointers (ps : list (option addr)) (s : state) : state :=
  mkState (jobs s) (downloadBuffers s) (buffersCap s) (heap s) ps
    (copyChannel s) (workers s) (copier s) (waitGroup s) (finalErr s)
    (file s) (returned s) (events s).

Definition setChannels (cs : list bool) (s : state) : state :=
  mkState (jobs s) (downloadBuffers s) (buffersCap s) (heap s) (bufferPointers s)
    cs (workers s) (copier s) (waitGroup s) (finalErr s)
    (file s) (returned s) (events s).

Definition setWaitGroup (n : Z) (s : state) : state :=
  mkState (jobs s) (downloadBuffers s) (buffersCap s) (heap s) (bufferPointers s)
    (copyChannel s) (workers s) (copier s) n (finalErr s)
    (file s) (returned s) (events s).

Definition setFile (f : list byte) (s : state) : state :=
  mkState (jobs s) (downloadBuffers s) (buffersCap s) (heap s) (bufferPointers s)
    (copyChannel s) (workers s) (copier s) (waitGroup s) (finalErr s)
    f (returned s) (events s).

Definition setReturned (r : Z * option error) (s : state) : state :=
  mkState (jobs s) (downloadBuffers s) (buffersCap s) (heap s) (bufferPointers s)
    (copyChannel s) (workers s) (copier s) (waitGroup s) (finalErr s)
    (file s) (Some r) (events s).

(** [if err != nil { finalErr = err }] *)
Definition recordErr (err : option error) (s : state) : state :=
  match err with
  | None => s
  | Some e =>
      mkState (jobs s) (downloadBuffers s) (buffersCap s) (heap s) (bufferPointers s)
        (copyChannel s) (workers s) (copier s) (waitGroup s) (Some e)
        (file s) (returned s) (events s)
  end.

Definition logEvent (e : event) (s : state) : state :=
  mkState (jobs s) (downloadBuffers s) (buffersCap s) (heap s) (bufferPointers s)
    (copyChannel s) (workers s) (copier s) (waitGroup s) (finalErr s)
    (file s) (returned s) (events s ++ [e]).

(** One step of worker [w] of the loop body
    [for j := range jobs { buffer := <-downloadBuffers; ...; copyChannel[j.chunkIndex] <- j.chunkIndex }]
    up to the rendezvous, which is [stepSignal]. *)
Definition stepReceiveJob (w : nat) (s : state) : outcome state :=
  match workers s !! w, jobs s with
  | Some WIdle, j :: rest => Next (setWorker w (WHasJob j) (setJobs rest s))
  | _, _ => Blocked
  end.

Definition stepAcquireBuffer (t : transfer) (w : nat) (s : state) : outcome state :=
  match workers s !! w, downloadBuffers s with
  | Some (WHasJob j), a :: rest =>
      let s1 := setBuffers rest s in
      let size := add64 (sub64 (endByte j) (startByte j)) 1 in
      if (size =? downloadChunkSize t) then
        match indexOf (bufferPointers s1) (chunkIndex j) with
        | None => Panicked
        | Some _ =>
            Next (logEvent (EvWorker w (chunkIndex j))
                   (setWorker w (WDownloading j a)
                     (setPointers (<[Z.to_nat (chunkIndex j) := Some a]> (bufferPointers s1)) s1)))
        end
      else if size <? 0 then Panicked
      else
        let fresh := length (heap s1) in
        let s2 := setHeap (heap s1 ++ [zeros size]) s1 in
        match indexOf (bufferPointers s2) (chunkIndex j) with
        | None => Panicked
        | Some _ =>
            Next (logEvent (EvWorker w (chunkIndex j))
                   (setWorker w (WDownloading j fresh)
                     (setPointers (<[Z.to_nat (chunkIndex j) := Some fresh]> (bufferPointers s2)) s2)))
        end
  | _, _ => Blocked
  end.

Definition stepDownload (W : world) (w : nat) (s : state) : outcome state :=
  match workers s !! w with
  | Some (WDownloading j a) =>
      match heap s !! a with
      | None => Panicked
      | Some old =>
          let '(data, err) := rangedGet W j in
          Next (logEvent (EvDownloaded w (chunkIndex j) err)
                 (setWorker w (WSignal j a)
                   (recordErr err (setHeap (<[a := writeAt old data]> (heap s)) s))))
      end
  | _ => Blocked
  end.

(** The send [copyChannel[j.chunkIndex] <- j.chunkIndex] meets the receive
    [<-copyChannel[i]] of the copy goroutine: the channels are unbuffered. *)
Definition stepSignal (w : nat) (s : state) : outcome state :=
  match workers s !! w with
  | Some (WSignal j a) =>
      match indexOf (copyChannel s) (chunkIndex j) with
      | None => Panicked
      | Some true => Panicked
      | Some false =>
          match copier s with
          | CWait i =>
              if (Z.to_nat (chunkIndex j) =? i)%nat then
                Next (setWorker w WIdle (setCopier (CWrite i (chunkIndex j)) s))
              else Blocked
          | _ => Blocked
          end
      end
  | _ => Blocked
  end.

(** A receive from a closed channel yields the zero value at once. *)
Definition stepReceiveClosed (s : state) : outcome state :=
  match copier s with
  | CWait i =>
      match copyChannel s !! i with
      | Some true => Next (setCopier (CWrite i 0) s)
      | _ => Blocked
      end
  | _ => Blocked
  end.

Definition stepWriteFile (W : world) (s : state) : outcome state :=
  match copier s with
  | CWrite i cur =>
      match indexOf (bufferPointers s) cur with
      | Some (Some a) =>
          match heap s !! a with
          | None => Panicked
          | Some buf =>
              let '(n, err) := fileWrite W cur buf in
              Next (logEvent (EvCopied cur buf err)
                     (setCopier (CRelease i cur)
                       (recordErr err (setFile (file s ++ take n buf) s))))
          end
      | _ => Panicked
      end
  | _ => Blocked
  end.

Definition stepReleaseBuffer (s : state) : outcome state :=
  match copier s with
  | CRelease i cur =>
      match indexOf (bufferPointers s) cur with
      | Some (Some a) =>
          if (length (downloadBuffers s) <? buffersCap s)%nat then
            Next (setCopier (CDone i cur)
                   (setPointers (<[Z.to_nat cur := None]> (bufferPointers s))
                     (setBuffers (downloadBuffers s ++ [a]) s)))
          else Blocked
      | _ => Panicked
      end
  | _ => Blocked
  end.

Definition stepDone (s : state) : outcome state :=
  match copier s with
  | CDone i cur =>
      if waitGroup s - 1 <? 0 then Panicked
      else
        match copyChannel s !! i with
        | Some false =>
            let next := if (S i <? length (copyChannel s))%nat then CWait (S i) else CExit in
            Next (setCopier next
                   (setChannels (<[i := true]> (copyChannel s))
                     (setWaitGroup (waitGroup s - 1) s)))
        | _ => Panicked
        end
  | _ => Blocked
  end.

(** [waitGroup.Wait()] lets the function return once the counter is 0. *)
Definition stepReturn (t : transfer) (s : state) : outcome state :=
  match returned s with
  | Some _ => Blocked
  | None =>
      if waitGroup s =? 0 then Next (setReturned (totalBytes t, finalErr s) s)
      else Blocked
  end.

Definition step (W : world) (t : transfer) (a : action) (s : state) : outcome state :=
  match a with
  | ReceiveJob w => stepReceiveJob w s
  | AcquireBuffer w => stepAcquireBuffer t w s
  | Download w => stepDownload W w s
  | Signal w => stepSignal w s
  | ReceiveClosed => stepReceiveClosed s
  | WriteFile => stepWriteFile W s
  | ReleaseBuffer => stepReleaseBuffer s
  | Done => stepDone s
  | Return => stepReturn t s
  end.

Fixpoint run (W : world) (t : transfer) (schedule : list action) (s : state)
    : outcome state :=
  match schedule with
  | [] => Next s
  | a :: rest =>
      match step W t a s with
      | Next s' => run W t rest s'
      | Blocked => Blocked
      | Panicked => Panicked
      end
  end.

(** The sequential prefix of [downloadFileInParallel]: the plan is sent to
    [jobs], the buffers are allocated and queued, the goroutines are
    started.  [None] is a panic of [make] or of the division. *)
Definition spawn (t : transfer) : option state :=
  match numberOfChunks (totalBytes t) (downloadChunkSize t) with
  | None => None
  | Some n =>
      if n <? 0 then None
      else
        let plan := createJobs (Z.to_nat n) n (downloadChunkSize t) (totalBytes t)
                      0 0 (-1) false in
        let nw := numberOfWorkers (downloadConcurrency t) n in
        if nw <? 0 then None
        else if (0 <? nw) && (downloadChunkSize t <? 0) then None
        else
          Some (mkState plan
                  (seq 0 (Z.to_nat nw))
                  (Z.to_nat nw)
                  (replicate (Z.to_nat nw) (zeros (downloadChunkSize t)))
                  (replicate (Z.to_nat n) None)
                  (replicate (Z.to_nat n) false)
                  (replicate (Z.to_nat nw) WIdle)
                  (if n =? 0 then CExit else CWait 0)
                  (Z.of_nat (length plan))
                  None [] None [])
  end.

(** [downloadFileInParallel] under a schedule of its goroutines: the
    returned byte count and error with the final state of the goroutines,
    [Blocked] while [waitGroup.Wait()] has not returned. *)
Definition downloadFileInParallel (W : world) (t : transfer) (schedule : list action)
    : outcome (Z * option error * state) :=
  match spawn t with
  | None => Panicked
  | Some s0 =>
      match run W t schedule s0 with
      | Next s =>
          match returned s with
          | Some (n, err) => Next (n, err, s)
          | None => Blocked
          end
      | Blocked => Blocked
      | Panicked => Panicked
      end
  end.

(** ** Observations on the states of a transfer *)

Definition jobOf (st : workerState) : option chunk :=
  match st with
  | WIdle => None
  | WHasJob j | WDownloading j _ | WSignal j _ => Some j
  end.

Definition bufferOf (st : workerState) : option addr :=
  match st with
  | WDownloading _ a | WSignal _ a => Some a
  | WIdle | WHasJob _ => None
  end.

(** The chunks and the buffers in the hands of the workers. *)
Definition held (ws : list workerState) : list chunk := omap jobOf ws.
Definition owned (ws : list workerState) : list addr := omap bufferOf ws.

(** The buffer in the hands of the copy goroutine. *)
Definition ownedBy (c : copierState) (pointers : list (option addr)) : list addr :=
  match c with
  | CWrite i _ | CRelease i _ =>
      match pointers !! i with
      | Some (Some a) => [a]
      | _ => []
      end
  | _ => []
  end.

Definition copierOwned (s : state) : list addr :=
  ownedBy (copier s) (bufferPointers s).

(** Buffers received from [downloadBuffers] and not yet sent back. *)
Definition checkedOut (s : state) : nat :=
  length (owned (workers s)) + length (copierOwned s).

(** Chunks received by the copy goroutine, chunks written by it, and chunks
    for which it has called [waitGroup.Done()], out of [n]. *)
Definition taken (n : nat) (c : copierState) : nat :=
  match c with
  | CWait i => i
  | CWrite i _ | CRelease i _ | CDone i _ => S i
  | CExit => n
  end.

Definition written (n : nat) (c : copierState) : nat :=
  match c with
  | CWait i | CWrite i _ => i
  | CRelease i _ | CDone i _ => S i
  | CExit => n
  end.

Definition finished (n : nat) (c : copierState) : nat :=
  match c with
  | CWait i | CWrite i _ | CRelease i _ | CDone i _ => i
  | CExit => n
  end.

Definition wellCopier (n : nat) (c : copierState) : Prop :=
  match c with
  | CWait i => (i < n)%nat
  | CWrite i cur | CRelease i cur | CDone i cur => (i < n)%nat /\ cur = Z.of_nat i
  | CExit => True
  end.

(** Jobs already received from the [jobs] channel. *)
Definition pulled (plan : list chunk) (s : state) : nat :=
  (length plan - length (jobs s))%nat.

(** The chunk indices of the [file.Write] calls, the buffers they were
    given, and the bytes that reached the file, oldest first. *)
Fixpoint copiedIdx (evs : list event) : list Z :=
  match evs with
  | [] => []
  | EvCopied c _ _ :: rest => c :: copiedIdx rest
  | _ :: rest => copiedIdx rest
  end.

Fixpoint copiedBufs (evs : list event) : list (list byte) :=
  match evs with
  | [] => []
  | EvCopied _ buf _ :: rest => buf :: copiedBufs rest
  | _ :: rest => copiedBufs rest
  end.

Fixpoint fileOf (W : world) (evs : list event) : list byte :=
  match evs with
  | [] => []
  | EvCopied c buf _ :: rest => take (fst (fileWrite W c buf)) buf ++ fileOf W rest
  | _ :: rest => fileOf W rest
  end.

(** The assignments to [finalErr], oldest first. *)
Fixpoint failures (evs : list event) : list error :=
  match evs with
  | [] => []
  | EvDownloaded _ _ (Some e) :: rest => e :: failures rest
  | EvCopied _ _ (Some e) :: rest => e :: failures rest
  | _ :: rest => failures rest
  end.

(** The ranged request of [j] delivers as many bytes as the range has. *)
Definition fullDelivery (W : world) (j : chunk) : Prop :=
  length (fst (rangedGet W j)) = Z.to_nat (chunkLen j).

(** The bytes of an object in the range of a chunk. *)
Definition rangeOf (obj : list byte) (j : chunk) : list byte :=
  take (Z.to_nat (chunkLen j)) (drop (Z.to_nat (startByte j)) obj).

(** Remaining steps of the goroutines: seven per chunk still in [jobs],
    fewer for a chunk in progress, one for the return. *)
Definition workerSteps (st : workerState) : nat :=
  match st with
  | WIdle => 0
  | WHasJob _ => 6
  | WDownloading _ _ => 5
  | WSignal _ _ => 4
  end.

Definition copierSteps (c : copierState) : nat :=
  match c with
  | CWait _ | CExit => 0
  | CWrite _ _ => 3
  | CRelease _ _ => 2
  | CDone _ _ => 1
  end.

Definition measure (s : state) : nat :=
  (7 * length (jobs s) + sum_list_with workerSteps (workers s) + copierSteps (copier s)
   + match returned s with Some _ => 0 | None => 1 end)%nat.

(** The invariant of the goroutines of one transfer with plan [plan] and
    [nw] workers. *)
Record inv (W : world) (t : transfer) (plan : list chunk) (nw : nat) (s : state)
    : Prop := mkInv {
  inv_jobs : jobs s = drop (pulled plan s) plan /\ (length (jobs s) <= length plan)%nat;
  inv_taken : (taken (length plan) (copier s) <= pulled plan s)%nat;
  inv_held :
    held (workers s) ≡ₚ
      take (pulled plan s - taken (length plan) (copier s))
           (drop (taken (length plan) (copier s)) plan);
  inv_copier : wellCopier (length plan) (copier s);
  inv_wg : waitGroup s = Z.of_nat (length plan - finished (length plan) (copier s));
  inv_chan :
    copyChannel s =
      replicate (finished (length plan) (copier s)) true ++
      replicate (length plan - finished (length plan) (copier s)) false;
  inv_workers : length (workers s) = nw;
  inv_cap : buffersCap s = nw;
  inv_bufs : NoDup (downloadBuffers s ++ owned (workers s) ++ copierOwned s);
  inv_count : (length (downloadBuffers s) + checkedOut s = nw)%nat;
  inv_valid :
    forall a, a ∈ downloadBuffers s ++ owned (workers s) ++ copierOwned s ->
              (a < length (heap s))%nat;
  inv_ptrlen : length (bufferPointers s) = length plan;
  inv_ptr :
    forall w st j a, workers s !! w = Some st -> jobOf st = Some j ->
      bufferOf st = Some a ->
      bufferPointers s !! Z.to_nat (chunkIndex j) = Some (Some a);
  inv_cptr :
    forall i cur, copier s = CWrite i cur \/ copier s = CRelease i cur ->
      exists a, bufferPointers s !! i = Some (Some a);
  inv_wbuf :
    forall w st j a, workers s !! w = Some st -> jobOf st = Some j ->
      bufferOf st = Some a ->
      exists b, heap s !! a = Some b /\ length b = Z.to_nat (chunkLen j) /\
                (st = WSignal j a -> fullDelivery W j -> b = fst (rangedGet W j));
  inv_cbuf :
    forall i cur a, copier s = CWrite i cur \/ copier s = CRelease i cur ->
      bufferPointers s !! i = Some (Some a) ->
      exists j b, plan !! i = Some j /\ heap s !! a = Some b /\
                  length b = Z.to_nat (chunkLen j) /\
                  (fullDelivery W j -> b = fst (rangedGet W j));
  inv_pool :
    taken (length plan) (copier s) = length plan \/
    forall a, a ∈ downloadBuffers s ->
      exists b, heap s !! a = Some b /\ length b = Z.to_nat (downloadChunkSize t);
  inv_copied :
    copiedIdx (events s) = Z.of_nat <$> seq 0 (written (length plan) (copier s));
  inv_copiedbuf :
    forall c buf err, EvCopied c buf err ∈ events s ->
      exists j, 0 <= c /\ plan !! Z.to_nat c = Some j /\
                (fullDelivery W j -> buf = fst (rangedGet W j));
  inv_file : file s = fileOf W (events s);
  inv_err : finalErr s = last (failures (events s));
  inv_attempted :
    forall c j, plan !! c = Some j ->
      (c < taken (length plan) (copier s))%nat \/
      (exists w a, workers s !! w = Some (WSignal j a)) ->
      exists w, EvDownloaded w (chunkIndex j) (snd (rangedGet W j)) ∈ events s;
  inv_ret :
    forall r, returned s = Some r ->
      r = (totalBytes t, finalErr s) /\ copier s = CExit
}.

(** The transfers handed to [downloadFileInParallel]: a positive chunk size
    smaller than the object, sizes for which the 64-bit computation of
    [numberOfChunks] does not wrap, and at least one worker. *)
Definition validTransfer (t : transfer) : Prop :=
  0 < downloadChunkSize t /\
  downloadChunkSize t < totalBytes t /\
  totalBytes t + downloadChunkSize t - 1 <= int64_max /\
  1 <= downloadConcurrency t.

(** ** restore.go and backup.go: the orchestrators *)

Inductive result (A : Type) : Type :=
| Ok (a : A)
| Err (e : error).
Arguments Ok {A} a.
Arguments Err {A} e.

(** What the S3 service and the local file answer to one [downloadFile]
    call outside the parallel path: [HeadObject] (the [ContentLength] of a
    successful response), the un-ranged [Download] into a fresh
    [aws.WriteAtBuffer] (its bytes and error) and the single [file.Write]. *)
Record remote : Type := mkRemote {
  headObject : result Z;
  getObject : list byte * option error;
  singleWrite : list byte -> nat * option error
}.

(** The calls made by an orchestrator, in order. *)
Inductive call : Type :=
| CallHeadObject
| CallDownload (range : option (Z * Z))
| CallFileWrite (buffer : list byte)
| CallUpload (body : list byte)
| CallParallel (t : transfer).

(** Outcome of a transfer: the returned byte count and error, the bytes that
    reached the destination, and the calls made. *)
Record transferResult : Type := mkResult {
  bytesTransferred : Z;
  transferErr : option error;
  destination : list byte;
  calls : list call
}.

(** [getFileSize] *)
Definition getFileSize (R : remote) : Z * option error :=
  match headObject R with
  | Ok n => (n, None)
  | Err e => (0, Some e)
  end.

(** [downloadFile], given the configured [DownloadConcurrency] and
    [DownloadChunkSize]; [schedule] drives the goroutines of the parallel
    path. *)
Definition downloadFile (R : remote) (W : world) (concurrency chunkSize : Z)
    (schedule : list action) : outcome transferResult :=
  match getFileSize R with
  | (_, Some e) => Next (mkResult 0 (Some e) [] [CallHeadObject])
  | (totalBytes, None) =>
      if totalBytes <=? chunkSize then
        match getObject R with
        | (_, Some e) =>
            Next (mkResult 0 (Some e) [] [CallHeadObject; CallDownload None])
        | (buffer, None) =>
            match singleWrite R buffer with
            | (n, Some e) =>
                Next (mkResult 0 (Some e) (take n buffer)
                        [CallHeadObject; CallDownload None; CallFileWrite buffer])
            | (n, None) =>
                Next (mkResult totalBytes None (take n buffer)
                        [CallHeadObject; CallDownload None; CallFileWrite buffer])
            end
        end
      else
        let t := mkTransfer concurrency chunkSize totalBytes in
        match downloadFileInParallel W t schedule with
        | Next (n, err, s) =>
            Next (mkResult n err (file s) [CallHeadObject; CallParallel t])
        | Blocked => Blocked
        | Panicked => Panicked
        end
  end.

(** The configuration read by [uploadFile] and the answers of its
    collaborators: [bytesize.Parse] and [strconv.Atoi], the package defaults
    [UploadChunkSize] and [Concurrency], [uploader.Upload] on the bytes of
    the source, and the [HeadObject] request made after the upload. *)
Record uploadEnv : Type := mkUploadEnv {
  BackupMultipartChunksize : string;
  BackupMaxConcurrentRequests : string;
  UploadChunkSize : Z;
  Concurrency : Z;
  bytesize_Parse : string -> result Z;
  strconv_Atoi : string -> result Z;
  uploaderUpload : list byte -> option error;
  headAfterUpload : result Z
}.

Definition isEmpty (s : string) : bool :=
  match s with
  | EmptyString => true
  | String _ _ => false
  end.

(** [GetUploadChunkSize]; [int64(size)] wraps the parsed [uint64]. *)
Definition GetUploadChunkSize (E : uploadEnv) : result Z :=
  if isEmpty (BackupMultipartChunksize E) then Ok (UploadChunkSize E)
  else match bytesize_Parse E (BackupMultipartChunksize E) with
       | Err e => Err e
       | Ok size => Ok (wrap64 size)
       end.

(** [GetUploadConcurrency] *)
Definition GetUploadConcurrency (E : uploadEnv) : result Z :=
  if isEmpty (BackupMaxConcurrentRequests E) then Ok (Concurrency E)
  else match strconv_Atoi E (BackupMaxConcurrentRequests E) with
       | Err e => Err e
       | Ok r => Ok r
       end.

(** [uploadFile] on a source file holding [source]. *)
Definition uploadFile (E : uploadEnv) (source : list byte) : transferResult :=
  match GetUploadChunkSize E with
  | Err e => mkResult 0 (Some e) [] []
  | Ok _ =>
      match GetUploadConcurrency E with
      | Err e => mkResult 0 (Some e) [] []
      | Ok _ =>
          match uploaderUpload E source with
          | Some e => mkResult 0 (Some e) [] [CallUpload source]
          | None =>
              match headAfterUpload E with
              | Ok bytes => mkResult bytes None source [CallUpload source; CallHeadObject]
              | Err e => mkResult 0 (Some e) source [CallUpload source; CallHeadObject]
              end
          end
      end
  end.

(** ** Sample transfers *)

Definition sampleObject : list byte := list_byte_of_string "ABCDEFGHIJKL".

(** A world in which every ranged request of [obj] succeeds, except for the
    chunks that [failing] maps to an error, and every write succeeds. *)
Definition sampleWorld (obj : list byte) (failing : Z -> option error) : world :=
  mkWorld
    (fun j => match failing (chunkIndex j) with
              | Some e => ([], Some e)
              | None => (rangeOf obj j, None)
              end)
    (fun _ buffer => (length buffer, None)).

Definition noFailure : Z -> option error := fun _ => None.

(** Chunk 1 is refused. *)
Definition deniedChunk1 : Z -> option error :=
  fun c => if c =? 1 then Some "PermissionDenied"%string else None.

(** Chunks 0 and 1 fail, with different errors. *)
Definition twoFailures : Z -> option error :=
  fun c => if c =? 0 then Some "RequestTimeout"%string
           else if c =? 1 then Some "PermissionDenied"%string else None.

(** 12 bytes in chunks of 5, two workers. *)
Definition sampleTransfer : transfer := mkTransfer 2 5 12.

(** 12 bytes in chunks of 5, one worker. *)
Definition lonelyTransfer : transfer := mkTransfer 1 5 12.

(** 10 bytes in chunks of 5, a concurrency of 4. *)
Definition wideTransfer : transfer := mkTransfer 4 5 10.

(** Worker 1 finishes chunk 1 before worker 0 finishes chunk 0. *)
Definition sampleSchedule : list action :=
  [ReceiveJob 0; ReceiveJob 1; AcquireBuffer 1; AcquireBuffer 0; Download 1;
   Download 0; Signal 0; WriteFile; ReceiveJob 0; ReleaseBuffer; Done; Signal 1;
   AcquireBuffer 0; Download 0; WriteFile; ReleaseBuffer; Done; Signal 0;
   WriteFile; ReleaseBuffer; Done; Return]%nat.

(** Chunk 0 is downloaded before chunk 1. *)
Definition orderedSchedule : list action :=
  [ReceiveJob 0; ReceiveJob 1; AcquireBuffer 0; AcquireBuffer 1; Download 0;
   Download 1; Signal 0; WriteFile; ReceiveJob 0; ReleaseBuffer; Done; Signal 1;
   AcquireBuffer 0; Download 0; WriteFile; ReleaseBuffer; Done; Signal 0;
   WriteFile; ReleaseBuffer; Done; Return]%nat.

(** The single worker of [lonelyTransfer] up to its second chunk. *)
Definition lonelyPrefix : list action :=
  [ReceiveJob 0; AcquireBuffer 0; Download 0; Signal 0; ReceiveJob 0;
   WriteFile; ReleaseBuffer; AcquireBuffer 0]%nat.

(** The goroutines of a transfer from its start. *)
Definition runTransfer (W : world) (t : transfer) (schedule : list action)
    : outcome state :=
  match spawn t with
  | Some s0 => run W t schedule s0
  | None => Panicked
  end.

(** An S3 service and a file on which the single-shot path succeeds:
    [HeadObject] reports [size], the download yields [content], the write is
    complete. *)
Definition sampleRemote (size : Z) (content : list byte) : remote :=
  mkRemote (Ok size) (content, None) (fun buffer => (length buffer, None)).

(** An upload whose later [HeadObject] reports [size]. *)
Definition sampleUpload (size : Z) : uploadEnv :=
  mkUploadEnv "" "" (500 * Mebibyte) 6 (fun _ => Err "unused"%string)
    (fun _ => Err "unused"%string) (fun _ => None) (Ok size).

(** ** Further observations on a transfer *)

(** The chunk indices of the ranged requests made, oldest first. *)
Fixpoint requested (evs : list event) : list Z :=
  match evs with
  | [] => []
  | EvDownloaded _ c _ :: rest => c :: requested rest
  | _ :: rest => requested rest
  end.

(** A worker that has received a job and has not yet made its request. *)
Definition awaiting (st : workerState) : nat :=
  match st with
  | WHasJob _ | WDownloading _ _ => 1
  | WIdle | WSignal _ _ => 0
  end.

(** A world without failures for the object [obj]: every ranged request
    delivers the bytes of its range and every write is complete. *)
Definition healthy (obj : list byte) (W : world) : Prop :=
  (forall j, rangedGet W j = (rangeOf obj j, None)) /\
  (forall c buffer, fileWrite W c buffer = (length buffer, None)).

(** The last chunk of the plan has received its buffer, the only one that
    [stepAcquireBuffer] may allocate. *)
Definition lastAcquired (plan : list chunk) (s : state) : Prop :=
  jobs s = [] /\
  forall w j, workers s !! w = Some (WHasJob j) -> S (Z.to_nat (chunkIndex j)) <> length plan.

(** No goroutine to run: a transfer started with no worker. *)
Definition idleTransfer : transfer := mkTransfer 0 5 12.

(** The arrays of a transfer with [nw] workers: the pool arrays, and one
    more once the last chunk, if it is short, has received its buffer; none
    is longer than a chunk. *)
Definition heapInv (t : transfer) (plan : list chunk) (nw : nat) (s : state) : Prop :=
  Forall (fun b : list byte => (length b <= Z.to_nat (downloadChunkSize t))%nat) (heap s) /\
  (length (heap s) = nw \/
   length (heap s) = S nw /\ lastAcquired plan s /\
   exists j, last plan = Some j /\ chunkLen j <> downloadChunkSize t).

(** Every [file.Write] of a chunk in the log comes after a ranged request
    of that chunk. *)
Definition requestedBeforeCopied (evs : list event) : Prop :=
  forall before c buffer err after,
    evs = before ++ EvCopied c buffer err :: after -> c ∈ requested before.

(** ** s3plugin.go: deleting a backup *)

Definition isDigit (c : ascii) : bool :=
  (48 <=? nat_of_ascii c)%nat && (nat_of_ascii c <=? 57)%nat.

(** [IsValidTimestamp]: the regular expression [^([0-9]{14})$] matches the
    strings made of exactly fourteen ASCII digits. *)
Definition IsValidTimestamp (timestamp : string) : bool :=
  (String.length timestamp =? 14)%nat &&
  forallb isDigit (list_ascii_of_string timestamp).

(** The slice expression [s[low:high]] of a string: a panic ([None]) when
    the bounds are out of range. *)
Definition sliceString (s : string) (low high : nat) : option string :=
  if (low <=? high)%nat && (high <=? String.length s)%nat
  then Some (substring low (high - low) s)
  else None.

(** [c.Args().Get(n)]: the empty string when there is no such argument. *)
Definition Args_Get (args : list string) (n : nat) : string :=
  match args !! n with
  | Some a => a
  | None => ""%string
  end.

(** [filepath.Clean] on Unix, element by element: empty elements and "."
    are dropped, ".." removes the element before it, is dropped at the root
    and is kept at the start of a relative path; [out] holds the elements
    kept so far, last first. *)
Fixpoint cleanElements (rooted : bool) (elems out : list string) : list string :=
  match elems with
  | [] => rev out
  | e :: rest =>
      if isEmpty e || (e =? ".")%string then cleanElements rooted rest out
      else if (e =? "..")%string then
        match out with
        | top :: out' =>
            if (top =? "..")%string then cleanElements rooted rest (e :: out)
            else cleanElements rooted rest out'
        | [] =>
            if rooted then cleanElements rooted rest []
            else cleanElements rooted rest [e]
        end
      else cleanElements rooted rest (e :: out)
  end.

Definition startsWithSlash (path : string) : bool :=
  match path with
  | String c _ => Ascii.eqb c "/"%char
  | EmptyString => false
  end.

Definition filepath_Clean (path : string) : string :=
  if isEmpty path then "."%string
  else
    let rooted := startsWithSlash path in
    let out := strings_Join (cleanElements rooted (strings_Split path "/"%char) [])
                 "/"%string in
    if rooted then ("/" ++ out)%string
    else if isEmpty out then "."%string
    else out.

(** [filepath.Join]: the elements from the first non-empty one on, joined
    by "/" and cleaned; the empty string when there is none. *)
Fixpoint filepath_Join (elem : list string) : string :=
  match elem with
  | [] => ""%string
  | e :: rest =>
      if isEmpty e then filepath_Join rest
      else filepath_Clean (strings_Join (e :: rest) "/"%string)
  end.

(** What [DeleteBackup] meets: the [Folder] and [Bucket] of the
    configuration read by [readConfigAndStartSession], or its error; the
    result of the batch delete of the keys of a bucket under a prefix; and
    [fmt.Errorf] applied to a message used as its format. *)
Record deleteEnv : Type := mkDeleteEnv {
  sessionConfig : result (string * string);
  batchDelete : string -> string -> option error;
  fmt_Errorf : string -> error
}.

Inductive deleteCall : Type :=
| CallReadConfig
| CallBatchDelete (bucket prefix : string).

(** [DeleteBackup] on the arguments of the command line: the returned error
    and the calls made, [None] for a panic of the slice expression. *)
Definition DeleteBackup (E : deleteEnv) (args : list string)
    : option (option error * list deleteCall) :=
  let timestamp := Args_Get args 1 in
  if isEmpty timestamp then Some (Some "delete requires a <timestamp>"%string, [])
  else if negb (IsValidTimestamp timestamp) then
    Some (Some (fmt_Errorf E
                  ("delete requires a <timestamp> with format " ++
                   "YYYYMMDDHHMMSS, but received: " ++ timestamp)%string), [])
  else
    match sliceString timestamp 0 8 with
    | None => None
    | Some date =>
        match sessionConfig E with
        | Err e => Some (Some e, [CallReadConfig])
        | Ok (folder, bucket) =>
            let deletePath := filepath_Join [folder; "backups"%string; date; timestamp] in
            Some (batchDelete E bucket deletePath,
                  [CallReadConfig; CallBatchDelete bucket deletePath])
        end
    end.

(** A path element that [filepath.Clean] keeps as it is. *)
Definition plainElement (e : string) : bool :=
  negb (isEmpty e) && negb (e =? ".")%string && negb (e =? "..")%string.

(** A folder that is a relative path in clean form: "a/b/c" with no empty
    element, no "." and no "..". *)
Definition cleanFolder (folder : string) : bool :=
  forallb plainElement (strings_Split folder "/"%char).

(** A configuration with folder "s3/Dir" and bucket "bucket_name" whose
    batch delete succeeds. *)
Definition sampleDelete : deleteEnv :=
  mkDeleteEnv (Ok ("s3/Dir", "bucket_name")%string) (fun _ _ => None) (fun msg => msg).

(** ** s3plugin.go: the plugin configuration *)

Module Plugin.

Record PluginOptions : Type := mkPluginOptions {
  AwsAccessKeyId : string;
  AwsSecretAccessKey : string;
  BackupMaxConcurrentRequests : string;
  BackupMultipartChunksize : string;
  Bucket : string;
  Encryption : string;
  Endpoint : string;
  Folder : string;
  HttpProxy : string;
  Region : string;
  RestoreMaxConcurrentRequests : string;
  RestoreMultipartChunksize : string;
  PgPort : string;
  BackupPluginVersion : string;
  UploadChunkSize : Z;
  UploadConcurrency : Z;
  DownloadChunkSize : Z;
  DownloadConcurrency : Z
}.

Record PluginConfig : Type := mkPluginConfig {
  ExecutablePath : string;
  Options : PluginOptions
}.

Definition DefaultConcurrency : Z := 6.
Definition DefaultUploadChunkSize : Z := Mebibyte * 500.
Definition DefaultDownloadChunkSize : Z := Mebibyte * 500.

(** [bytesize.Parse] and [strconv.Atoi]: the value and the error they
    return; the value of [bytesize.Parse] is a [uint64]. *)
Record parsers : Type := mkParsers {
  bytesize_Parse : string -> Z * option error;
  strconv_Atoi : string -> Z * option error
}.

(** The line feed that ends every message. *)
Definition nl : string := String (ascii_of_nat 10) EmptyString.

(** [if b { errTxt += msg }] *)
Definition addIf (b : bool) (msg errTxt : string) : string :=
  if b then (errTxt ++ msg)%string else errTxt.

(** [if err != nil { errTxt += fmt.Sprintf(what + " Err: %s\n", err) }] *)
Definition addErr (err : option error) (what errTxt : string) : string :=
  match err with
  | Some e => (errTxt ++ what ++ " Err: " ++ e ++ nl)%string
  | None => errTxt
  end.

(** [InitializeAndValidateConfig]: the configuration as the call leaves it
    and the returned error. *)
Definition InitializeAndValidateConfig (P : parsers) (config : PluginConfig)
    : PluginConfig * option error :=
  let opt := Options config in
  let region := if isEmpty (Region opt) then "unused"%string else Region opt in
  let encryption := if isEmpty (Encryption opt) then "on"%string else Encryption opt in
  let errTxt := ""%string in
  let errTxt :=
    addIf (isEmpty (ExecutablePath config))
      ("executable_path must exist and cannot be empty in plugin configuration file" ++ nl)
      errTxt in
  let errTxt :=
    addIf (isEmpty (Bucket opt))
      ("bucket must exist and cannot be empty in plugin configuration file" ++ nl)
      errTxt in
  let errTxt :=
    addIf (isEmpty (Folder opt))
      ("folder must exist and cannot be empty in plugin configuration file" ++ nl)
      errTxt in
  let errTxt :=
    if isEmpty (AwsAccessKeyId opt) then
      addIf (negb (isEmpty (AwsSecretAccessKey opt)))
        ("aws_access_key_id must exist in plugin configuration file if aws_secret_access_key does"
         ++ nl) errTxt
    else
      addIf (isEmpty (AwsSecretAccessKey opt))
        ("aws_secret_access_key must exist in plugin configuration file if aws_access_key_id does"
         ++ nl) errTxt in
  let errTxt :=
    addIf ((region =? "unused")%string && isEmpty (Endpoint opt))
      ("region or endpoint must exist in plugin configuration file" ++ nl) errTxt in
  let errTxt :=
    addIf (negb (encryption =? "on")%string && negb (encryption =? "off")%string)
      ("Invalid encryption configuration. Valid choices are on or off." ++ nl) errTxt in
  let backupChunk := bytesize_Parse P (BackupMultipartChunksize opt) in
  let errTxt :=
    if isEmpty (BackupMultipartChunksize opt) then errTxt
    else addErr (snd backupChunk) "Invalid backup_multipart_chunksize." errTxt in
  let uploadChunkSize :=
    if isEmpty (BackupMultipartChunksize opt) then DefaultUploadChunkSize
    else wrap64 (fst backupChunk) in
  let backupRequests := strconv_Atoi P (BackupMaxConcurrentRequests opt) in
  let uploadConcurrency :=
    if isEmpty (BackupMaxConcurrentRequests opt) then DefaultConcurrency
    else fst backupRequests in
  let errTxt :=
    if isEmpty (BackupMaxConcurrentRequests opt) then errTxt
    else addErr (snd backupRequests) "Invalid backup_max_concurrent_requests." errTxt in
  let restoreChunk := bytesize_Parse P (RestoreMultipartChunksize opt) in
  let errTxt :=
    if isEmpty (RestoreMultipartChunksize opt) then errTxt
    else addErr (snd restoreChunk) "Invalid restore_multipart_chunksize." errTxt in
  let downloadChunkSize :=
    if isEmpty (RestoreMultipartChunksize opt) then DefaultDownloadChunkSize
    else wrap64 (fst restoreChunk) in
  let restoreRequests := strconv_Atoi P (RestoreMaxConcurrentRequests opt) in
  let downloadConcurrency :=
    if isEmpty (RestoreMaxConcurrentRequests opt) then DefaultConcurrency
    else fst restoreRequests in
  let errTxt :=
    if isEmpty (RestoreMaxConcurrentRequests opt) then errTxt
    else addErr (snd restoreRequests) "Invalid restore_max_concurrent_requests." errTxt in
  (mkPluginConfig (ExecutablePath config)
     (mkPluginOptions (AwsAccessKeyId opt) (AwsSecretAccessKey opt)
        (BackupMaxConcurrentRequests opt) (BackupMultipartChunksize opt) (Bucket opt)
        encryption (Endpoint opt) (Folder opt) (HttpProxy opt) region
        (RestoreMaxConcurrentRequests opt) (RestoreMultipartChunksize opt) (PgPort opt)
        (BackupPluginVersion opt) uploadChunkSize uploadConcurrency downloadChunkSize
        downloadConcurrency),
   if isEmpty errTxt then None else Some errTxt).

(** The checks of [InitializeAndValidateConfig] on the configuration as it
    was read. *)
Definition acceptable (P : parsers) (config : PluginConfig) : Prop :=
  let opt := Options config in
  ExecutablePath config <> ""%string /\
  Bucket opt <> ""%string /\
  Folder opt <> ""%string /\
  (AwsAccessKeyId opt = ""%string <-> AwsSecretAccessKey opt = ""%string) /\
  (Endpoint opt = ""%string -> Region opt <> ""%string /\ Region opt <> "unused"%string) /\
  (Encryption opt = ""%string \/ Encryption opt = "on"%string \/
   Encryption opt = "off"%string) /\
  (BackupMultipartChunksize opt <> ""%string ->
     snd (bytesize_Parse P (BackupMultipartChunksize opt)) = None) /\
  (BackupMaxConcurrentRequests opt <> ""%string ->
     snd (strconv_Atoi P (BackupMaxConcurrentRequests opt)) = None) /\
  (RestoreMultipartChunksize opt <> ""%string ->
     snd (bytesize_Parse P (RestoreMultipartChunksize opt)) = None) /\
  (RestoreMaxConcurrentRequests opt <> ""%string ->
     snd (strconv_Atoi P (RestoreMaxConcurrentRequests opt)) = None).

(** Parsers for the sample configurations: "0" and "7" are numbers, "0MB"
    and "10MB" are sizes, anything else is refused. *)
Definition sampleParsers : parsers :=
  mkParsers
    (fun s => if (s =? "10MB")%string then (10 * 1024 * 1024, None)
              else if (s =? "0MB")%string then (0, None)
              else (0, Some "Unrecognized size suffix"%string))
    (fun s => if (s =? "7")%string then (7, None)
              else if (s =? "0")%string then (0, None)
              else (0, Some "invalid syntax"%string)).

(** The configuration of the test suite, with the sizes and counts of a
    restore given as [chunksize] and [requests]. *)
Definition sampleConfig (chunksize requests : string) : PluginConfig :=
  mkPluginConfig "/tmp/location"
    (mkPluginOptions "12345" "6789" "" "" "bucket_name" "" "endpoint_name" "folder_name"
       "" "region_name" requests chunksize "" "" 0 0 0 0).

End Plugin.

(** ** restore.go and s3plugin.go: whole directories *)

(** [strings.HasSuffix(s, suffix)] *)
Definition strings_HasSuffix (s suffix : string) : bool :=
  (String.length suffix <=? String.length s)%nat &&
  (substring (String.length s - String.length suffix) (String.length suffix) s
   =? suffix)%string.

Fixpoint stripTrailingSlashes (s : string) : string :=
  match s with
  | EmptyString => EmptyString
  | String c s' =>
      match stripTrailingSlashes s' with
      | EmptyString => if Ascii.eqb c "/"%char then EmptyString else String c EmptyString
      | r => String c r
      end
  end.

(** [filepath.Base] on Unix: the last element of the path once its
    trailing slashes are removed; "." for the empty path and "/" for a
    path of slashes. *)
Definition filepath_Base (path : string) : string :=
  if isEmpty path then "."%string
  else
    let e := List.last (strings_Split (stripTrailingSlashes path) "/"%char) ""%string in
    if isEmpty e then "/"%string else e.

(** The keys that the directory restores do not skip as directories. *)
Definition isFileKey (key : string) : bool := negb (strings_HasSuffix key "/").

(** The local path that [RestoreDirectory] creates for a key. *)
Definition restorePath (dirName key : string) : string :=
  let filename :=
    if strings_Contains key "/" then List.last (strings_Split key "/"%char) ""%string
    else ""%string in
  (dirName ++ "/" ++ filename)%string.

(** The local path that a worker of [RestoreDirectoryParallel] creates. *)
Definition restorePathParallel (dirName fileKey : string) : string :=
  let fileName :=
    if strings_Contains fileKey "/" then filepath_Base fileKey else fileKey in
  (dirName ++ "/" ++ fileName)%string.

(** What the loops over a directory meet for one file: the error of
    [os.Create] or [os.Open] on a local path, and the error of the
    [downloadFile] or [uploadFile] of a key. *)
Record dirWorld : Type := mkDirWorld {
  osOpen : string -> option error;
  transferFile : string -> option error
}.

(** The calls of the loops, with their outcome. *)
Inductive dirCall : Type :=
| CallOpen (path : string) (err : option error)
| CallTransfer (key : string) (err : option error)
| CallRemove (path : string).

(** The loop of [RestoreDirectory] over the listed keys: the returned error
    and the calls made.  The counters [totalBytes] and [numFiles] only feed
    the log lines and are left out, as these lines are. *)
Fixpoint RestoreDirectory (W : dirWorld) (dirName : string) (keys : list string)
    : option error * list dirCall :=
  match keys with
  | [] => (None, [])
  | key :: rest =>
      if strings_HasSuffix key "/" then RestoreDirectory W dirName rest
      else
        let filename :=
          if strings_Contains key "/"
          then List.last (strings_Split key "/"%char) ""%string
          else ""%string in
        let filePath := (dirName ++ "/" ++ filename)%string in
        match osOpen W filePath with
        | Some e => (Some e, [CallOpen filePath (Some e)])
        | None =>
            match transferFile W key with
            | Some e =>
                (Some e, [CallOpen filePath None; CallTransfer key (Some e);
                          CallRemove filename])
            | None =>
                let '(err, calls) := RestoreDirectory W dirName rest in
                (err, CallOpen filePath None :: CallTransfer key None :: calls)
            end
        end
  end.

(** *** The worker pool of [RestoreDirectoryParallel] and [BackupDirectoryParallel]

    Both functions send the files to a buffered channel that they close,
    add one to a [sync.WaitGroup] per file, start [parallel] goroutines
    that range over the channel, and return [finalErr] after
    [wg.Wait()].  A goroutine opens the local file, leaving its loop when
    that fails, transfers the file and calls [wg.Done()];
    [gplog.FatalOnError] ends the process when the transfer fails.  The
    counters [totalBytes] and [numFiles] only feed the messages printed
    and are left out, as the messages are. *)

Inductive poolWorker : Type :=
| PIdle                          (* for fileKey := range jobs *)
| POpening (fileKey : string)    (* file, err := os.Create(filePath) *)
| PTransferring (fileKey : string)   (* downloadFile(...) *)
| PClosing (fileKey : string)    (* file.Close(); wg.Done() *)
| PExited.                       (* the goroutine has returned *)

Record poolState : Type := mkPool {
  fileChannel : list string;     (* the closed channel, in FIFO order *)
  poolWorkers : list poolWorker;
  wg : Z;
  poolErr : option error;        (* finalErr *)
  poolCalls : list dirCall;      (* oldest first *)
  poolReturned : option (option error)
}.









(** The keys transferred, as logged; the goroutines that hold a file; the
    files of the goroutines that left their loop on a failed open. *)
Fixpoint transferred (calls : list dirCall) : list string :=
  match calls with
  | [] => []
  | CallTransfer key None :: rest => key :: transferred rest
  | _ :: rest => transferred rest
  end.

Fixpoint failedOpens (calls : list dirCall) : nat :=
  match calls with
  | [] => 0
  | CallOpen _ (Some _) :: rest => S (failedOpens rest)
  | _ :: rest => failedOpens rest
  end.

Definition inProgress (st : poolWorker) : option string :=
  match st with
  | POpening k | PTransferring k => Some k
  | PIdle | PClosing _ | PExited => None
  end.

Definition busy (st : poolWorker) : nat :=
  match st with
  | POpening _ | PTransferring _ | PClosing _ => 1
  | PIdle | PExited => 0
  end.

(** A file that can be opened and transferred. *)
Definition fileOk (localPath : string -> string) (W : dirWorld) (key : string) : Prop :=
  osOpen W (localPath key) = None /\ transferFile W key = None.

(** The invariant of the pool for the list [fileList]. *)
Record poolInv (localPath : string -> string) (W : dirWorld) (fileList : list string)
    (s : poolState) : Prop := mkPoolInv {
  pool_wg :
    wg s = Z.of_nat (length (fileChannel s) + sum_list_with busy (poolWorkers s)
                     + failedOpens (poolCalls s));
  pool_err : poolErr s <> None -> (1 <= failedOpens (poolCalls s))%nat;
  pool_files :
    fileChannel s ++ omap inProgress (poolWorkers s) ++ transferred (poolCalls s)
    ⊆+ fileList;
  pool_count :
    (length (fileChannel s) + length (omap inProgress (poolWorkers s))
     + length (transferred (poolCalls s)) + failedOpens (poolCalls s)
     = length fileList)%nat;
  pool_opened :
    forall w key, poolWorkers s !! w = Some (PTransferring key) ->
      osOpen W (localPath key) = None;
  pool_ok : forall key, key ∈ transferred (poolCalls s) -> fileOk localPath W key;
  pool_ret : forall r, poolReturned s = Some r -> r = poolErr s /\ wg s = 0
}.




Definition sampleKeys : list string :=
  ["backups/20180101/20180101082233/"; "backups/20180101/20180101082233/a.gz";
   "backups/20180101/20180101082233/b.gz"]%string.


(** ** s3plugin.go: encryption *)

Definition toLower (c : ascii) : ascii :=
  if (65 <=? nat_of_ascii c)%nat && (nat_of_ascii c <=? 90)%nat
  then ascii_of_nat (nat_of_ascii c + 32)
  else c.

(** [strings.EqualFold(s, t)] on strings whose letters have only ASCII case
    variants, as those of "off" do: the bytes agree up to the case of the
    ASCII letters. *)
Fixpoint strings_EqualFold (s t : string) : bool :=
  match s, t with
  | EmptyString, EmptyString => true
  | String a s', String b t' =>
      Ascii.eqb (toLower a) (toLower b) && strings_EqualFold s' t'
  | _, _ => false
  end.

(** [ShouldEnableEncryption] *)
Definition ShouldEnableEncryption (encryption : string) : bool :=
  let isOff := strings_EqualFold encryption "off" in
  negb isOff.

(** The error returned for [config] mentions [msg]. *)
Definition reported (P : Plugin.parsers) (config : Plugin.PluginConfig) (msg : string)
    : Prop :=
  exists errTxt,
    snd (Plugin.InitializeAndValidateConfig P config) = Some errTxt /\
    strings_Contains errTxt msg = true.

(** A configuration without bucket and folder. *)
Definition incompleteConfig : Plugin.PluginConfig :=
  Plugin.mkPluginConfig "/tmp/location"
    (Plugin.mkPluginOptions "12345" "6789" "" "" "" "" "endpoint_name" ""
       "" "region_name" "" "" "" "" 0 0 0 0).

(* ===================================================================== *)
(** * Part II: theorems                                                    *)
(* ===================================================================== *)

(** ** 64-bit arithmetic *)

Lemma wrap64_small z : in_int64 z -> wrap64 z = z.
Proof.
  unfold in_int64, int64_min, int64_max, wrap64; intros H.
  rewrite Z.mod_small; lia.
Qed.

Ltac int64_lia := unfold in_int64, int64_min, int64_max in *; lia.

Lemma add64_small a b : in_int64 (a + b) -> add64 a b = a + b.
Proof. apply wrap64_small. Qed.

Lemma sub64_small a b : in_int64 (a - b) -> sub64 a b = a - b.
Proof. apply wrap64_small. Qed.

Lemma wrap64_add_l x y : wrap64 (wrap64 x + y) = wrap64 (x + y).
Proof.
  unfold wrap64.
  replace ((x + 2 ^ 63) mod 2 ^ 64 - 2 ^ 63 + y + 2 ^ 63)
    with ((x + 2 ^ 63) mod 2 ^ 64 + y) by lia.
  rewrite Zplus_mod_idemp_l. f_equal. f_equal. lia.
Qed.

(** [a + b - 1] in 64 bits: an overflow of the intermediate sum is undone
    by the subtraction whenever the exact result fits. *)
Lemma sub64_add64 a b c : in_int64 (a + b - c) -> sub64 (add64 a b) c = a + b - c.
Proof.
  intros H. unfold sub64, add64.
  replace (wrap64 (a + b) - c) with (wrap64 (a + b) + - c) by lia.
  rewrite wrap64_add_l. replace (a + b + - c) with (a + b - c) by lia.
  apply wrap64_small, H.
Qed.

(** ** The chunk plan *)

Lemma createJobs_stop fuel n cs tb i sb eb d :
  n <= i \/ d = true -> createJobs fuel n cs tb i sb eb d = [].
Proof.
  intros H; destruct fuel as [|f]; simpl; [reflexivity|].
  destruct H as [H | ->].
  - replace (i <? n) with false by (symmetry; apply Z.ltb_ge; lia). reflexivity.
  - rewrite andb_false_r. reflexivity.
Qed.

(** Any fuel of at least [numberOfChunks - chunkIndex] gives the same jobs:
    the loop of the source never runs out of iterations in the model. *)
Lemma createJobs_fuel f1 : forall f2 n cs tb i sb eb d,
  (Z.to_nat (n - i) <= f1)%nat -> (Z.to_nat (n - i) <= f2)%nat ->
  createJobs f1 n cs tb i sb eb d = createJobs f2 n cs tb i sb eb d.
Proof.
  induction f1 as [|f1 IH]; intros f2 n cs tb i sb eb d H1 H2.
  - rewrite (createJobs_stop f2) by lia. reflexivity.
  - destruct f2 as [|f2].
    + rewrite (createJobs_stop (S f1)) by lia. reflexivity.
    + simpl. destruct ((i <? n) && negb d) eqn:E; [|reflexivity].
      f_equal. apply IH; lia.
Qed.

Lemma lastEnd_cons c l :
  lastEnd (c :: l) = match lastEnd l with Some e => Some e | None => Some (endByte c) end.
Proof.
  unfold lastEnd; simpl. destruct (rev l) as [|x r] eqn:E; reflexivity.
Qed.

Lemma numberOfChunks_ceil tb cs :
  0 < cs -> 0 <= tb -> tb + cs - 1 <= int64_max ->
  exists n, numberOfChunks tb cs = Some n /\ (n - 1) * cs < tb <= n * cs.
Proof.
  intros Hcs Htb Hmax.
  unfold numberOfChunks, div64.
  rewrite sub64_add64 by int64_lia.
  replace (cs =? 0) with false by (symmetry; apply Z.eqb_neq; lia).
  rewrite Z.quot_div_nonneg by lia.
  pose proof (Z.div_mod (tb + cs - 1) cs ltac:(lia)) as Hdm.
  pose proof (Z.mod_pos_bound (tb + cs - 1) cs Hcs) as Hr.
  set (q := (tb + cs - 1) / cs) in *. set (r := (tb + cs - 1) mod cs) in *.
  assert (0 <= q) by (apply Z.div_pos; lia).
  assert (q <= tb + cs - 1) by nia.
  exists q. rewrite wrap64_small by int64_lia.
  split; [reflexivity | nia].
Qed.

Lemma createJobs_plan f : forall n cs tb i sb,
  0 < cs -> tb + cs - 1 <= int64_max ->
  (n - 1) * cs < tb <= n * cs ->
  0 <= i -> i * cs < tb -> f = Z.to_nat (n - i) ->
  let l := createJobs f n cs tb i sb (i * cs - 1) false in
  Z.of_nat (length l) = n - i /\ indexedFrom i l /\ partitions (i * cs) tb l /\
  sumLen l = tb - i * cs /\ lastEnd l = Some (tb - 1) /\
  Forall (fun c => startByte c = chunkIndex c * cs /\
                   endByte c = Z.min ((chunkIndex c + 1) * cs) tb - 1) l.
Proof.
  induction f as [|f IH]; intros n cs tb i sb Hcs Hmax Hn Hi Hlt Hf l.
  - exfalso. assert (i < n) by nia. lia.
  - assert (Hin : i < n) by nia.
    subst l. cbn [createJobs].
    replace (i <? n) with true by (symmetry; apply Z.ltb_lt; lia).
    cbn [andb negb].
    assert (0 <= i * cs) by nia.
    rewrite !add64_small by int64_lia.
    replace (i * cs - 1 + 1) with (i * cs) by lia.
    destruct (tb <=? i * cs - 1 + cs) eqn:Ehit.
    + (* the final, possibly short, chunk *)
      apply Z.leb_le in Ehit.
      rewrite sub64_small by int64_lia.
      rewrite createJobs_stop by (right; reflexivity).
      assert (i = n - 1) by nia. subst i.
      unfold sumLen, chunkLen.
      cbn [length indexedFrom partitions fold_right chunkIndex startByte endByte].
      rewrite lastEnd_cons; cbn [lastEnd rev endByte].
      split_and!; try lia; try exact I; try (f_equal; lia).
      constructor; [|constructor].
      cbn [chunkIndex startByte endByte]. split; [lia|]. lia.
    + apply Z.leb_gt in Ehit.
      destruct (Z.eq_dec (i + 1) n) as [Elast | Emore].
      * (* totalBytes is a multiple of the chunk size: the counter stops the loop *)
        rewrite createJobs_stop by (left; lia).
        assert (tb = (i + 1) * cs) by nia.
        unfold sumLen, chunkLen.
        cbn [length indexedFrom partitions fold_right chunkIndex startByte endByte].
        rewrite lastEnd_cons; cbn [lastEnd rev endByte].
        split_and!; try lia; try exact I; try (f_equal; lia).
        constructor; [|constructor].
        cbn [chunkIndex startByte endByte]. split; [lia|]. lia.
      * assert (Hnext : (i + 1) * cs < tb) by nia.
        specialize (IH n cs tb (i + 1) (i * cs) Hcs Hmax Hn ltac:(lia) Hnext ltac:(lia)).
        cbv zeta in IH.
        replace ((i + 1) * cs - 1) with (i * cs - 1 + cs) in IH by lia.
        destruct IH as (IHlen & IHidx & IHpart & IHsum & IHlast & IHall).
        rewrite lastEnd_cons, IHlast.
        unfold sumLen in *.
        cbn [length indexedFrom partitions fold_right chunkIndex startByte endByte].
        rewrite IHsum. unfold chunkLen; cbn [startByte endByte].
        replace (i * cs - 1 + cs + 1) with ((i + 1) * cs) by lia.
        split_and!; try lia; try assumption; try reflexivity.
        constructor; [|assumption].
        cbn [chunkIndex startByte endByte]. split; [lia|]. lia.
Qed.

(** C1 (amended): for [0 < chunkSize < totalBytes] with
    [totalBytes + chunkSize - 1] representable in an [int64], the chunk
    planning loop of [downloadFileInParallel] produces
    [n = ceil(totalBytes / chunkSize)] chunks, numbered [0 .. n-1], whose
    ranges tile [0, totalBytes) contiguously without gap or overlap; the last
    [endByte] is [totalBytes - 1] and the chunk lengths sum to [totalBytes].
    For 12 MiB in chunks of 5 MiB the plan is exactly
    [0,5242879], [5242880,10485759], [10485760,12582911]. *)
Theorem planJobs_partition (totalBytes chunkSize : Z) :
  0 < chunkSize -> chunkSize < totalBytes ->
  totalBytes + chunkSize - 1 <= int64_max ->
  exists jobs n,
    planJobs totalBytes chunkSize = Some jobs /\
    Z.of_nat (length jobs) = n /\
    (n - 1) * chunkSize < totalBytes <= n * chunkSize /\
    indexedFrom 0 jobs /\
    partitions 0 totalBytes jobs /\
    lastEnd jobs = Some (totalBytes - 1) /\
    sumLen jobs = totalBytes /\
    (totalBytes = 12 * Mebibyte -> chunkSize = 5 * Mebibyte ->
     jobs = [mkChunk 0 0 5242879; mkChunk 1 5242880 10485759;
             mkChunk 2 10485760 12582911]).
Proof.
  intros Hcs Hlt Hmax.
  destruct (numberOfChunks_ceil totalBytes chunkSize Hcs ltac:(lia) Hmax)
    as (n & Hn & Hceil).
  assert (Hpos : 0 < n) by nia.
  pose proof (createJobs_plan (Z.to_nat n) n chunkSize totalBytes 0 0
                Hcs Hmax Hceil ltac:(lia) ltac:(lia) ltac:(f_equal; lia)) as H.
  cbv zeta in H. change (0 * chunkSize - 1) with (-1) in H.
  change (0 * chunkSize) with 0 in H.
  destruct H as (Hlen & Hidx & Hpart & Hsum & Hlast & _).
  exists (createJobs (Z.to_nat n) n chunkSize totalBytes 0 0 (-1) false), n.
  split_and!; try assumption; try lia.
  - unfold planJobs. rewrite Hn.
    replace (n <? 0) with false by (symmetry; apply Z.ltb_ge; lia). reflexivity.
  - intros -> ->.
    assert (n = 3) by (unfold Mebibyte in Hceil; lia). subst n.
    vm_compute. reflexivity.
Qed.

Lemma planJobs_partition_witness :
  exists jobs n,
    planJobs (12 * Mebibyte) (5 * Mebibyte) = Some jobs /\
    Z.of_nat (length jobs) = n /\
    (n - 1) * (5 * Mebibyte) < 12 * Mebibyte <= n * (5 * Mebibyte) /\
    indexedFrom 0 jobs /\
    partitions 0 (12 * Mebibyte) jobs /\
    lastEnd jobs = Some (12 * Mebibyte - 1) /\
    sumLen jobs = 12 * Mebibyte /\
    (12 * Mebibyte = 12 * Mebibyte -> 5 * Mebibyte = 5 * Mebibyte ->
     jobs = [mkChunk 0 0 5242879; mkChunk 1 5242880 10485759;
             mkChunk 2 10485760 12582911]).
Proof.
  apply (planJobs_partition (12 * Mebibyte) (5 * Mebibyte)); vm_compute; congruence.
Defined.

(** C1 as stated fails where the 64-bit sum [totalBytes + chunkSize - 1]
    wraps: with [totalBytes = 2^63 - 1] and [chunkSize = 2^62] the computed
    [numberOfChunks] is negative and the plan is never built. *)
Lemma planJobs_overflow_counterexample :
  0 < 2 ^ 62 /\ 2 ^ 62 < 2 ^ 63 - 1 /\
  in_int64 (2 ^ 63 - 1) /\ in_int64 (2 ^ 62) /\
  numberOfChunks (2 ^ 63 - 1) (2 ^ 62) = Some (-1) /\
  planJobs (2 ^ 63 - 1) (2 ^ 62) = None.
Proof.
  unfold in_int64. vm_compute. repeat split; congruence.
Qed.

(** ** The retry policy *)

Section Retry.

Variable sdkShouldRetry : DefaultRetryer -> Request -> bool.

Lemma ShouldRetry_zero r req :
  NumMaxRetries (embedded r) = 0 -> ShouldRetry sdkShouldRetry r req = Some false.
Proof. intros H. unfold ShouldRetry. rewrite H. reflexivity. Qed.

Lemma ShouldRetry_reset r req :
  NumMaxRetries (embedded r) <> 0 -> connectionReset req = true ->
  ShouldRetry sdkShouldRetry r req = Some true.
Proof.
  intros H Hr. unfold ShouldRetry.
  destruct (Z.eqb_spec (NumMaxRetries (embedded r)) 0); [contradiction|].
  rewrite Hr. reflexivity.
Qed.

Lemma ShouldRetry_response r req resp :
  NumMaxRetries (embedded r) <> 0 -> connectionReset req = false ->
  HTTPResponse req = Some resp ->
  ShouldRetry sdkShouldRetry r req =
    Some (if StatusCode resp =? 404 then true else sdkShouldRetry (embedded r) req).
Proof.
  intros H Hr Hresp. unfold ShouldRetry.
  destruct (Z.eqb_spec (NumMaxRetries (embedded r)) 0); [contradiction|].
  rewrite Hr, Hresp. destruct (StatusCode resp =? 404); reflexivity.
Qed.

End Retry.

(** C6: with a positive configured maximum, a request whose error text
    contains "connection reset by peer" is retried, whatever its response;
    otherwise a 404 response is retried; every other response is left to
    the SDK's default retryer, and so is a 200 response without error, which
    is refused as soon as the default retryer refuses it. *)
Theorem ShouldRetry_priority (sdk : DefaultRetryer -> Request -> bool)
    (r : CustomRetryer) (req : Request) :
  0 < NumMaxRetries (embedded r) ->
  (connectionReset req = true -> ShouldRetry sdk r req = Some true) /\
  (forall resp, HTTPResponse req = Some resp ->
     (connectionReset req = false -> StatusCode resp = 404 ->
        ShouldRetry sdk r req = Some true) /\
     (connectionReset req = false -> StatusCode resp <> 404 ->
        ShouldRetry sdk r req = Some (sdk (embedded r) req)) /\
     (Error req = None -> StatusCode resp = 200 -> sdk (embedded r) req = false ->
        ShouldRetry sdk r req = Some false)).
Proof.
  intros Hmax. split.
  - intros Hr. apply ShouldRetry_reset; [lia | exact Hr].
  - intros resp Hresp. split_and!.
    + intros Hr H404.
      rewrite (ShouldRetry_response sdk r req resp) by (lia || assumption).
      rewrite H404. reflexivity.
    + intros Hr H404.
      rewrite (ShouldRetry_response sdk r req resp) by (lia || assumption).
      destruct (Z.eqb_spec (StatusCode resp) 404); [contradiction | reflexivity].
    + intros He H200 Hsdk.
      assert (Hr : connectionReset req = false)
        by (unfold connectionReset; rewrite He; reflexivity).
      rewrite (ShouldRetry_response sdk r req resp) by (lia || assumption).
      rewrite H200, Hsdk. reflexivity.
Qed.

Lemma ShouldRetry_priority_witness :
  ShouldRetry statusRetryer (mkCustomRetryer (mkDefaultRetryer 5))
    (mkRequest None (Some (mkResponse 200)) 0) = Some false /\
  ShouldRetry statusRetryer (mkCustomRetryer (mkDefaultRetryer 5))
    (mkRequest None (Some (mkResponse 404)) 0) = Some true /\
  ShouldRetry statusRetryer (mkCustomRetryer (mkDefaultRetryer 5))
    (mkRequest (Some "write: connection reset by peer"%string)
               (Some (mkResponse 500)) 0) = Some true.
Proof.
  split_and!.
  - destruct (ShouldRetry_priority statusRetryer (mkCustomRetryer (mkDefaultRetryer 5))
                (mkRequest None (Some (mkResponse 200)) 0)
                ltac:(vm_compute; reflexivity)) as [_ H].
    destruct (H (mkResponse 200) eq_refl) as (_ & _ & H200).
    apply H200; reflexivity.
  - destruct (ShouldRetry_priority statusRetryer (mkCustomRetryer (mkDefaultRetryer 5))
                (mkRequest None (Some (mkResponse 404)) 0)
                ltac:(vm_compute; reflexivity)) as [_ H].
    destruct (H (mkResponse 404) eq_refl) as (H404 & _ & _).
    apply H404; reflexivity.
  - destruct (ShouldRetry_priority statusRetryer (mkCustomRetryer (mkDefaultRetryer 5))
                (mkRequest (Some "write: connection reset by peer"%string)
                           (Some (mkResponse 500)) 0)
                ltac:(vm_compute; reflexivity)) as [Hreset _].
    apply Hreset. reflexivity.
Defined.

(** C3 (amended): [ShouldRetry] never looks at the attempt count.  It
    refuses every request only when the configured maximum is 0; with any
    other maximum a connection reset or a 404 response is retried at every
    attempt count, the configured maximum (10 for the session's retryer) and
    beyond included. *)
Theorem ShouldRetry_ignores_attempt_count (sdk : DefaultRetryer -> Request -> bool)
    (r : CustomRetryer) (req : Request) (attempts : Z) :
  (NumMaxRetries (embedded r) = 0 ->
     ShouldRetry sdk r (withRetryCount attempts req) = Some false) /\
  (NumMaxRetries (embedded r) <> 0 ->
     connectionReset req = true \/ HTTPResponse req = Some (mkResponse 404) ->
     ShouldRetry sdk r (withRetryCount attempts req) = Some true) /\
  NumMaxRetries (embedded sessionRetryer) = 10.
Proof.
  split_and!.
  - apply ShouldRetry_zero.
  - intros Hmax Hcase. unfold ShouldRetry.
    destruct (Z.eqb_spec (NumMaxRetries (embedded r)) 0); [contradiction|].
    unfold connectionReset, withRetryCount; cbn [Error HTTPResponse].
    fold (connectionReset req).
    destruct (connectionReset req) eqn:Er; [reflexivity|].
    destruct Hcase as [Hc | Hc]; [discriminate|].
    rewrite Hc. reflexivity.
  - reflexivity.
Qed.

Lemma ShouldRetry_ignores_attempt_count_witness :
  ShouldRetry statusRetryer sessionRetryer
    (withRetryCount 10 (mkRequest None (Some (mkResponse 404)) 0)) = Some true.
Proof.
  apply (ShouldRetry_ignores_attempt_count statusRetryer sessionRetryer
           (mkRequest None (Some (mkResponse 404)) 0) 10).
  - vm_compute. congruence.
  - right. reflexivity.
Defined.

(** C3 as stated fails: with the session's maximum of 10 and a request
    already at attempt 10, a 404 response and a connection reset are both
    still answered with [true]. *)
Lemma ShouldRetry_cap_counterexample :
  NumMaxRetries (embedded sessionRetryer) <= 10 /\
  ShouldRetry statusRetryer sessionRetryer
    (mkRequest None (Some (mkResponse 404)) 10) = Some true /\
  ShouldRetry statusRetryer sessionRetryer
    (mkRequest (Some "read tcp 10.0.0.1:443: read: connection reset by peer"%string)
               (Some (mkResponse 0)) 10) = Some true.
Proof.
  vm_compute. repeat split; congruence.
Qed.
(** ** The object key *)

Lemma strings_Split_length s sep :
  length (strings_Split s sep) = S (countByte sep s).
Proof.
  induction s as [|c s IH]; simpl; [reflexivity|].
  destruct (Ascii.eqb c sep); simpl.
  - rewrite IH. reflexivity.
  - destruct (strings_Split s sep) as [|p ps]; simpl in *; [discriminate | exact IH].
Qed.

Lemma sliceFrom_last {A : Type} (a : list A) (k : nat) :
  (k <= length a)%nat ->
  sliceFrom a (Z.of_nat (length a) - Z.of_nat k) = Some (drop (length a - k) a).
Proof.
  intros Hk. unfold sliceFrom.
  replace (Z.of_nat (length a) - Z.of_nat k <? 0) with false
    by (symmetry; apply Z.ltb_ge; lia).
  replace (Z.of_nat (length a) <? Z.of_nat (length a) - Z.of_nat k) with false
    by (symmetry; apply Z.ltb_ge; lia).
  simpl. do 2 f_equal. lia.
Qed.

Lemma sliceFrom_short {A : Type} (a : list A) (k : nat) :
  (length a < k)%nat -> sliceFrom a (Z.of_nat (length a) - Z.of_nat k) = None.
Proof.
  intros Hk. unfold sliceFrom.
  replace (Z.of_nat (length a) - Z.of_nat k <? 0) with true
    by (symmetry; apply Z.ltb_lt; lia).
  reflexivity.
Qed.

Lemma last_four_split {A : Type} (a : list A) :
  (4 <= length a)%nat ->
  exists pre x y z w, a = pre ++ [x; y; z; w] /\ drop (length a - 4) a = [x; y; z; w].
Proof.
  intros Hlen.
  pose proof (take_drop (length a - 4) a) as Htd.
  pose proof (length_drop a (length a - 4)) as Hd.
  destruct (drop (length a - 4) a) as [|x [|y [|z [|w [|v t]]]]] eqn:E;
    simpl in Hd; try lia.
  exists (take (length a - 4) a), x, y, z, w. split; [symmetry; exact Htd | reflexivity].
Qed.

(** C10: [GetS3Path] splits the path at every "/" (one component more than
    there are slashes).  With at least four components it returns the folder,
    a "/" and the last four components joined by "/"; with fewer (as for
    "a/b/c") the slice expression is out of range and the call panics. *)
Theorem GetS3Path_last_four (folder path : string) :
  let pathArray := strings_Split path "/"%char in
  length pathArray = S (countByte "/"%char path) /\
  ((4 <= length pathArray)%nat ->
     exists pre a b c d,
       pathArray = pre ++ [a; b; c; d] /\
       GetS3Path folder path =
         Some (folder ++ "/" ++ a ++ "/" ++ b ++ "/" ++ c ++ "/" ++ d)%string) /\
  ((length pathArray < 4)%nat -> GetS3Path folder path = None) /\
  GetS3Path folder "a/b/c"%string = None.
Proof.
  intros pathArray. split_and!.
  - apply strings_Split_length.
  - intros Hlen.
    destruct (last_four_split pathArray Hlen) as (pre & a & b & c & d & Hsplit & Hdrop).
    exists pre, a, b, c, d. split; [exact Hsplit|].
    unfold GetS3Path. fold pathArray.
    change 4 with (Z.of_nat 4).
    rewrite sliceFrom_last by exact Hlen. rewrite Hdrop. reflexivity.
  - intros Hlen. unfold GetS3Path. fold pathArray.
    change 4 with (Z.of_nat 4).
    rewrite sliceFrom_short by exact Hlen. reflexivity.
  - reflexivity.
Qed.

Lemma GetS3Path_last_four_witness :
  GetS3Path "s3/Dir"
    "/a/b/c/tmp/datadir/gpseg-1/backups/20180101/20180101082233/backup_file"
  = Some "s3/Dir/backups/20180101/20180101082233/backup_file"%string /\
  GetS3Path "s3/Dir" "b/c/d"%string = None.
Proof.
  split.
  - destruct (GetS3Path_last_four "s3/Dir"
      "/a/b/c/tmp/datadir/gpseg-1/backups/20180101/20180101082233/backup_file")
      as (_ & Hlong & _).
    destruct (Hlong ltac:(vm_compute; lia)) as (pre & a & b & c & d & Hsplit & Hkey).
    rewrite Hkey. vm_compute in Hsplit.
    apply (f_equal (@rev string)) in Hsplit. rewrite rev_app_distr in Hsplit.
    simpl in Hsplit. injection Hsplit as <- <- <- <- _. reflexivity.
  - destruct (GetS3Path_last_four "s3/Dir" "b/c/d") as (_ & _ & Hshort & _).
    apply Hshort. vm_compute. lia.
Defined.
(** ** Lists updated at one position *)

Lemma insert_middle {A : Type} (l : list A) (i : nat) (x : A) :
  l !! i = Some x ->
  exists l1 l2, l = l1 ++ x :: l2 /\ length l1 = i /\
                forall y, <[i := y]> l = l1 ++ y :: l2.
Proof.
  intros H. exists (take i l), (drop (S i) l).
  pose proof (lookup_lt_Some _ _ _ H) as Hlt.
  split_and!.
  - symmetry. apply take_drop_middle, H.
  - rewrite length_take. lia.
  - intros y. apply insert_take_drop, Hlt.
Qed.

Lemma omap_insert_perm {A B : Type} (f : A -> option B) (l : list A) (i : nat) (x y : A) :
  l !! i = Some x ->
  option_list (f x) ++ omap f (<[i := y]> l) ≡ₚ option_list (f y) ++ omap f l.
Proof.
  intros H. destruct (insert_middle l i x H) as (l1 & l2 & -> & _ & Hi).
  rewrite Hi, !omap_app. simpl.
  destruct (f x) as [b|], (f y) as [b'|]; simpl.
  - rewrite <- !Permutation_middle. apply perm_swap.
  - rewrite <- Permutation_middle. reflexivity.
  - rewrite <- Permutation_middle. reflexivity.
  - reflexivity.
Qed.

Lemma omap_insert_same {A B : Type} (f : A -> option B) (l : list A) (i : nat) (x y : A) :
  l !! i = Some x -> f x = f y -> omap f (<[i := y]> l) = omap f l.
Proof.
  intros H E. destruct (insert_middle l i x H) as (l1 & l2 & -> & _ & Hi).
  rewrite Hi, !omap_app. simpl. rewrite E. reflexivity.
Qed.

Lemma omap_lookup_elem {A B : Type} (f : A -> option B) (l : list A) (i : nat) (x : A) (b : B) :
  l !! i = Some x -> f x = Some b -> b ∈ omap f l.
Proof.
  intros H E. apply list_elem_of_omap. exists x. split; [|exact E].
  eapply list_elem_of_lookup_2, H.
Qed.

Lemma omap_elem_lookup {A B : Type} (f : A -> option B) (l : list A) (b : B) :
  b ∈ omap f l -> exists i x, l !! i = Some x /\ f x = Some b.
Proof.
  intros H. apply list_elem_of_omap in H as (x & Hx & E).
  apply list_elem_of_lookup_1 in Hx as [i Hi]. exists i, x. split; assumption.
Qed.

Lemma omap_NoDup_lookup {A B : Type} (f : A -> option B) (l : list A) :
  NoDup (omap f l) ->
  forall i j x y b, l !! i = Some x -> l !! j = Some y ->
    f x = Some b -> f y = Some b -> i = j.
Proof.
  induction l as [|z l IH]; intros Hnd i j x y b Hi Hj Ex Ey.
  - rewrite lookup_nil in Hi. discriminate.
  - simpl in Hnd.
    destruct i as [|i], j as [|j]; simpl in Hi, Hj.
    + reflexivity.
    + injection Hi as ->. rewrite Ex in Hnd. apply NoDup_cons in Hnd as [Hn _].
      exfalso. apply Hn. eapply omap_lookup_elem; eassumption.
    + injection Hj as ->. rewrite Ey in Hnd. apply NoDup_cons in Hnd as [Hn _].
      exfalso. apply Hn. eapply omap_lookup_elem; eassumption.
    + f_equal. apply (IH ltac:(destruct (f z); [apply NoDup_cons in Hnd as [_ ?]|]; assumption)
                        i j x y b Hi Hj Ex Ey).
Qed.

Lemma sum_list_insert {A : Type} (g : A -> nat) (l : list A) (i : nat) (x y : A) :
  l !! i = Some x ->
  (sum_list_with g (<[i := y]> l) + g x = sum_list_with g l + g y)%nat.
Proof.
  intros H. destruct (insert_middle l i x H) as (l1 & l2 & -> & _ & Hi).
  rewrite Hi, !sum_list_with_app. simpl. lia.
Qed.

Lemma omap_all_none {A B : Type} (f : A -> option B) (l : list A) :
  omap f l = [] -> forall i x, l !! i = Some x -> f x = None.
Proof.
  intros H i x Hi. destruct (f x) as [b|] eqn:E; [|reflexivity].
  pose proof (omap_lookup_elem f l i x b Hi E) as Hin.
  rewrite H in Hin. inversion Hin.
Qed.

(** ** Event logs and buffers *)

Lemma copiedIdx_app l1 l2 : copiedIdx (l1 ++ l2) = copiedIdx l1 ++ copiedIdx l2.
Proof.
  induction l1 as [|[| |] l1 IH]; simpl; rewrite ?IH; reflexivity.
Qed.

Lemma copiedBufs_app l1 l2 : copiedBufs (l1 ++ l2) = copiedBufs l1 ++ copiedBufs l2.
Proof.
  induction l1 as [|[| |] l1 IH]; simpl; rewrite ?IH; reflexivity.
Qed.

Lemma fileOf_app W l1 l2 : fileOf W (l1 ++ l2) = fileOf W l1 ++ fileOf W l2.
Proof.
  induction l1 as [|[| |] l1 IH]; simpl; rewrite ?IH, ?app_assoc; reflexivity.
Qed.

Lemma failures_app l1 l2 : failures (l1 ++ l2) = failures l1 ++ failures l2.
Proof.
  induction l1 as [|[? ?|? ? [e|]|? ? [e|]] l1 IH]; simpl; rewrite ?IH; reflexivity.
Qed.

Lemma length_writeAt buffer data : length (writeAt buffer data) = length buffer.
Proof.
  unfold writeAt. rewrite length_take, length_app, length_drop. lia.
Qed.

Lemma writeAt_full buffer data :
  length data = length buffer -> writeAt buffer data = data.
Proof.
  intros H. unfold writeAt. rewrite drop_ge by lia. rewrite app_nil_r.
  apply take_ge. lia.
Qed.

Lemma drop_cons_inv {A : Type} (l : list A) (k : nat) (x : A) (r : list A) :
  drop k l = x :: r -> l !! k = Some x /\ r = drop (S k) l.
Proof.
  intros H.
  assert (Hx : l !! k = Some x).
  { pose proof (lookup_drop l k 0) as Hd. rewrite H in Hd. simpl in Hd.
    rewrite Nat.add_0_r in Hd. symmetry. exact Hd. }
  split; [exact Hx|].
  rewrite (drop_S l x k Hx) in H. congruence.
Qed.

Lemma closed_prefix_insert (i n : nat) :
  (i < n)%nat ->
  <[i := true]> (replicate i true ++ replicate (n - i) false) =
  replicate (S i) true ++ replicate (n - S i) false.
Proof.
  intros H. replace (n - i)%nat with (S (n - S i)) by lia.
  rewrite (replicate_S_end i), <- app_assoc.
  rewrite insert_app_r_alt by (rewrite length_replicate; lia).
  rewrite length_replicate, Nat.sub_diag. reflexivity.
Qed.

Lemma closed_prefix_lookup (i n k : nat) :
  (k < n)%nat ->
  (replicate i true ++ replicate (n - i) false) !! k = Some (k <? i)%nat.
Proof.
  intros H. destruct (Nat.ltb_spec k i).
  - rewrite lookup_app_l by (rewrite length_replicate; lia).
    apply lookup_replicate_2. lia.
  - rewrite lookup_app_r by (rewrite length_replicate; lia).
    rewrite length_replicate. apply lookup_replicate_2. lia.
Qed.

(** ** The invariant is kept by every action *)

Section Goroutines.

Variable W : world.
Variable t : transfer.
Variable plan : list chunk.
Variable nw : nat.

Hypothesis plan_index : forall c j, plan !! c = Some j -> chunkIndex j = Z.of_nat c.
Hypothesis plan_size : forall c j, plan !! c = Some j ->
  add64 (sub64 (endByte j) (startByte j)) 1 = chunkLen j /\
  0 < chunkLen j <= downloadChunkSize t.
Hypothesis plan_full : forall c j, plan !! c = Some j -> (S c < length plan)%nat ->
  chunkLen j = downloadChunkSize t.

Lemma plan_lookup_inj c c' j : plan !! c = Some j -> plan !! c' = Some j -> c = c'.
Proof.
  intros H H'. apply plan_index in H, H'. lia.
Qed.

Lemma plan_NoDup : NoDup plan.
Proof. apply NoDup_alt. intros i j x. apply plan_lookup_inj. Qed.

Lemma window_lookup (lo n : nat) (j : chunk) :
  j ∈ take n (drop lo plan) ->
  exists c, plan !! c = Some j /\ (lo <= c < lo + n)%nat.
Proof.
  intros H. apply list_elem_of_lookup_1 in H as [i Hi].
  apply lookup_take_Some in Hi as [Hi Hlt]. rewrite lookup_drop in Hi.
  exists (lo + i)%nat. split; [exact Hi | lia].
Qed.

Lemma window_NoDup (lo n : nat) : NoDup (take n (drop lo plan)).
Proof.
  apply (sublist_NoDup _ plan); [exact plan_NoDup|].
  transitivity (drop lo plan); [apply sublist_take | apply sublist_drop].
Qed.

Lemma window_first (lo n : nat) (j : chunk) :
  plan !! lo = Some j ->
  take (S n) (drop lo plan) = j :: take n (drop (S lo) plan).
Proof.
  intros H. rewrite (drop_S plan j lo H). reflexivity.
Qed.

Lemma window_last (lo n : nat) (j : chunk) :
  plan !! (lo + n)%nat = Some j ->
  take (S n) (drop lo plan) = take n (drop lo plan) ++ [j].
Proof.
  intros H. apply take_S_r. rewrite lookup_drop. exact H.
Qed.

Local Abbreviation Inv := (inv W t plan nw).

Lemma held_lookup s w st j :
  Inv s -> workers s !! w = Some st -> jobOf st = Some j ->
  exists c, plan !! c = Some j /\ chunkIndex j = Z.of_nat c /\
    (taken (length plan) (copier s) <= c < pulled plan s)%nat /\
    (c < length plan)%nat.
Proof.
  intros I Hw Hj.
  pose proof (omap_lookup_elem jobOf _ _ _ _ Hw Hj) as Hin.
  fold (held (workers s)) in Hin. rewrite (inv_held _ _ _ _ _ I) in Hin.
  apply window_lookup in Hin as (c & Hc & Hr). exists c.
  pose proof (inv_taken _ _ _ _ _ I).
  pose proof (lookup_lt_Some _ _ _ Hc).
  split_and!; [exact Hc | apply plan_index, Hc | lia | lia | lia].
Qed.

Lemma held_NoDup s : Inv s -> NoDup (held (workers s)).
Proof.
  intros I. rewrite (inv_held _ _ _ _ _ I). apply window_NoDup.
Qed.

Lemma held_distinct s w w' st st' j :
  Inv s -> workers s !! w = Some st -> workers s !! w' = Some st' ->
  jobOf st = Some j -> jobOf st' = Some j -> w = w'.
Proof.
  intros I. apply (omap_NoDup_lookup jobOf), held_NoDup, I.
Qed.

Lemma owned_NoDup s : Inv s -> NoDup (owned (workers s)).
Proof.
  intros I. pose proof (inv_bufs _ _ _ _ _ I) as H.
  apply NoDup_app in H as (_ & _ & H). apply NoDup_app in H as (H & _). exact H.
Qed.

Lemma owned_distinct s w w' st st' a :
  Inv s -> workers s !! w = Some st -> workers s !! w' = Some st' ->
  bufferOf st = Some a -> bufferOf st' = Some a -> w = w'.
Proof.
  intros I. apply (omap_NoDup_lookup bufferOf), owned_NoDup, I.
Qed.

Ltac worker_cases w Hl :=
  match type of Hl with
  | <[w := _]> ?ws !! ?w0 = Some _ =>
      destruct (decide (w0 = w)) as [-> | ?];
      [ rewrite list_lookup_insert_eq in Hl by (eapply lookup_lt_Some; eassumption);
        try discriminate Hl; try (injection Hl as <-)
      | rewrite list_lookup_insert_ne in Hl by congruence ]
  end.

Ltac open_inv I :=
  destruct I; unfold pulled, checkedOut, copierOwned in *.

Ltac close_inv :=
  constructor; unfold pulled, checkedOut, copierOwned; simpl; try eassumption.

Lemma step_ReceiveJob_inv s s' w :
  Inv s -> stepReceiveJob w s = Next s' -> Inv s'.
Proof.
  intros I H. unfold stepReceiveJob in H.
  destruct (workers s !! w) as [[| | |]|] eqn:Ew; try discriminate.
  destruct (jobs s) as [|j rest] eqn:Ej; try discriminate.
  injection H as <-.
  open_inv I. rewrite Ej in *. simpl in *.
  destruct inv_jobs0 as [Hdrop Hlen].
  symmetry in Hdrop. apply drop_cons_inv in Hdrop as [Hj Hrest].
  replace (S (length plan - S (length rest))) with (length plan - length rest)%nat
    in Hrest by lia.
  assert (Eown : owned (<[w := WHasJob j]> (workers s)) = owned (workers s))
    by (apply (omap_insert_same bufferOf _ _ WIdle); [exact Ew | reflexivity]).
  close_inv; rewrite ?Eown; try eassumption.
  - split; [exact Hrest | lia].
  - lia.
  - pose proof (omap_insert_perm jobOf _ w WIdle (WHasJob j) Ew) as Hp.
    simpl in Hp. fold (held (workers s)) in Hp.
    fold (held (<[w := WHasJob j]> (workers s))) in Hp.
    rewrite Hp, inv_held0.
    replace (length plan - length rest - taken (length plan) (copier s))%nat
      with (S (length plan - S (length rest) - taken (length plan) (copier s))) by lia.
    rewrite (window_last _ _ j)
      by (rewrite <- Hj; f_equal; lia).
    apply Permutation_cons_append.
  - rewrite length_insert. exact inv_workers0.
  - intros w0 st j0 a Hl Hjo Hbo. worker_cases w Hl; [discriminate|]. eauto.
  - intros w0 st j0 a Hl Hjo Hbo. worker_cases w Hl; [discriminate|]. eauto.
  - intros c j0 Hc [Hlt | (w0 & a & Hl)]; [eauto|].
    worker_cases w Hl. eauto.
Qed.


Lemma ownedBy_insert_ne cp (ptrs : list (option addr)) (c : nat) (x : option addr) :
  (forall i cur, cp = CWrite i cur \/ cp = CRelease i cur -> i <> c) ->
  ownedBy cp (<[c := x]> ptrs) = ownedBy cp ptrs.
Proof.
  intros H. destruct cp as [i|i cur|i cur|i cur|]; simpl; try reflexivity.
  - rewrite list_lookup_insert_ne; [reflexivity|]. intros <-. eapply H; eauto.
  - rewrite list_lookup_insert_ne; [reflexivity|]. intros <-. eapply H; eauto.
Qed.

Lemma ownedBy_taken cp ptrs a :
  a ∈ ownedBy cp ptrs ->
  exists i cur, (cp = CWrite i cur \/ cp = CRelease i cur) /\
                ptrs !! i = Some (Some a) /\ taken (length plan) cp = S i.
Proof.
  destruct cp as [i|i cur|i cur|i cur|]; simpl; intros H; try (inversion H; fail).
  - destruct (ptrs !! i) as [[b|]|] eqn:E; try (inversion H; fail).
    apply list_elem_of_singleton in H as ->. exists i, cur. auto.
  - destruct (ptrs !! i) as [[b|]|] eqn:E; try (inversion H; fail).
    apply list_elem_of_singleton in H as ->. exists i, cur. auto.
Qed.

Lemma acquire_inv s w j a rest a' heap' :
  Inv s -> workers s !! w = Some (WHasJob j) -> downloadBuffers s = a :: rest ->
  (forall x b, heap s !! x = Some b -> heap' !! x = Some b) ->
  (exists b, heap' !! a' = Some b /\ length b = Z.to_nat (chunkLen j)) ->
  (chunkLen j = downloadChunkSize t /\ a' = a \/ a' = length (heap s)) ->
  Inv (mkState (jobs s) rest (buffersCap s) heap'
         (<[Z.to_nat (chunkIndex j) := Some a']> (bufferPointers s))
         (copyChannel s) (<[w := WDownloading j a']> (workers s)) (copier s)
         (waitGroup s) (finalErr s) (file s) (returned s)
         (events s ++ [EvWorker w (chunkIndex j)])).
Proof.
  intros I Ew Eb Hheap Hnew Hcase.
  destruct (held_lookup s w _ j I Ew eq_refl) as (c & Hc & Hidx & Hrange & HcN).
  assert (Ec : Z.to_nat (chunkIndex j) = c) by lia. rewrite Ec.
  assert (Hcop : forall i cur, copier s = CWrite i cur \/ copier s = CRelease i cur -> i <> c).
  { intros i cur [E|E]; rewrite E in Hrange; simpl in Hrange; lia. }
  pose proof I as I0.
  open_inv I. rewrite Eb in *.
  pose proof (omap_insert_perm bufferOf _ w _ (WDownloading j a') Ew) as Hown.
  simpl in Hown. fold (owned (workers s)) in Hown.
  fold (owned (<[w := WDownloading j a']> (workers s))) in Hown.
  assert (Eheld : held (<[w := WDownloading j a']> (workers s)) = held (workers s))
    by (apply (omap_insert_same jobOf _ _ (WHasJob j)); [exact Ew | reflexivity]).
  assert (Hlen' : forall x, (x < length (heap s))%nat -> (x < length heap')%nat).
  { intros x Hx. apply lookup_lt_is_Some_2 in Hx as [b Hb].
    eapply lookup_lt_Some, Hheap, Hb. }
  assert (Ha' : (a' < length heap')%nat).
  { destruct Hnew as (b & Hb & _). eapply lookup_lt_Some, Hb. }
  assert (Hnd : NoDup (rest ++ (a' :: owned (workers s)) ++
                       ownedBy (copier s) (bufferPointers s))).
  { destruct Hcase as [[_ ->] | ->].
    - simpl in inv_bufs0. simpl.
      eapply NoDup_Permutation_proper; [|exact inv_bufs0].
      symmetry. apply Permutation_middle.
    - simpl in inv_bufs0. apply NoDup_cons in inv_bufs0 as [_ Hnd].
      simpl. eapply NoDup_Permutation_proper; [symmetry; apply Permutation_middle|].
      apply NoDup_cons. split; [|exact Hnd].
      intros Hin. assert (Hlt : (length (heap s) < length (heap s))%nat); [|lia].
      apply inv_valid0. simpl. right. exact Hin. }
  close_inv; rewrite ?Eheld, ?(ownedBy_insert_ne _ _ _ _ Hcop); try eassumption.
  - rewrite length_insert. exact inv_workers0.
  - rewrite Hown. exact Hnd.
  - rewrite Hown. simpl in *. lia.
  - intros x Hx. rewrite Hown in Hx.
    apply elem_of_app in Hx as [Hx | Hx].
    + apply Hlen', inv_valid0. simpl. right. apply elem_of_app. left. exact Hx.
    + simpl in Hx. apply elem_of_cons in Hx as [-> | Hx]; [exact Ha'|].
      apply Hlen', inv_valid0. simpl. right. apply elem_of_app. right. exact Hx.
  - rewrite length_insert. exact inv_ptrlen0.
  - intros w0 st j0 a0 Hl Hjo Hbo. worker_cases w Hl.
    + simpl in Hjo, Hbo. injection Hjo as <-. injection Hbo as <-.
      rewrite Ec. apply list_lookup_insert_eq. lia.
    + destruct (held_lookup s w0 st j0 I0 Hl Hjo) as (c0 & Hc0 & Hidx0 & _).
      rewrite list_lookup_insert_ne; [eauto|].
      intros E. assert (c0 = c) by lia. subst c0.
      assert (j0 = j) by congruence. subst j0.
      apply n. eapply (held_distinct s); eauto.
  - intros i cur Hcp. rewrite list_lookup_insert_ne by (intros E; eapply Hcop; eauto).
    eauto.
  - intros w0 st j0 a0 Hl Hjo Hbo. worker_cases w Hl.
    + simpl in Hjo, Hbo. injection Hjo as <-. injection Hbo as <-.
      destruct Hnew as (b & Hb & Hbl). exists b. split_and!; [exact Hb | exact Hbl | discriminate].
    + destruct (inv_wbuf0 _ _ _ _ Hl Hjo Hbo) as (b & Hb & Hbl & Hfull).
      exists b. split_and!; eauto.
  - intros i cur a0 Hcp Hp.
    rewrite list_lookup_insert_ne in Hp by (intros E; eapply Hcop; eauto).
    destruct (inv_cbuf0 _ _ _ Hcp Hp) as (j0 & b & ? & ? & ? & ?).
    exists j0, b. split_and!; eauto.
  - right. intros x Hx.
    destruct inv_pool0 as [Hfull | Hpool]; [lia|].
    destruct (Hpool x) as (b & Hb & Hbl); [right; exact Hx|].
    exists b. split; eauto.
  - rewrite copiedIdx_app, inv_copied0. simpl. apply app_nil_r.
  - intros c0 buf err Hin. apply elem_of_app in Hin as [Hin | Hin]; [eauto|].
    apply list_elem_of_singleton in Hin. discriminate.
  - rewrite fileOf_app. simpl. rewrite app_nil_r. exact inv_file0.
  - rewrite failures_app. simpl. rewrite app_nil_r. exact inv_err0.
  - intros c0 j0 Hc0 Hor.
    assert (exists w0, EvDownloaded w0 (chunkIndex j0) (rangedGet W j0).2 ∈ events s)
      as [w0 Hw0].
    { apply (inv_attempted0 c0 j0 Hc0). destruct Hor as [Hlt | (w0 & a0 & Hl)]; [auto|].
      worker_cases w Hl. right. eauto. }
    exists w0. apply elem_of_app. left. exact Hw0.
Qed.

Lemma step_AcquireBuffer_inv s s' w :
  Inv s -> stepAcquireBuffer t w s = Next s' -> Inv s'.
Proof.
  intros I H. unfold stepAcquireBuffer in H.
  destruct (workers s !! w) as [[|j|j a0|j a0]|] eqn:Ew; try discriminate.
  destruct (downloadBuffers s) as [|a rest] eqn:Eb; try discriminate.
  destruct (held_lookup s w _ j I Ew eq_refl) as (c & Hc & Hidx & Hrange & HcN).
  destruct (plan_size c j Hc) as [Hsize Hpos].
  rewrite Hsize in H. cbv zeta in H.
  destruct (Z.eqb_spec (chunkLen j) (downloadChunkSize t)) as [Efull | Eshort].
  - destruct (indexOf _ _) in H; [|discriminate]. injection H as <-.
    refine (acquire_inv s w j a rest a (heap s) I Ew Eb _ _ _).
    + auto.
    + destruct (inv_pool _ _ _ _ _ I) as [Hall | Hpool]; [lia|].
      destruct (Hpool a) as (b & Hb & Hbl); [rewrite Eb; left|].
      exists b. split; [exact Hb | rewrite Efull; exact Hbl].
    + left. auto.
  - destruct (Z.ltb_spec (chunkLen j) 0); [discriminate|].
    destruct (indexOf _ _) in H; [|discriminate]. injection H as <-.
    refine (acquire_inv s w j a rest (length (heap s))
              (heap s ++ [zeros (chunkLen j)]) I Ew Eb _ _ _).
    + intros x b Hx. apply lookup_app_l_Some, Hx.
    + exists (zeros (chunkLen j)). split.
      * rewrite lookup_app_r by lia. rewrite Nat.sub_diag. reflexivity.
      * unfold zeros. apply length_replicate.
    + right. reflexivity.
Qed.

Lemma owned_apart s w st a :
  Inv s -> workers s !! w = Some st -> bufferOf st = Some a ->
  (a ∉ downloadBuffers s) /\ (a ∉ copierOwned s).
Proof.
  intros I Hw Hb.
  pose proof (omap_lookup_elem bufferOf _ _ _ _ Hw Hb) as Hin.
  fold (owned (workers s)) in Hin.
  pose proof (inv_bufs _ _ _ _ _ I) as H.
  apply NoDup_app in H as (_ & Hpool & H). apply NoDup_app in H as (_ & Hcop & _).
  split.
  - intros Hp. apply (Hpool a Hp). apply elem_of_app. left. exact Hin.
  - apply Hcop, Hin.
Qed.

Lemma copier_not_returned s w st j r :
  Inv s -> workers s !! w = Some st -> jobOf st = Some j -> returned s = Some r -> False.
Proof.
  intros I Hw Hj Hr.
  destruct (held_lookup s w st j I Hw Hj) as (c & _ & _ & Hrange & HcN).
  destruct (inv_ret _ _ _ _ _ I r Hr) as [_ Hcop].
  rewrite Hcop in Hrange. simpl in Hrange. lia.
Qed.

Lemma step_Download_inv s s' w :
  Inv s -> stepDownload W w s = Next s' -> Inv s'.
Proof.
  intros I H. unfold stepDownload in H.
  destruct (workers s !! w) as [[|j|j a|j a]|] eqn:Ew; try discriminate.
  destruct (heap s !! a) as [old|] eqn:Eold; try discriminate.
  destruct (rangedGet W j) as [data err] eqn:Eget.
  destruct (held_lookup s w _ j I Ew eq_refl) as (c & Hc & Hidx & Hrange & HcN).
  destruct (owned_apart s w _ a I Ew eq_refl) as [Hnpool Hncop].
  pose proof (fun r => copier_not_returned s w _ j r I Ew eq_refl) as Hnoret.
  pose proof (owned_distinct s w) as Hdist.
  assert (Eown : owned (<[w := WSignal j a]> (workers s)) = owned (workers s))
    by (apply (omap_insert_same bufferOf _ _ (WDownloading j a)); [exact Ew | reflexivity]).
  assert (Eheld : held (<[w := WSignal j a]> (workers s)) = held (workers s))
    by (apply (omap_insert_same jobOf _ _ (WDownloading j a)); [exact Ew | reflexivity]).
  assert (Hs' : s' = mkState (jobs s) (downloadBuffers s) (buffersCap s)
                  (<[a := writeAt old data]> (heap s)) (bufferPointers s)
                  (copyChannel s) (<[w := WSignal j a]> (workers s)) (copier s)
                  (waitGroup s) (match err with Some e => Some e | None => finalErr s end)
                  (file s) (returned s)
                  (events s ++ [EvDownloaded w (chunkIndex j) err])).
  { destruct err; injection H as <-; reflexivity. }
  clear H. subst s'.
  pose proof I as I0. open_inv I.
  destruct (inv_wbuf0 w _ j a Ew eq_refl eq_refl) as (b & Hb & Hbl & _).
  assert (b = old) by congruence. subst b.
  close_inv; rewrite ?Eheld, ?Eown; try eassumption.
  - rewrite length_insert. exact inv_workers0.
  - intros x Hx. rewrite length_insert. auto.
  - intros w0 st j0 a0 Hl Hjo Hbo. worker_cases w Hl; [|eauto].
    simpl in Hjo, Hbo. injection Hjo as <-. injection Hbo as <-.
    apply (inv_ptr0 w _ j a Ew eq_refl eq_refl).
  - intros w0 st j0 a0 Hl Hjo Hbo. worker_cases w Hl.
    + simpl in Hjo, Hbo. injection Hjo as <-. injection Hbo as <-.
      exists (writeAt old data). split_and!.
      * apply list_lookup_insert_eq. eapply lookup_lt_Some, Eold.
      * rewrite length_writeAt. exact Hbl.
      * intros _ Hfull. unfold fullDelivery in Hfull. rewrite Eget in *. simpl in *.
        apply writeAt_full. lia.
    + destruct (inv_wbuf0 _ _ _ _ Hl Hjo Hbo) as (b & Hb' & Hbl' & Hfull).
      exists b. split_and!; eauto.
      rewrite list_lookup_insert_ne; [exact Hb'|].
      intros <-. apply n. symmetry. eapply Hdist; eauto.
  - intros i cur a0 Hcp Hp.
    destruct (inv_cbuf0 _ _ _ Hcp Hp) as (j0 & b & ? & ? & ? & ?).
    exists j0, b. split_and!; eauto.
    rewrite list_lookup_insert_ne; [assumption|].
    intros <-. apply Hncop. destruct Hcp as [E|E]; rewrite E; simpl; rewrite Hp; left.
  - destruct inv_pool0 as [Hall | Hpool]; [left; exact Hall | right].
    intros x Hx. destruct (Hpool x Hx) as (b & Hb' & Hbl').
    exists b. split; [|exact Hbl'].
    rewrite list_lookup_insert_ne; [exact Hb'|]. intros <-. contradiction.
  - rewrite copiedIdx_app, inv_copied0. simpl. apply app_nil_r.
  - intros c0 buf err0 Hin. apply elem_of_app in Hin as [Hin | Hin]; [eauto|].
    apply list_elem_of_singleton in Hin. discriminate.
  - rewrite fileOf_app. simpl. rewrite app_nil_r. exact inv_file0.
  - rewrite failures_app. destruct err as [e|]; simpl.
    + rewrite last_snoc. reflexivity.
    + rewrite app_nil_r. exact inv_err0.
  - intros c0 j0 Hc0 Hor.
    destruct Hor as [Hlt | (w0 & a0 & Hl)].
    + destruct (inv_attempted0 c0 j0 Hc0 (or_introl Hlt)) as [w0 Hw0].
      exists w0. apply elem_of_app. left. exact Hw0.
    + worker_cases w Hl.
      * exists w. apply elem_of_app. right. rewrite Eget. simpl. left.
      * destruct (inv_attempted0 c0 j0 Hc0) as [w1 Hw1]; [right; eauto|].
        exists w1. apply elem_of_app. left. exact Hw1.
  - intros r Hr. exfalso. eapply Hnoret, Hr.
Qed.

Lemma step_Signal_inv s s' w :
  Inv s -> stepSignal w s = Next s' -> Inv s'.
Proof.
  intros I H. unfold stepSignal in H.
  destruct (workers s !! w) as [[|j|j a|j a]|] eqn:Ew; try discriminate.
  destruct (indexOf (copyChannel s) (chunkIndex j)) as [[|]|]; try discriminate.
  destruct (copier s) as [i| | | |] eqn:Ecop; try discriminate.
  destruct (Nat.eqb_spec (Z.to_nat (chunkIndex j)) i) as [Ei|]; try discriminate.
  injection H as <-.
  destruct (held_lookup s w _ j I Ew eq_refl) as (c & Hc & Hidx & Hrange & HcN).
  assert (c = i) by lia. subst c.
  rewrite Ecop in Hrange. simpl in Hrange.
  pose proof (inv_ptr _ _ _ _ _ I w _ j a Ew eq_refl eq_refl) as Hptr.
  rewrite Ei in Hptr.
  pose proof (omap_insert_perm bufferOf _ w _ WIdle Ew) as Hown.
  pose proof (omap_insert_perm jobOf _ w _ WIdle Ew) as Hheld.
  simpl in Hown, Hheld.
  fold (owned (workers s)) in Hown. fold (owned (<[w := WIdle]> (workers s))) in Hown.
  fold (held (workers s)) in Hheld. fold (held (<[w := WIdle]> (workers s))) in Hheld.
  pose proof I as I0. open_inv I. rewrite Ecop in *. simpl in *.
  close_inv; rewrite ?Hptr; try eassumption.
  - lia.
  - apply (Permutation_cons_inv (a := j)). rewrite Hheld, inv_held0.
    replace (length plan - length (jobs s) - i)%nat
      with (S (length plan - length (jobs s) - S i)) by lia.
    rewrite (window_first _ _ j Hc). reflexivity.
  - split; lia.
  - rewrite length_insert. exact inv_workers0.
  - rewrite app_nil_r in inv_bufs0. rewrite <- Hown in inv_bufs0.
    rewrite <- Permutation_cons_append. exact inv_bufs0.
  - rewrite <- Hown in inv_count0. simpl in *. lia.
  - intros x Hx. apply inv_valid0. rewrite app_nil_r. rewrite <- Hown.
    revert Hx. rewrite !elem_of_app, !elem_of_cons, ?elem_of_nil. tauto.
  - intros w0 st j0 a0 Hl Hjo Hbo. worker_cases w Hl; [discriminate | eauto].
  - intros i0 cur Hcp. assert (i0 = i) by (destruct Hcp; congruence). subst i0. eauto.
  - intros w0 st j0 a0 Hl Hjo Hbo. worker_cases w Hl; [discriminate | eauto].
  - intros i0 cur a0 Hcp Hp.
    assert (i0 = i) by (destruct Hcp; congruence). subst i0.
    assert (a0 = a) by congruence. subst a0.
    destruct (inv_wbuf0 w _ j a Ew eq_refl eq_refl) as (b & Hb & Hbl & Hfull).
    exists j, b. split_and!; eauto.
  - destruct inv_pool0 as [Hall | Hpool]; [lia | right; exact Hpool].
  - intros c0 j0 Hc0 Hor. destruct Hor as [Hlt | (w0 & a0 & Hl)].
    + destruct (decide (c0 = i)) as [-> | Hne].
      * assert (j0 = j) by congruence. subst j0.
        apply (inv_attempted0 i j Hc0). right. eauto.
      * apply (inv_attempted0 c0 j0 Hc0). left. lia.
    + worker_cases w Hl. apply (inv_attempted0 c0 j0 Hc0). right. eauto.
  - intros r Hr. destruct (inv_ret0 r Hr) as [_ ?]. discriminate.
Qed.

Lemma step_ReceiveClosed_blocked s :
  Inv s -> stepReceiveClosed s = Blocked.
Proof.
  intros I. unfold stepReceiveClosed.
  destruct (copier s) as [i| | | |] eqn:Ecop; try reflexivity.
  pose proof (inv_chan _ _ _ _ _ I) as Hch.
  pose proof (inv_copier _ _ _ _ _ I) as Hwf.
  rewrite Ecop in Hch, Hwf. simpl in Hch, Hwf.
  rewrite Hch, closed_prefix_lookup by exact Hwf.
  rewrite Nat.ltb_irrefl. reflexivity.
Qed.

Lemma indexOf_nat {A : Type} (l : list A) (i : nat) : indexOf l (Z.of_nat i) = l !! i.
Proof.
  unfold indexOf. replace (Z.of_nat i <? 0) with false by (symmetry; apply Z.ltb_ge; lia).
  rewrite Nat2Z.id. reflexivity.
Qed.

Lemma step_WriteFile_inv s s' :
  Inv s -> stepWriteFile W s = Next s' -> Inv s'.
Proof.
  intros I H. unfold stepWriteFile in H.
  destruct (copier s) as [|i cur| | |] eqn:Ecop; try discriminate.
  pose proof (inv_copier _ _ _ _ _ I) as Hwf. rewrite Ecop in Hwf.
  destruct Hwf as [HiN ->]. rewrite indexOf_nat in H.
  destruct (bufferPointers s !! i) as [[a|]|] eqn:Eptr; try discriminate.
  destruct (heap s !! a) as [buf|] eqn:Ebuf; try discriminate.
  destruct (fileWrite W (Z.of_nat i) buf) as [n err] eqn:Efw.
  assert (Hs' : s' = mkState (jobs s) (downloadBuffers s) (buffersCap s) (heap s)
                  (bufferPointers s) (copyChannel s) (workers s)
                  (CRelease i (Z.of_nat i)) (waitGroup s)
                  (match err with Some e => Some e | None => finalErr s end)
                  (file s ++ take n buf) (returned s)
                  (events s ++ [EvCopied (Z.of_nat i) buf err])).
  { destruct err; injection H as <-; reflexivity. }
  clear H. subst s'.
  open_inv I. rewrite Ecop in *. simpl in *. rewrite Eptr in *.
  destruct (inv_cbuf0 i (Z.of_nat i) a (or_introl eq_refl) Eptr)
    as (j & b & Hj & Hb & Hbl & Hfull).
  assert (b = buf) by congruence. subst b.
  close_inv; rewrite ?Eptr; try eassumption.
  - intros i0 cur Hcp. assert (i0 = i) by (destruct Hcp; congruence). subst i0. eauto.
  - intros i0 cur a0 Hcp Hp. assert (i0 = i) by (destruct Hcp; congruence). subst i0.
    assert (a0 = a) by congruence. subst a0. exists j, buf. auto.
  - change (Z.of_nat 0 :: list_fmap nat Z Z.of_nat (seq 1 i))
      with (Z.of_nat <$> seq 0 (S i)).
    rewrite copiedIdx_app, inv_copied0, seq_S, fmap_app. reflexivity.
  - intros c buf0 err0 Hin. apply elem_of_app in Hin as [Hin | Hin]; [eauto|].
    apply list_elem_of_singleton in Hin. injection Hin as -> -> ->.
    exists j. rewrite Nat2Z.id. split_and!; [lia | exact Hj | exact Hfull].
  - rewrite fileOf_app, inv_file0. simpl. rewrite Efw. simpl. rewrite app_nil_r. reflexivity.
  - rewrite failures_app. destruct err as [e|]; simpl.
    + rewrite last_snoc. reflexivity.
    + rewrite app_nil_r. exact inv_err0.
  - intros c0 j0 Hc0 Hor. destruct (inv_attempted0 c0 j0 Hc0 Hor) as [w0 Hw0].
    exists w0. apply elem_of_app. left. exact Hw0.
  - intros r Hr. destruct (inv_ret0 r Hr) as [_ ?]. discriminate.
Qed.

Lemma step_ReleaseBuffer_inv s s' :
  Inv s -> stepReleaseBuffer s = Next s' -> Inv s'.
Proof.
  intros I H. unfold stepReleaseBuffer in H.
  destruct (copier s) as [| |i cur| |] eqn:Ecop; try discriminate.
  pose proof (inv_copier _ _ _ _ _ I) as Hwf. rewrite Ecop in Hwf.
  destruct Hwf as [HiN ->]. rewrite indexOf_nat in H.
  destruct (bufferPointers s !! i) as [[a|]|] eqn:Eptr; try discriminate.
  destruct (Nat.ltb_spec (length (downloadBuffers s)) (buffersCap s)); try discriminate.
  injection H as <-. rewrite Nat2Z.id.
  pose proof I as I0. open_inv I. rewrite Ecop in *. simpl in *. rewrite Eptr in *.
  destruct (inv_cbuf0 i (Z.of_nat i) a (or_intror eq_refl) Eptr)
    as (j & b & Hj & Hb & Hbl & Hfull).
  close_inv; try eassumption.
  - rewrite app_nil_r, <- app_assoc.
    eapply NoDup_Permutation_proper; [|exact inv_bufs0].
    apply Permutation_app_head, Permutation_app_comm.
  - rewrite length_app. simpl in *. lia.
  - intros x Hx. apply inv_valid0. revert Hx.
    rewrite !elem_of_app, !elem_of_cons, ?elem_of_nil. tauto.
  - rewrite length_insert. exact inv_ptrlen0.
  - intros w0 st j0 a0 Hl Hjo Hbo.
    destruct (held_lookup s w0 st j0 I0 Hl Hjo) as (c & Hc & Hidx & Hrange & _).
    rewrite Ecop in Hrange. simpl in Hrange.
    rewrite list_lookup_insert_ne by lia. eauto.
  - intros i0 cur [?|?]; discriminate.
  - intros i0 cur a0 [?|?]; discriminate.
  - destruct (decide (S i = length plan)) as [E | Hne]; [left; exact E | right].
    intros x Hx. apply elem_of_app in Hx as [Hx | Hx].
    + destruct inv_pool0 as [? | Hpool]; [contradiction | auto].
    + apply list_elem_of_singleton in Hx as ->. exists b. split; [exact Hb|].
      rewrite Hbl. f_equal. apply (plan_full i j Hj). lia.
  - intros r Hr. destruct (inv_ret0 r Hr) as [_ ?]. discriminate.
Qed.

Lemma copyChannel_length s : Inv s -> length (copyChannel s) = length plan.
Proof.
  intros I. rewrite (inv_chan _ _ _ _ _ I), length_app, !length_replicate.
  pose proof (inv_copier _ _ _ _ _ I) as Hwf.
  destruct (copier s); simpl in *; lia.
Qed.

Lemma step_Done_inv s s' :
  Inv s -> stepDone s = Next s' -> Inv s'.
Proof.
  intros I H. unfold stepDone in H.
  destruct (copier s) as [| | |i cur|] eqn:Ecop; try discriminate.
  pose proof (inv_copier _ _ _ _ _ I) as Hwf. rewrite Ecop in Hwf.
  destruct Hwf as [HiN ->].
  destruct (Z.ltb_spec (waitGroup s - 1) 0); try discriminate.
  destruct (copyChannel s !! i) as [[|]|] eqn:Ech; try discriminate.
  rewrite (copyChannel_length s I) in H.
  assert (Hnext : wellCopier (length plan)
            (if (S i <? length plan)%nat then CWait (S i) else CExit) /\
          taken (length plan) (if (S i <? length plan)%nat then CWait (S i) else CExit) = S i /\
          written (length plan) (if (S i <? length plan)%nat then CWait (S i) else CExit) = S i /\
          finished (length plan) (if (S i <? length plan)%nat then CWait (S i) else CExit) = S i /\
          ownedBy (if (S i <? length plan)%nat then CWait (S i) else CExit)
                  (bufferPointers s) = [] /\
          forall i0 cur0,
            ~ ((if (S i <? length plan)%nat then CWait (S i) else CExit) = CWrite i0 cur0 \/
               (if (S i <? length plan)%nat then CWait (S i) else CExit) = CRelease i0 cur0)).
  { destruct (Nat.ltb_spec (S i) (length plan)); simpl;
      split_and!; try lia; try reflexivity; try exact I; intros ? ? [?|?]; discriminate. }
  destruct Hnext as (Hwf' & Htk & Hwr & Hfin & Hob & Hnc).
  injection H as <-.
  open_inv I. rewrite Ecop in *. simpl in *.
  close_inv; rewrite ?Htk, ?Hwr, ?Hfin, ?Hob; try eassumption.
  - lia.
  - rewrite inv_chan0. apply closed_prefix_insert. exact HiN.
  - intros i0 cur0 Hcp. exfalso. eapply Hnc, Hcp.
  - intros i0 cur0 a0 Hcp. exfalso. eapply Hnc, Hcp.
  - intros r Hr. destruct (inv_ret0 r Hr) as [_ ?]. discriminate.
Qed.

Lemma step_Return_inv s s' :
  Inv s -> stepReturn t s = Next s' -> Inv s'.
Proof.
  intros I H. unfold stepReturn in H.
  destruct (returned s) eqn:Er; try discriminate.
  destruct (Z.eqb_spec (waitGroup s) 0) as [Hwg|]; try discriminate.
  injection H as <-.
  assert (Hexit : copier s = CExit).
  { pose proof (inv_copier _ _ _ _ _ I) as Hwf.
    pose proof (inv_wg _ _ _ _ _ I) as Hw. rewrite Hwg in Hw.
    destruct (copier s); simpl in *; try reflexivity; lia. }
  open_inv I. close_inv; try eassumption.
  intros r Hr. injection Hr as <-. split; [reflexivity | exact Hexit].
Qed.

(** Every action keeps the invariant. *)
Lemma step_inv s s' a :
  Inv s -> step W t a s = Next s' -> Inv s'.
Proof.
  intros I H. destruct a; simpl in H.
  - eapply step_ReceiveJob_inv; eassumption.
  - eapply step_AcquireBuffer_inv; eassumption.
  - eapply step_Download_inv; eassumption.
  - eapply step_Signal_inv; eassumption.
  - rewrite (step_ReceiveClosed_blocked s I) in H. discriminate.
  - eapply step_WriteFile_inv; eassumption.
  - eapply step_ReleaseBuffer_inv; eassumption.
  - eapply step_Done_inv; eassumption.
  - eapply step_Return_inv; eassumption.
Qed.

Lemma run_inv schedule : forall s s',
  Inv s -> run W t schedule s = Next s' -> Inv s'.
Proof.
  induction schedule as [|a rest IH]; intros s s' I H; simpl in H.
  - injection H as <-. exact I.
  - destruct (step W t a s) as [s1| |] eqn:E; try discriminate.
    eapply IH; [|exact H]. eapply step_inv; eassumption.
Qed.

(** ** No panic, no deadlock, bounded length *)

Lemma finished_le_taken n c : (finished n c <= taken n c)%nat.
Proof. destruct c; simpl; lia. Qed.

Lemma channel_open s w st j :
  Inv s -> workers s !! w = Some st -> jobOf st = Some j ->
  indexOf (copyChannel s) (chunkIndex j) = Some false.
Proof.
  intros I Hw Hj.
  destruct (held_lookup s w st j I Hw Hj) as (c & Hc & Hidx & Hrange & HcN).
  rewrite Hidx, indexOf_nat, (inv_chan _ _ _ _ _ I), closed_prefix_lookup by exact HcN.
  pose proof (finished_le_taken (length plan) (copier s)).
  f_equal. apply Nat.ltb_ge. lia.
Qed.

Lemma AcquireBuffer_enabled s w j a rest :
  Inv s -> workers s !! w = Some (WHasJob j) -> downloadBuffers s = a :: rest ->
  exists s', stepAcquireBuffer t w s = Next s'.
Proof.
  intros I Hw Hb. unfold stepAcquireBuffer. rewrite Hw, Hb.
  destruct (held_lookup s w _ j I Hw eq_refl) as (c & Hc & Hidx & Hrange & HcN).
  destruct (plan_size c j Hc) as [Hsize Hpos]. rewrite Hsize. cbv zeta.
  assert (Hptr : exists p, indexOf (bufferPointers s) (chunkIndex j) = Some p).
  { rewrite Hidx, indexOf_nat. apply lookup_lt_is_Some_2.
    rewrite (inv_ptrlen _ _ _ _ _ I). exact HcN. }
  destruct Hptr as [p Hp]. simpl. rewrite Hp.
  destruct (chunkLen j =? downloadChunkSize t); [eauto|].
  replace (chunkLen j <? 0) with false by (symmetry; apply Z.ltb_ge; lia). eauto.
Qed.

Lemma Download_enabled s w j a :
  Inv s -> workers s !! w = Some (WDownloading j a) ->
  exists s', stepDownload W w s = Next s'.
Proof.
  intros I Hw. unfold stepDownload. rewrite Hw.
  destruct (inv_wbuf _ _ _ _ _ I w _ j a Hw eq_refl eq_refl) as (b & Hb & _).
  rewrite Hb. destruct (rangedGet W j). eauto.
Qed.

Lemma Signal_enabled s w j a i :
  Inv s -> workers s !! w = Some (WSignal j a) -> copier s = CWait i ->
  plan !! i = Some j ->
  exists s', stepSignal w s = Next s'.
Proof.
  intros I Hw Hc Hj. unfold stepSignal. rewrite Hw.
  rewrite (channel_open s w _ j I Hw eq_refl), Hc.
  rewrite (plan_index i j Hj), Nat2Z.id, Nat.eqb_refl. eauto.
Qed.

Lemma copier_buffer s i cur :
  Inv s -> copier s = CWrite i cur \/ copier s = CRelease i cur ->
  exists a b, cur = Z.of_nat i /\ indexOf (bufferPointers s) cur = Some (Some a) /\
              heap s !! a = Some b /\ copierOwned s = [a].
Proof.
  intros I Hc.
  pose proof (inv_copier _ _ _ _ _ I) as Hwf.
  destruct (inv_cptr _ _ _ _ _ I i cur Hc) as [a Ha].
  destruct (inv_cbuf _ _ _ _ _ I i cur a Hc Ha) as (j & b & _ & Hb & _).
  exists a, b.
  assert (cur = Z.of_nat i) as -> by (destruct Hc as [E|E]; rewrite E in Hwf; apply Hwf).
  rewrite indexOf_nat. split_and!; try assumption; try reflexivity.
  unfold copierOwned. destruct Hc as [E|E]; rewrite E; simpl; rewrite Ha; reflexivity.
Qed.

Lemma WriteFile_enabled s i cur :
  Inv s -> copier s = CWrite i cur -> exists s', stepWriteFile W s = Next s'.
Proof.
  intros I Hc. unfold stepWriteFile. rewrite Hc.
  destruct (copier_buffer s i cur I (or_introl Hc)) as (a & b & _ & Ha & Hb & _).
  rewrite Ha, Hb. destruct (fileWrite W cur b). eauto.
Qed.

Lemma ReleaseBuffer_enabled s i cur :
  Inv s -> copier s = CRelease i cur -> exists s', stepReleaseBuffer s = Next s'.
Proof.
  intros I Hc. unfold stepReleaseBuffer. rewrite Hc.
  destruct (copier_buffer s i cur I (or_intror Hc)) as (a & b & _ & Ha & Hb & Hown).
  rewrite Ha.
  pose proof (inv_count _ _ _ _ _ I) as Hcount. unfold checkedOut in Hcount.
  rewrite Hown in Hcount. simpl in Hcount.
  rewrite (inv_cap _ _ _ _ _ I).
  replace (length (downloadBuffers s) <? nw)%nat with true
    by (symmetry; apply Nat.ltb_lt; lia).
  eauto.
Qed.

Lemma Done_enabled s i cur :
  Inv s -> copier s = CDone i cur -> exists s', stepDone s = Next s'.
Proof.
  intros I Hc. unfold stepDone. rewrite Hc.
  pose proof (inv_copier _ _ _ _ _ I) as Hwf.
  pose proof (inv_wg _ _ _ _ _ I) as Hwg.
  pose proof (inv_chan _ _ _ _ _ I) as Hch.
  rewrite Hc in Hwf, Hwg, Hch. simpl in Hwf, Hwg, Hch. destruct Hwf as [HiN _].
  replace (waitGroup s - 1 <? 0) with false by (symmetry; apply Z.ltb_ge; lia).
  rewrite Hch, closed_prefix_lookup by exact HiN.
  rewrite Nat.ltb_irrefl. eauto.
Qed.

Lemma Return_enabled s :
  Inv s -> copier s = CExit -> returned s = None ->
  exists s', stepReturn t s = Next s'.
Proof.
  intros I Hc Hr. unfold stepReturn. rewrite Hr.
  pose proof (inv_wg _ _ _ _ _ I) as Hwg. rewrite Hc in Hwg. simpl in Hwg.
  replace (waitGroup s =? 0) with true by (symmetry; apply Z.eqb_eq; lia).
  eauto.
Qed.

(** No reachable action panics. *)
Lemma step_no_panic s a : Inv s -> step W t a s <> Panicked.
Proof.
  intros I. destruct a as [w|w|w|w| | | | |]; simpl.
  - unfold stepReceiveJob.
    destruct (workers s !! w) as [[| | |]|]; try discriminate.
    destruct (jobs s); discriminate.
  - destruct (workers s !! w) as [[|j|j a|j a]|] eqn:Ew;
      try (unfold stepAcquireBuffer; rewrite Ew; discriminate).
    destruct (downloadBuffers s) as [|a rest] eqn:Eb;
      [unfold stepAcquireBuffer; rewrite Ew, Eb; discriminate|].
    destruct (AcquireBuffer_enabled s w j a rest I Ew Eb) as [s' ->]. discriminate.
  - destruct (workers s !! w) as [[|j|j a|j a]|] eqn:Ew;
      try (unfold stepDownload; rewrite Ew; discriminate).
    destruct (Download_enabled s w j a I Ew) as [s' ->]. discriminate.
  - unfold stepSignal.
    destruct (workers s !! w) as [[|j|j a|j a]|] eqn:Ew; try discriminate.
    rewrite (channel_open s w _ j I Ew eq_refl).
    destruct (copier s); try discriminate.
    destruct (_ =? _)%nat; discriminate.
  - rewrite (step_ReceiveClosed_blocked s I). discriminate.
  - destruct (copier s) as [|i cur| | |] eqn:Ec;
      try (unfold stepWriteFile; rewrite Ec; discriminate).
    destruct (WriteFile_enabled s i cur I Ec) as [s' ->]. discriminate.
  - destruct (copier s) as [| |i cur| |] eqn:Ec;
      try (unfold stepReleaseBuffer; rewrite Ec; discriminate).
    destruct (ReleaseBuffer_enabled s i cur I Ec) as [s' ->]. discriminate.
  - destruct (copier s) as [| | |i cur|] eqn:Ec;
      try (unfold stepDone; rewrite Ec; discriminate).
    destruct (Done_enabled s i cur I Ec) as [s' ->]. discriminate.
  - unfold stepReturn. destruct (returned s); [discriminate|].
    destruct (waitGroup s =? 0); discriminate.
Qed.

Lemma omap_length_le {A B : Type} (f : A -> option B) (l : list A) :
  (length (omap f l) <= length l)%nat.
Proof.
  induction l as [|x l IH]; simpl; [lia|].
  destruct (f x); simpl; [apply le_n_S | apply le_S]; exact IH.
Qed.

Lemma omap_length_lt {A B : Type} (f : A -> option B) (l : list A) (i : nat) (x : A) :
  l !! i = Some x -> f x = None -> (length (omap f l) < length l)%nat.
Proof.
  intros H E. destruct (insert_middle l i x H) as (l1 & l2 & -> & _ & _).
  rewrite omap_app, !length_app.
  change (omap f (x :: l2))
    with (match f x with Some y => y :: omap f l2 | None => omap f l2 end).
  rewrite E. cbn [length].
  pose proof (omap_length_le f l1). pose proof (omap_length_le f l2). lia.
Qed.

(** While the function has not returned some goroutine can move. *)
Lemma progress s :
  Inv s -> (1 <= nw)%nat -> returned s = None ->
  exists a s', step W t a s = Next s'.
Proof.
  intros I Hnw Hret.
  destruct (copier s) as [i|i cur|i cur|i cur|] eqn:Ec.
  - pose proof (inv_copier _ _ _ _ _ I) as Hwf. rewrite Ec in Hwf. simpl in Hwf.
    pose proof (inv_taken _ _ _ _ _ I) as Htk. rewrite Ec in Htk. simpl in Htk.
    pose proof (inv_held _ _ _ _ _ I) as Hheld. rewrite Ec in Hheld. simpl in Hheld.
    destruct (lookup_lt_is_Some_2 plan i Hwf) as [j Hj].
    destruct (decide (pulled plan s = i)) as [Hp | Hp].
    + (* chunk [i] is still in the queue and every worker is idle *)
      rewrite Hp, Nat.sub_diag in Hheld. simpl in Hheld.
      apply Permutation_nil_r in Hheld.
      destruct (lookup_lt_is_Some_2 (workers s) 0) as [st Hst];
        [rewrite (inv_workers _ _ _ _ _ I); lia|].
      pose proof (omap_all_none jobOf _ Hheld 0 st Hst) as Hidle.
      destruct st; try discriminate.
      destruct (inv_jobs _ _ _ _ _ I) as [Hjobs _]. rewrite Hp in Hjobs.
      rewrite (drop_S plan j i Hj) in Hjobs.
      exists (ReceiveJob 0). simpl. unfold stepReceiveJob. rewrite Hst, Hjobs. eauto.
    + (* chunk [i] is in the hands of a worker *)
      assert (Hin : j ∈ held (workers s)).
      { rewrite Hheld.
        replace (pulled plan s - i)%nat with (S (pulled plan s - S i)) by lia.
        rewrite (window_first _ _ j Hj). left. }
      apply omap_elem_lookup in Hin as (w & st & Hw & Hjob).
      destruct st as [|j'|j' a|j' a]; simpl in Hjob; try discriminate;
        injection Hjob as ->.
      * destruct (downloadBuffers s) as [|a rest] eqn:Eb.
        -- exfalso.
           pose proof (inv_count _ _ _ _ _ I) as Hcount.
           unfold checkedOut, copierOwned in Hcount. rewrite Eb, Ec in Hcount.
           simpl in Hcount.
           pose proof (omap_length_lt bufferOf _ w _ Hw eq_refl) as Hlt.
           fold (owned (workers s)) in Hlt.
           rewrite (inv_workers _ _ _ _ _ I) in Hlt. lia.
        -- destruct (AcquireBuffer_enabled s w j a rest I Hw Eb) as [s' Hs'].
           exists (AcquireBuffer w), s'. exact Hs'.
      * destruct (Download_enabled s w j a I Hw) as [s' Hs'].
        exists (Download w), s'. exact Hs'.
      * destruct (Signal_enabled s w j a i I Hw Ec Hj) as [s' Hs'].
        exists (Signal w), s'. exact Hs'.
  - destruct (WriteFile_enabled s i cur I Ec) as [s' Hs']. exists WriteFile, s'. exact Hs'.
  - destruct (ReleaseBuffer_enabled s i cur I Ec) as [s' Hs'].
    exists ReleaseBuffer, s'. exact Hs'.
  - destruct (Done_enabled s i cur I Ec) as [s' Hs']. exists Done, s'. exact Hs'.
  - destruct (Return_enabled s I Ec Hret) as [s' Hs']. exists Return, s'. exact Hs'.
Qed.

(** Every action uses up one unit of the measure. *)
Lemma step_measure s s' a :
  Inv s -> step W t a s = Next s' -> (measure s' + 1 = measure s)%nat.
Proof.
  intros I H. destruct a as [w|w|w|w| | | | |]; simpl in H.
  - unfold stepReceiveJob in H.
    destruct (workers s !! w) as [[| | |]|] eqn:Ew; try discriminate.
    destruct (jobs s) as [|j rest] eqn:Ej; try discriminate.
    injection H as <-. unfold measure. simpl. rewrite Ej. simpl.
    pose proof (sum_list_insert workerSteps _ w _ (WHasJob j) Ew). simpl in *. lia.
  - unfold stepAcquireBuffer in H.
    destruct (workers s !! w) as [[|j|j a0|j a0]|] eqn:Ew; try discriminate.
    destruct (downloadBuffers s) as [|a rest] eqn:Eb; try discriminate.
    cbv zeta in H.
    destruct (_ =? _) in H.
    + destruct (indexOf _ _) in H; [|discriminate]. injection H as <-.
      unfold measure. simpl.
      pose proof (sum_list_insert workerSteps _ w _ (WDownloading j a) Ew). simpl in *. lia.
    + destruct (_ <? _) in H; [discriminate|].
      destruct (indexOf _ _) in H; [|discriminate]. injection H as <-.
      unfold measure. simpl.
      pose proof (sum_list_insert workerSteps _ w _
                    (WDownloading j (length (heap s))) Ew). simpl in *. lia.
  - unfold stepDownload in H.
    destruct (workers s !! w) as [[|j|j a|j a]|] eqn:Ew; try discriminate.
    destruct (heap s !! a) as [old|]; try discriminate.
    destruct (rangedGet W j) as [data [e|]]; injection H as <-;
      unfold measure; simpl;
      pose proof (sum_list_insert workerSteps _ w _ (WSignal j a) Ew); simpl in *; lia.
  - unfold stepSignal in H.
    destruct (workers s !! w) as [[|j|j a|j a]|] eqn:Ew; try discriminate.
    destruct (indexOf _ _) as [[|]|]; try discriminate.
    destruct (copier s) as [i| | | |] eqn:Ec; try discriminate.
    destruct (_ =? _)%nat; try discriminate.
    injection H as <-. unfold measure. simpl. rewrite Ec. simpl.
    pose proof (sum_list_insert workerSteps _ w _ WIdle Ew). simpl in *. lia.
  - rewrite (step_ReceiveClosed_blocked s I) in H. discriminate.
  - unfold stepWriteFile in H.
    destruct (copier s) as [|i cur| | |] eqn:Ec; try discriminate.
    destruct (indexOf _ _) as [[a|]|]; try discriminate.
    destruct (heap s !! a) as [buf|]; try discriminate.
    destruct (fileWrite W cur buf) as [n [e|]]; injection H as <-;
      unfold measure; simpl; rewrite Ec; simpl; lia.
  - unfold stepReleaseBuffer in H.
    destruct (copier s) as [| |i cur| |] eqn:Ec; try discriminate.
    destruct (indexOf _ _) as [[a|]|]; try discriminate.
    destruct (_ <? _)%nat; try discriminate.
    injection H as <-. unfold measure. simpl. rewrite Ec. simpl. lia.
  - unfold stepDone in H.
    destruct (copier s) as [| | |i cur|] eqn:Ec; try discriminate.
    destruct (_ <? _); try discriminate.
    destruct (copyChannel s !! i) as [[|]|]; try discriminate.
    injection H as <-. unfold measure. simpl. rewrite Ec. simpl.
    destruct (_ <? _)%nat; simpl; lia.
  - unfold stepReturn in H.
    destruct (returned s) eqn:Er; try discriminate.
    destruct (_ =? _); try discriminate.
    injection H as <-. unfold measure. simpl. rewrite Er. lia.
Qed.

Lemma run_measure schedule : forall s s',
  Inv s -> run W t schedule s = Next s' ->
  (measure s' + length schedule = measure s)%nat.
Proof.
  induction schedule as [|a rest IH]; intros s s' I H; simpl in H.
  - injection H as <-. simpl. lia.
  - destruct (step W t a s) as [s1| |] eqn:E; try discriminate.
    pose proof (step_measure s s1 a I E).
    pose proof (IH s1 s' (step_inv s s1 a I E) H). simpl. lia.
Qed.

Lemma run_no_panic schedule : forall s,
  Inv s -> run W t schedule s <> Panicked.
Proof.
  induction schedule as [|a rest IH]; intros s I; simpl; [discriminate|].
  destruct (step W t a s) as [s1| |] eqn:E; try discriminate.
  - apply IH. eapply step_inv; eassumption.
  - exfalso. eapply step_no_panic; eassumption.
Qed.

Lemma run_app schedule1 : forall schedule2 s s1,
  run W t schedule1 s = Next s1 ->
  run W t (schedule1 ++ schedule2) s = run W t schedule2 s1.
Proof.
  induction schedule1 as [|a rest IH]; intros schedule2 s s1 H; simpl in *.
  - injection H as <-. reflexivity.
  - destruct (step W t a s) as [s'| |]; try discriminate. apply IH, H.
Qed.

(** Every state of a transfer can be run on until the function returns. *)
Lemma completion n : forall s,
  Inv s -> (1 <= nw)%nat -> measure s = n ->
  exists schedule s', run W t schedule s = Next s' /\ returned s' <> None.
Proof.
  induction n as [n IH] using lt_wf_ind. intros s I Hnw Hm.
  destruct (returned s) as [r|] eqn:Er.
  - exists [], s. simpl. split; [reflexivity | congruence].
  - destruct (progress s I Hnw Er) as (a & s1 & Hstep).
    pose proof (step_measure s s1 a I Hstep) as Hdec.
    destruct (IH (measure s1) ltac:(lia) s1 (step_inv s s1 a I Hstep) Hnw eq_refl)
      as (rest & s' & Hrun & Hret).
    exists (a :: rest), s'. simpl. rewrite Hstep. split; assumption.
Qed.

End Goroutines.

(** ** The state built by [spawn] *)

Lemma indexedFrom_lookup l : forall i c j,
  indexedFrom i l -> l !! c = Some j -> chunkIndex j = i + Z.of_nat c.
Proof.
  induction l as [|x l IH]; intros i c j Hi Hc.
  - rewrite lookup_nil in Hc. discriminate.
  - destruct Hi as [Hx Hl]. destruct c as [|c]; simpl in Hc.
    + injection Hc as <-. lia.
    + rewrite (IH (i + 1) c j Hl Hc). lia.
Qed.

(** The plan in closed form: chunk [c] covers
    [c * chunkSize .. min((c+1) * chunkSize, totalBytes) - 1]. *)
Lemma planJobs_closed_form tb cs :
  0 < cs -> cs < tb -> tb + cs - 1 <= int64_max ->
  exists plan n,
    numberOfChunks tb cs = Some n /\ planJobs tb cs = Some plan /\
    plan = createJobs (Z.to_nat n) n cs tb 0 0 (-1) false /\
    Z.of_nat (length plan) = n /\ (n - 1) * cs < tb <= n * cs /\
    forall c j, plan !! c = Some j ->
      chunkIndex j = Z.of_nat c /\
      startByte j = Z.of_nat c * cs /\
      endByte j = Z.min ((Z.of_nat c + 1) * cs) tb - 1.
Proof.
  intros Hcs Hlt Hmax.
  destruct (numberOfChunks_ceil tb cs Hcs ltac:(lia) Hmax) as (n & Hn & Hceil).
  assert (Hpos : 0 < n) by nia.
  pose proof (createJobs_plan (Z.to_nat n) n cs tb 0 0
                Hcs Hmax Hceil ltac:(lia) ltac:(lia) ltac:(f_equal; lia)) as H.
  cbv zeta in H. change (0 * cs - 1) with (-1) in H.
  destruct H as (Hlen & Hidx & _ & _ & _ & Hall).
  exists (createJobs (Z.to_nat n) n cs tb 0 0 (-1) false), n.
  split_and!; try assumption; try reflexivity; try lia.
  - unfold planJobs. rewrite Hn.
    replace (n <? 0) with false by (symmetry; apply Z.ltb_ge; lia). reflexivity.
  - intros c j Hc.
    pose proof (indexedFrom_lookup _ 0 c j Hidx Hc) as Hi.
    rewrite Forall_forall in Hall.
    destruct (Hall j) as [Hs He]; [eapply list_elem_of_lookup_2, Hc|].
    rewrite Hs, He, Hi. split_and!; f_equal; lia.
Qed.

Lemma plan_facts tb cs plan n :
  0 < cs -> tb + cs - 1 <= int64_max ->
  Z.of_nat (length plan) = n -> (n - 1) * cs < tb <= n * cs ->
  (forall c j, plan !! c = Some j ->
     chunkIndex j = Z.of_nat c /\ startByte j = Z.of_nat c * cs /\
     endByte j = Z.min ((Z.of_nat c + 1) * cs) tb - 1) ->
  (forall c j, plan !! c = Some j -> chunkIndex j = Z.of_nat c) /\
  (forall c j, plan !! c = Some j ->
     add64 (sub64 (endByte j) (startByte j)) 1 = chunkLen j /\ 0 < chunkLen j <= cs) /\
  (forall c j, plan !! c = Some j -> (S c < length plan)%nat -> chunkLen j = cs).
Proof.
  intros Hcs Hmax Hlen Hceil Hform. split_and!.
  - intros c j Hc. apply (Hform c j Hc).
  - intros c j Hc. destruct (Hform c j Hc) as (_ & Hs & He).
    pose proof (lookup_lt_Some _ _ _ Hc) as HcN.
    assert (Z.of_nat c * cs < tb) by nia.
    assert (0 <= Z.of_nat c * cs) by nia.
    unfold chunkLen. rewrite Hs, He.
    rewrite sub64_small by int64_lia. rewrite add64_small by int64_lia. lia.
  - intros c j Hc HcN. destruct (Hform c j Hc) as (_ & Hs & He).
    assert ((Z.of_nat c + 1) * cs < tb) by nia.
    unfold chunkLen. rewrite Hs, He. lia.
Qed.

Lemma spawn_inv W t :
  validTransfer t ->
  exists s0 plan nw,
    spawn t = Some s0 /\ planJobs (totalBytes t) (downloadChunkSize t) = Some plan /\
    jobs s0 = plan /\
    Z.of_nat nw = Z.min (downloadConcurrency t) (Z.of_nat (length plan)) /\
    (1 <= nw)%nat /\ (1 <= length plan)%nat /\
    (forall c j, plan !! c = Some j -> chunkIndex j = Z.of_nat c) /\
    (forall c j, plan !! c = Some j ->
       add64 (sub64 (endByte j) (startByte j)) 1 = chunkLen j /\
       0 < chunkLen j <= downloadChunkSize t) /\
    (forall c j, plan !! c = Some j -> (S c < length plan)%nat ->
       chunkLen j = downloadChunkSize t) /\
    inv W t plan nw s0 /\
    measure s0 = (7 * length plan + 1)%nat /\
    length (downloadBuffers s0) = nw /\ length (workers s0) = nw /\
    (forall a, a ∈ downloadBuffers s0 ->
       exists b, heap s0 !! a = Some b /\ length b = Z.to_nat (downloadChunkSize t)).
Proof.
  intros (Hcs & Hlt & Hmax & Hconc).
  destruct (planJobs_closed_form _ _ Hcs Hlt Hmax)
    as (plan & n & Hn & Hplan & Eplan & Hlen & Hceil & Hform).
  destruct (plan_facts _ _ plan n Hcs Hmax Hlen Hceil Hform) as (Hidx & Hsize & Hfull).
  assert (Hpos : 0 < n) by nia.
  set (nw := Z.to_nat (numberOfWorkers (downloadConcurrency t) n)).
  assert (Hnw : Z.of_nat nw = Z.min (downloadConcurrency t) n).
  { unfold nw, numberOfWorkers. destruct (Z.ltb_spec n (downloadConcurrency t)); lia. }
  assert (Es : spawn t = Some (mkState plan (seq 0 nw) nw
                  (replicate nw (zeros (downloadChunkSize t)))
                  (replicate (length plan) None) (replicate (length plan) false)
                  (replicate nw WIdle) (CWait 0) (Z.of_nat (length plan))
                  None [] None [])).
  { unfold spawn. rewrite Hn.
    replace (n <? 0) with false by (symmetry; apply Z.ltb_ge; lia).
    replace (numberOfWorkers (downloadConcurrency t) n <? 0) with false
      by (symmetry; apply Z.ltb_ge; lia).
    replace (downloadChunkSize t <? 0) with false by (symmetry; apply Z.ltb_ge; lia).
    rewrite andb_false_r.
    replace (n =? 0) with false by (symmetry; apply Z.eqb_neq; lia).
    rewrite <- Eplan. fold nw. replace (Z.to_nat n) with (length plan) by lia.
    reflexivity. }
  eexists _, plan, nw. split; [exact Es|].
  assert (Hheld : held (replicate nw WIdle) = []).
  { clear. induction nw; simpl; auto. }
  assert (Hown : owned (replicate nw WIdle) = []).
  { clear. induction nw; simpl; auto. }
  split_and!; try assumption; try reflexivity; try lia.
  - constructor; unfold pulled, checkedOut, copierOwned; simpl;
      rewrite ?Hheld, ?Hown, ?Nat.sub_diag, ?length_replicate, ?length_seq; simpl;
      try reflexivity; try lia; try (intros; discriminate).
    + split; [reflexivity | lia].
    + rewrite Nat.sub_0_r. reflexivity.
    + rewrite app_nil_r. apply NoDup_seq.
    + intros a Ha. rewrite app_nil_r in Ha. apply elem_of_seq in Ha. lia.
    + intros w st j a Hw. apply lookup_replicate in Hw as [-> _]. discriminate.
    + intros i cur [?|?]; discriminate.
    + intros w st j a Hw. apply lookup_replicate in Hw as [-> _]. discriminate.
    + intros i cur a [?|?]; discriminate.
    + right. intros a Ha. apply elem_of_seq in Ha.
      exists (zeros (downloadChunkSize t)). split.
      * apply lookup_replicate_2. lia.
      * unfold zeros. apply length_replicate.
    + intros c buf err Hin. inversion Hin.
    + intros c j Hc [Hlt0 | (w & a & Hw)]; [lia|].
      apply lookup_replicate in Hw as [? _]. discriminate.
  - unfold measure. simpl.
    assert (sum_list_with workerSteps (replicate nw WIdle) = 0%nat) as ->
      by (clear; induction nw; simpl; auto).
    lia.
  - simpl. apply length_seq.
  - simpl. apply length_replicate.
  - simpl. intros a Ha. apply elem_of_seq in Ha.
    exists (zeros (downloadChunkSize t)). split.
    + apply lookup_replicate_2. lia.
    + unfold zeros. apply length_replicate.
Qed.

(** ** Reachable states of a transfer *)

Lemma reachable W t schedule s0 s :
  validTransfer t -> spawn t = Some s0 -> run W t schedule s0 = Next s ->
  exists plan nw,
    planJobs (totalBytes t) (downloadChunkSize t) = Some plan /\
    jobs s0 = plan /\
    Z.of_nat nw = Z.min (downloadConcurrency t) (Z.of_nat (length plan)) /\
    (1 <= nw)%nat /\ (1 <= length plan)%nat /\
    (forall c j, plan !! c = Some j -> chunkIndex j = Z.of_nat c) /\
    (forall c j, plan !! c = Some j ->
       add64 (sub64 (endByte j) (startByte j)) 1 = chunkLen j /\
       0 < chunkLen j <= downloadChunkSize t) /\
    (forall c j, plan !! c = Some j -> (S c < length plan)%nat ->
       chunkLen j = downloadChunkSize t) /\
    inv W t plan nw s0 /\ inv W t plan nw s /\
    (measure s + length schedule = 7 * length plan + 1)%nat.
Proof.
  intros Hvalid Hspawn Hrun.
  destruct (spawn_inv W t Hvalid)
    as (s0' & plan & nw & Hs0 & Hplan & Hjobs & Hnw & Hnw1 & HN1 & Hidx & Hsize & Hfull
        & I0 & Hm & _).
  assert (s0' = s0) by congruence. subst s0'.
  exists plan, nw. split_and!; try assumption.
  - eapply (run_inv W t plan nw Hidx Hsize Hfull); eassumption.
  - rewrite <- Hm. eapply (run_measure W t plan nw Hidx Hsize Hfull); eassumption.
Qed.

(** ** Bytes written and bytes of the object *)

Lemma fileOf_complete W evs :
  (forall c buf, fst (fileWrite W c buf) = length buf) ->
  fileOf W evs = concat (copiedBufs evs).
Proof.
  intros Hw. induction evs as [|[| |c buf err] evs IH]; simpl; try assumption; try reflexivity.
  rewrite Hw, IH, take_ge by lia. reflexivity.
Qed.

Lemma copiedBufs_by_index (g : Z -> list byte) evs :
  (forall c buf err, EvCopied c buf err ∈ evs -> buf = g c) ->
  copiedBufs evs = g <$> copiedIdx evs.
Proof.
  induction evs as [|[| |c buf err] evs IH]; intros H; simpl.
  - reflexivity.
  - apply IH. intros c buf err Hin. eapply H. right. exact Hin.
  - apply IH. intros c buf err Hin. eapply H. right. exact Hin.
  - rewrite (H c buf err) by left. f_equal.
    apply IH. intros c' buf' err' Hin. eapply H. right. exact Hin.
Qed.

Lemma failures_downloaded evs w c e :
  EvDownloaded w c (Some e) ∈ evs -> e ∈ failures evs.
Proof.
  induction evs as [|ev evs IH]; intros H; [inversion H|].
  apply elem_of_cons in H as [<- | H].
  - simpl. left.
  - specialize (IH H). destruct ev as [| ? ? [?|] | ? ? [?|]]; simpl; try exact IH; right; exact IH.
Qed.

Section Ranges.

Variable obj : list byte.
Variable cs tb : Z.
Variable plan : list chunk.

Hypothesis Hcs : 0 < cs.
Hypothesis Hobj : Z.of_nat (length obj) = tb.
Hypothesis Hceil : (Z.of_nat (length plan) - 1) * cs < tb <= Z.of_nat (length plan) * cs.
Hypothesis Hform : forall c j, plan !! c = Some j ->
  chunkIndex j = Z.of_nat c /\ startByte j = Z.of_nat c * cs /\
  endByte j = Z.min ((Z.of_nat c + 1) * cs) tb - 1.

Lemma rangeOf_length c j :
  plan !! c = Some j -> length (rangeOf obj j) = Z.to_nat (chunkLen j).
Proof.
  intros Hc. destruct (Hform c j Hc) as (_ & Hs & He).
  pose proof (lookup_lt_Some _ _ _ Hc) as HcN.
  assert (Z.of_nat c * cs < tb) by nia.
  assert (0 <= Z.of_nat c * cs) by nia.
  unfold rangeOf, chunkLen. rewrite length_take, length_drop, Hs, He. lia.
Qed.

Lemma concat_ranges m :
  (m <= length plan)%nat ->
  concat (rangeOf obj <$> take m plan) =
  take (Z.to_nat (Z.min (Z.of_nat m * cs) tb)) obj.
Proof.
  induction m as [|m IH]; intros Hm.
  - replace (Z.to_nat (Z.min (Z.of_nat 0 * cs) tb)) with 0%nat by lia. reflexivity.
  - destruct (lookup_lt_is_Some_2 plan m ltac:(lia)) as [j Hj].
    rewrite (take_S_r plan m j Hj), fmap_app, concat_app, IH by lia.
    simpl. rewrite app_nil_r.
    destruct (Hform m j Hj) as (_ & Hs & He).
    assert (Z.of_nat m * cs < tb) by nia.
    assert (0 <= Z.of_nat m * cs) by nia.
    unfold rangeOf, chunkLen. rewrite Hs, He.
    replace (Z.to_nat (Z.min (Z.of_nat m * cs) tb)) with (Z.to_nat (Z.of_nat m * cs)) by lia.
    rewrite take_take_drop. f_equal. lia.
Qed.

Lemma concat_ranges_all :
  concat (rangeOf obj <$> plan) = obj.
Proof.
  pose proof (concat_ranges (length plan) ltac:(lia)) as H.
  rewrite firstn_all in H. rewrite H. apply take_ge. lia.
Qed.

Lemma ranges_by_index m :
  (m <= length plan)%nat ->
  (fun c => match plan !! Z.to_nat c with Some j => rangeOf obj j | None => [] end)
    <$> (Z.of_nat <$> seq 0 m) = rangeOf obj <$> take m plan.
Proof.
  intros Hm. apply list_eq. intros i.
  rewrite !list_lookup_fmap.
  destruct (decide (i < m)%nat) as [Hi | Hi].
  - rewrite lookup_seq_lt by lia. simpl. rewrite Nat2Z.id.
    rewrite lookup_take_lt by lia.
    destruct (lookup_lt_is_Some_2 plan i ltac:(lia)) as [j Hj]. rewrite Hj. reflexivity.
  - rewrite lookup_seq_ge by lia. rewrite lookup_take_ge by lia. reflexivity.
Qed.

End Ranges.

(** ** Properties of the parallel download *)

(** C2: whatever the schedule of the goroutines, hence whatever the order in
    which the workers complete, the copy goroutine hands the chunk buffers
    to [file.Write] in the order 0, 1, 2, ... of their indices, and all of
    them before the function returns.  When the writes are complete the file
    holds the concatenation of these buffers; when in addition every ranged
    request delivers the bytes of its range of the object, the file is a
    prefix of the object at every moment and the whole object on return. *)
Theorem copy_in_chunk_order (W : world) (t : transfer) (schedule : list action)
    (s0 s : state) :
  validTransfer t -> spawn t = Some s0 -> run W t schedule s0 = Next s ->
  exists plan m,
    planJobs (totalBytes t) (downloadChunkSize t) = Some plan /\
    (m <= length plan)%nat /\
    copiedIdx (events s) = Z.of_nat <$> seq 0 m /\
    (returned s <> None -> m = length plan) /\
    ((forall c buf, fst (fileWrite W c buf) = length buf) ->
       file s = concat (copiedBufs (events s))) /\
    forall obj, Z.of_nat (length obj) = totalBytes t ->
      (forall j, j ∈ plan -> fst (rangedGet W j) = rangeOf obj j) ->
      copiedBufs (events s) = rangeOf obj <$> take m plan /\
      ((forall c buf, fst (fileWrite W c buf) = length buf) ->
         file s = take (Z.to_nat (Z.min (Z.of_nat m * downloadChunkSize t)
                                        (totalBytes t))) obj /\
         (returned s <> None -> file s = obj)).
Proof.
  intros Hvalid Hspawn Hrun.
  destruct (reachable W t schedule s0 s Hvalid Hspawn Hrun)
    as (plan & nw & Hplan & _ & _ & _ & HN1 & Hidx & _ & _ & _ & I & _).
  destruct Hvalid as (Hcs & Hlt & Hmax & _).
  destruct (planJobs_closed_form _ _ Hcs Hlt Hmax)
    as (plan' & n & _ & Hplan' & _ & Hlen & Hceil & Hform).
  assert (plan' = plan) by congruence. subst plan'. subst n.
  set (m := written (length plan) (copier s)).
  assert (Hm : (m <= length plan)%nat).
  { pose proof (inv_copier _ _ _ _ _ I) as Hwf. unfold m.
    destruct (copier s); simpl in *; lia. }
  assert (Hret : returned s <> None -> m = length plan).
  { intros Hr. destruct (returned s) as [r|] eqn:Er; [|congruence].
    destruct (inv_ret _ _ _ _ _ I r Er) as [_ Hc]. unfold m. rewrite Hc. reflexivity. }
  assert (Hfile : (forall c buf, fst (fileWrite W c buf) = length buf) ->
                  file s = concat (copiedBufs (events s))).
  { intros Hw. rewrite (inv_file _ _ _ _ _ I). apply fileOf_complete, Hw. }
  exists plan, m. split_and!; try assumption.
  - apply (inv_copied _ _ _ _ _ I).
  - intros obj Hobj Hget.
    assert (Hbufs : copiedBufs (events s) = rangeOf obj <$> take m plan).
    { rewrite (copiedBufs_by_index
                 (fun c => match plan !! Z.to_nat c with
                           | Some j => rangeOf obj j
                           | None => []
                           end)).
      - rewrite (inv_copied _ _ _ _ _ I). apply ranges_by_index, Hm.
      - intros c buf err Hin.
        destruct (inv_copiedbuf _ _ _ _ _ I c buf err Hin) as (j & Hc0 & Hj & Hfull).
        rewrite Hj. rewrite <- (Hget j) by (eapply list_elem_of_lookup_2, Hj).
        apply Hfull. unfold fullDelivery.
        rewrite (Hget j) by (eapply list_elem_of_lookup_2, Hj).
        eapply (rangeOf_length obj _ _ plan Hcs Hobj Hceil Hform), Hj. }
    split; [exact Hbufs|].
    intros Hw.
    assert (Hf : file s = take (Z.to_nat (Z.min (Z.of_nat m * downloadChunkSize t)
                                                (totalBytes t))) obj).
    { rewrite (Hfile Hw), Hbufs.
      apply (concat_ranges obj _ _ plan Hcs Hobj Hceil Hform), Hm. }
    split; [exact Hf|].
    intros Hr. rewrite Hf, (Hret Hr). apply take_ge. nia.
Qed.

Lemma copy_in_chunk_order_witness :
  exists s, runTransfer (sampleWorld sampleObject noFailure) sampleTransfer
              sampleSchedule = Next s /\
            copiedIdx (events s) = [0; 1; 2] /\ file s = sampleObject.
Proof.
  destruct (spawn sampleTransfer) as [s0|] eqn:E0; [|vm_compute in E0; discriminate].
  destruct (run (sampleWorld sampleObject noFailure) sampleTransfer sampleSchedule s0)
    as [s| |] eqn:E1;
    [|unfold spawn in E0; vm_compute in E0; injection E0 as <-; vm_compute in E1; discriminate ..].
  assert (Hret : returned s <> None).
  { vm_compute in E0. injection E0 as <-. vm_compute in E1. injection E1 as <-.
    vm_compute. discriminate. }
  destruct (copy_in_chunk_order (sampleWorld sampleObject noFailure) sampleTransfer
              sampleSchedule s0 s
              ltac:(unfold validTransfer; vm_compute; repeat split; congruence) E0 E1)
    as (plan & m & Hplan & Hm & Hidx & Hall & _ & Hobj).
  vm_compute in Hplan. injection Hplan as <-.
  exists s. unfold runTransfer. rewrite E0. split; [exact E1|].
  rewrite (Hall Hret) in Hidx. split; [exact Hidx|].
  apply (Hobj sampleObject eq_refl); [intros j Hj | reflexivity | exact Hret].
  reflexivity.
Defined.

(** C8: the pool is created with [min(downloadConcurrency, numberOfChunks)]
    buffers of [downloadChunkSize] bytes and as many workers are started; in
    every reachable state the buffers in the channel and the buffers checked
    out (in the hands of a worker or of the copy goroutine) add up to that
    number, so that at most that many are checked out at once.  With a
    concurrency of 4 and two chunks there are two workers and two buffers. *)
Theorem buffer_pool_bounded (W : world) (t : transfer) :
  validTransfer t ->
  exists s0 plan nw,
    spawn t = Some s0 /\
    planJobs (totalBytes t) (downloadChunkSize t) = Some plan /\
    Z.of_nat nw = Z.min (downloadConcurrency t) (Z.of_nat (length plan)) /\
    length (downloadBuffers s0) = nw /\
    (forall a, a ∈ downloadBuffers s0 ->
       exists b, heap s0 !! a = Some b /\
                 length b = Z.to_nat (downloadChunkSize t)) /\
    length (workers s0) = nw /\
    (forall schedule s, run W t schedule s0 = Next s ->
       length (workers s) = nw /\
       (length (downloadBuffers s) + checkedOut s = nw)%nat /\
       (checkedOut s <= nw)%nat) /\
    (downloadConcurrency t = 4 -> length plan = 2%nat -> nw = 2%nat).
Proof.
  intros Hvalid.
  destruct (spawn_inv W t Hvalid)
    as (s0 & plan & nw & Hs0 & Hplan & Hjobs & Hnw & Hnw1 & HN1 & Hidx & Hsize & Hfull
        & I0 & Hm & Hpool & Hworkers & Hbufs).
  exists s0, plan, nw. split_and!; try assumption.
  - intros schedule s Hrun.
    pose proof (run_inv W t plan nw Hidx Hsize Hfull schedule s0 s I0 Hrun) as I.
    pose proof (inv_count _ _ _ _ _ I).
    split_and!; [apply (inv_workers _ _ _ _ _ I) | assumption | lia].
  - intros Hc HN. lia.
Qed.

Lemma buffer_pool_bounded_witness :
  exists s0 nw,
    spawn wideTransfer = Some s0 /\ nw = 2%nat /\
    length (downloadBuffers s0) = nw /\ length (workers s0) = nw.
Proof.
  destruct (buffer_pool_bounded (sampleWorld sampleObject noFailure) wideTransfer
              ltac:(unfold validTransfer; vm_compute; repeat split; congruence))
    as (s0 & plan & nw & Hs0 & Hplan & Hnw & Hpool & _ & Hworkers & _ & Hfour).
  vm_compute in Hplan. injection Hplan as <-.
  exists s0, nw. split_and!; try assumption.
  apply Hfour; reflexivity.
Defined.

(** C4 (amended): when the ranged request of a chunk fails the transfer
    still terminates: no reachable action panics, some goroutine can always
    move until the function has returned, every schedule has at most
    [7 * numberOfChunks + 1] actions and can be completed to one that
    returns.  The function returns [totalBytes] and the error recorded last
    (every failure overwrites [finalErr]); this error is not nil as soon as
    the request of one chunk of the plan fails. *)
Theorem failed_chunk_terminates (W : world) (t : transfer) (schedule : list action)
    (s0 s : state) :
  validTransfer t -> spawn t = Some s0 -> run W t schedule s0 = Next s ->
  exists plan,
    planJobs (totalBytes t) (downloadChunkSize t) = Some plan /\
    (forall a, step W t a s <> Panicked) /\
    (returned s = None -> exists a s', step W t a s = Next s') /\
    (measure s + length schedule = 7 * length plan + 1)%nat /\
    (exists rest err' s',
       downloadFileInParallel W t (schedule ++ rest) = Next (totalBytes t, err', s')) /\
    (forall n err, returned s = Some (n, err) ->
       n = totalBytes t /\ err = last (failures (events s)) /\
       (forall j e, j ∈ plan -> snd (rangedGet W j) = Some e ->
          e ∈ failures (events s) /\ err <> None)).
Proof.
  intros Hvalid Hspawn Hrun.
  destruct (reachable W t schedule s0 s Hvalid Hspawn Hrun)
    as (plan & nw & Hplan & _ & _ & Hnw1 & HN1 & Hidx & Hsize & Hfull & I0 & I & Hm).
  exists plan. split_and!; try assumption.
  - intros a. eapply (step_no_panic W t plan nw); eassumption.
  - intros Hr. eapply (progress W t plan nw); eassumption.
  - assert (Hc : exists rest s', run W t rest s = Next s' /\ returned s' <> None)
      by (eapply (completion W t plan nw); try eassumption; reflexivity).
    destruct Hc as (rest & s' & Hrest & Hret).
    destruct (returned s') as [[n' err']|] eqn:Er'; [|congruence].
    assert (I' : inv W t plan nw s') by (eapply (run_inv W t plan nw); eassumption).
    destruct (inv_ret _ _ _ _ _ I' _ Er') as [E _].
    exists rest, err', s'. unfold downloadFileInParallel.
    rewrite Hspawn, (run_app W t schedule rest s0 s Hrun), Hrest, Er'.
    injection E as -> _. reflexivity.
  - intros n err Hr.
    destruct (inv_ret _ _ _ _ _ I _ Hr) as [E Hexit]. injection E as -> ->.
    split_and!; [reflexivity | apply (inv_err _ _ _ _ _ I) |].
    intros j e Hj He.
    apply list_elem_of_lookup_1 in Hj as [c Hc].
    destruct (inv_attempted _ _ _ _ _ I c j Hc) as [w Hw].
    { left. rewrite Hexit. simpl. eapply lookup_lt_Some, Hc. }
    rewrite He in Hw. apply failures_downloaded in Hw.
    split; [exact Hw|].
    rewrite (inv_err _ _ _ _ _ I). intros Hlast.
    apply last_None in Hlast. rewrite Hlast in Hw. inversion Hw.
Qed.

Lemma failed_chunk_terminates_witness :
  exists s, runTransfer (sampleWorld sampleObject deniedChunk1) sampleTransfer
              sampleSchedule = Next s /\
            returned s = Some (12, Some "PermissionDenied"%string).
Proof.
  destruct (spawn sampleTransfer) as [s0|] eqn:E0; [|vm_compute in E0; discriminate].
  destruct (run (sampleWorld sampleObject deniedChunk1) sampleTransfer sampleSchedule s0)
    as [s| |] eqn:E1;
    [|unfold spawn in E0; vm_compute in E0; injection E0 as <-; vm_compute in E1; discriminate ..].
  destruct (failed_chunk_terminates (sampleWorld sampleObject deniedChunk1) sampleTransfer
              sampleSchedule s0 s
              ltac:(unfold validTransfer; vm_compute; repeat split; congruence) E0 E1)
    as (plan & Hplan & _ & _ & _ & _ & Hret).
  exists s. unfold runTransfer. rewrite E0. split; [exact E1|].
  vm_compute in E0. injection E0 as <-. vm_compute in E1. injection E1 as <-.
  reflexivity.
Defined.

(** C4 as stated fails on its last part: when chunk 0 fails first and chunk 1
    second, the function returns the error of chunk 1, not the failure
    recorded first. *)
Lemma first_failure_counterexample :
  exists s, runTransfer (sampleWorld sampleObject twoFailures) sampleTransfer
              orderedSchedule = Next s /\
            failures (events s) = ["RequestTimeout"; "PermissionDenied"]%string /\
            returned s = Some (12, Some "PermissionDenied"%string).
Proof.
  eexists. split; [vm_compute; reflexivity|]. split; reflexivity.
Qed.

(** C5 (amended): a worker whose ranged request fails records the error in
    [finalErr] and goes on to publish the signal of its chunk; an idle
    worker, whatever its earlier requests returned, receives the next job as
    long as the queue is not empty.  The function returns only when the
    queue is empty, the request of every chunk of the plan has been made and
    every chunk has been copied. *)
Theorem failed_worker_keeps_pulling (W : world) (t : transfer) (schedule : list action)
    (s0 s : state) :
  validTransfer t -> spawn t = Some s0 -> run W t schedule s0 = Next s ->
  exists plan,
    planJobs (totalBytes t) (downloadChunkSize t) = Some plan /\
    (forall w j a data e,
       workers s !! w = Some (WDownloading j a) -> rangedGet W j = (data, Some e) ->
       exists s', step W t (Download w) s = Next s' /\ finalErr s' = Some e /\
                  workers s' !! w = Some (WSignal j a)) /\
    (forall w j rest,
       workers s !! w = Some WIdle -> jobs s = j :: rest ->
       exists s', step W t (ReceiveJob w) s = Next s' /\
                  workers s' !! w = Some (WHasJob j) /\ jobs s' = rest) /\
    (returned s <> None ->
       jobs s = [] /\
       (forall j, j ∈ plan ->
          exists w, EvDownloaded w (chunkIndex j) (snd (rangedGet W j)) ∈ events s) /\
       copiedIdx (events s) = Z.of_nat <$> seq 0 (length plan)).
Proof.
  intros Hvalid Hspawn Hrun.
  destruct (reachable W t schedule s0 s Hvalid Hspawn Hrun)
    as (plan & nw & Hplan & _ & _ & Hnw1 & HN1 & Hidx & Hsize & Hfull & I0 & I & Hm).
  exists plan. split_and!; try assumption.
  - intros w j a data e Hw Hget.
    assert (He : exists s', stepDownload W w s = Next s')
      by (eapply (Download_enabled W t plan nw); eassumption).
    destruct He as [s' Hs'].
    exists s'. split; [exact Hs'|].
    unfold stepDownload in Hs'. rewrite Hw in Hs'.
    destruct (heap s !! a) as [old|]; [|discriminate].
    rewrite Hget in Hs'. injection Hs' as <-. simpl.
    split; [reflexivity|].
    apply list_lookup_insert_eq. eapply lookup_lt_Some, Hw.
  - intros w j rest Hw Hj. simpl. unfold stepReceiveJob. rewrite Hw, Hj.
    eexists. split; [reflexivity|]. simpl. split; [|reflexivity].
    apply list_lookup_insert_eq. eapply lookup_lt_Some, Hw.
  - intros Hr. destruct (returned s) as [r|] eqn:Er; [|congruence].
    destruct (inv_ret _ _ _ _ _ I r Er) as [_ Hexit].
    pose proof (inv_taken _ _ _ _ _ I) as Htk.
    rewrite Hexit in Htk. simpl in Htk. unfold pulled in Htk.
    split_and!.
    + destruct (jobs s); [reflexivity | simpl in Htk; lia].
    + intros j Hj. apply list_elem_of_lookup_1 in Hj as [c Hc].
      apply (inv_attempted _ _ _ _ _ I c j Hc).
      left. rewrite Hexit. simpl. eapply lookup_lt_Some, Hc.
    + rewrite (inv_copied _ _ _ _ _ I), Hexit. reflexivity.
Qed.

Lemma failed_worker_keeps_pulling_witness :
  exists s, runTransfer (sampleWorld sampleObject deniedChunk1) sampleTransfer
              sampleSchedule = Next s /\
            jobs s = [] /\ copiedIdx (events s) = [0; 1; 2].
Proof.
  destruct (spawn sampleTransfer) as [s0|] eqn:E0; [|vm_compute in E0; discriminate].
  destruct (run (sampleWorld sampleObject deniedChunk1) sampleTransfer sampleSchedule s0)
    as [s| |] eqn:E1;
    [|unfold spawn in E0; vm_compute in E0; injection E0 as <-; vm_compute in E1; discriminate ..].
  assert (Hret : returned s <> None).
  { vm_compute in E0. injection E0 as <-. vm_compute in E1. injection E1 as <-.
    vm_compute. discriminate. }
  destruct (failed_worker_keeps_pulling (sampleWorld sampleObject deniedChunk1)
              sampleTransfer sampleSchedule s0 s
              ltac:(unfold validTransfer; vm_compute; repeat split; congruence) E0 E1)
    as (plan & Hplan & _ & _ & Hend).
  vm_compute in Hplan. injection Hplan as <-.
  destruct (Hend Hret) as (Hjobs & _ & Hcopied).
  exists s. unfold runTransfer. rewrite E0. split_and!; assumption.
Defined.

(** C5 as stated fails: the only worker of [lonelyTransfer], whose request
    for chunk 0 failed, receives the job of chunk 1 afterwards and starts
    working on it. *)
Lemma failed_worker_pulls_counterexample :
  exists s, runTransfer (sampleWorld sampleObject twoFailures) lonelyTransfer
              lonelyPrefix = Next s /\
            finalErr s = Some "RequestTimeout"%string /\
            events s = [EvWorker 0 0; EvDownloaded 0 0 (Some "RequestTimeout"%string);
                        EvCopied 0 (zeros 5) None; EvWorker 0 1] /\
            workers s = [WDownloading (mkChunk 1 5 9) 0%nat].
Proof.
  eexists. split; [vm_compute; reflexivity|]. repeat split; reflexivity.
Qed.

(** ** The orchestrators *)

Lemma step_returned W t a s s' :
  step W t a s = Next s' ->
  returned s' = returned s \/ returned s' = Some (totalBytes t, finalErr s).
Proof.
  intros H. destruct a as [w|w|w|w| | | | |]; simpl in H.
  - unfold stepReceiveJob in H.
    destruct (workers s !! w) as [[| | |]|]; try discriminate.
    destruct (jobs s); try discriminate.
    injection H as <-. left. reflexivity.
  - unfold stepAcquireBuffer in H.
    destruct (workers s !! w) as [[|j|j a0|j a0]|]; try discriminate.
    destruct (downloadBuffers s) as [|a rest]; try discriminate.
    cbv zeta in H.
    destruct (_ =? _) in H.
    + destruct (indexOf _ _) in H; [|discriminate]. injection H as <-. left. reflexivity.
    + destruct (_ <? _) in H; [discriminate|].
      destruct (indexOf _ _) in H; [|discriminate]. injection H as <-. left. reflexivity.
  - unfold stepDownload in H.
    destruct (workers s !! w) as [[|j|j a|j a]|]; try discriminate.
    destruct (heap s !! a) as [old|]; try discriminate.
    destruct (rangedGet W j) as [data [e|]]; injection H as <-; left; reflexivity.
  - unfold stepSignal in H.
    destruct (workers s !! w) as [[|j|j a|j a]|]; try discriminate.
    destruct (indexOf _ _) as [[|]|]; try discriminate.
    destruct (copier s) as [i| | | |]; try discriminate.
    destruct (_ =? _)%nat; try discriminate.
    injection H as <-. left. reflexivity.
  - unfold stepReceiveClosed in H.
    destruct (copier s) as [i| | | |]; try discriminate.
    destruct (copyChannel s !! i) as [[|]|]; try discriminate.
    injection H as <-. left. reflexivity.
  - unfold stepWriteFile in H.
    destruct (copier s) as [|i cur| | |]; try discriminate.
    destruct (indexOf _ _) as [[a|]|]; try discriminate.
    destruct (heap s !! a) as [buf|]; try discriminate.
    destruct (fileWrite W cur buf) as [n [e|]]; injection H as <-; left; reflexivity.
  - unfold stepReleaseBuffer in H.
    destruct (copier s) as [| |i cur| |]; try discriminate.
    destruct (indexOf _ _) as [[a|]|]; try discriminate.
    destruct (_ <? _)%nat; try discriminate.
    injection H as <-. left. reflexivity.
  - unfold stepDone in H.
    destruct (copier s) as [| | |i cur|]; try discriminate.
    destruct (_ <? _); try discriminate.
    destruct (copyChannel s !! i) as [[|]|]; try discriminate.
    injection H as <-. left. reflexivity.
  - unfold stepReturn in H.
    destruct (returned s); try discriminate.
    destruct (_ =? _); try discriminate.
    injection H as <-. right. reflexivity.
Qed.

Lemma run_returned W t schedule : forall s s' r,
  returned s = None -> run W t schedule s = Next s' -> returned s' = Some r ->
  fst r = totalBytes t.
Proof.
  assert (G : forall s s', (forall r, returned s = Some r -> fst r = totalBytes t) ->
            run W t schedule s = Next s' ->
            forall r, returned s' = Some r -> fst r = totalBytes t).
  { induction schedule as [|a rest IH]; intros s s' Hs H r Hr; simpl in H.
    - injection H as <-. auto.
    - destruct (step W t a s) as [s1| |] eqn:E; try discriminate.
      apply (IH s1 s'); try assumption.
      intros r1 Hr1. destruct (step_returned W t a s s1 E) as [Eq | Eq].
      + apply Hs. congruence.
      + rewrite Eq in Hr1. injection Hr1 as <-. reflexivity. }
  intros s s' r Hnone H Hr. eapply G; [|exact H|exact Hr].
  intros r0 Hr0. congruence.
Qed.

Lemma spawn_not_returned t s0 : spawn t = Some s0 -> returned s0 = None.
Proof.
  unfold spawn. intros H.
  destruct (numberOfChunks _ _) as [n|]; [|discriminate].
  destruct (n <? 0); [discriminate|].
  destruct (numberOfWorkers _ _ <? 0); [discriminate|].
  destruct (_ && _); [discriminate|].
  injection H as <-. reflexivity.
Qed.

(** C7: when the probed size does not exceed the chunk size, zero included,
    [downloadFile] returns without starting the parallel path and without
    any ranged request; when the un-ranged download and the write succeed it
    makes exactly one [HeadObject], one un-ranged download and one write of
    the downloaded buffer and returns the probed size, and for an empty
    object nothing is written. *)
Theorem single_shot_download (R : remote) (W : world) (concurrency chunkSize size : Z)
    (schedule : list action) :
  headObject R = Ok size -> size <= chunkSize ->
  exists r,
    downloadFile R W concurrency chunkSize schedule = Next r /\
    (forall t, CallParallel t ∉ calls r) /\
    (forall range, CallDownload (Some range) ∉ calls r) /\
    (forall buffer,
       getObject R = (buffer, None) -> singleWrite R buffer = (length buffer, None) ->
       r = mkResult size None buffer
             [CallHeadObject; CallDownload None; CallFileWrite buffer] /\
       (size = 0 -> Z.of_nat (length buffer) = size -> destination r = [])).
Proof.
  intros Hhead Hle. unfold downloadFile, getFileSize. rewrite Hhead.
  replace (size <=? chunkSize) with true by (symmetry; apply Z.leb_le; exact Hle).
  destruct (getObject R) as [buffer [e|]] eqn:Eget.
  - eexists. split; [reflexivity|]. simpl. split_and!.
    + intros t Hin. repeat (apply elem_of_cons in Hin as [Hin|Hin]; [discriminate|]).
      inversion Hin.
    + intros range Hin. repeat (apply elem_of_cons in Hin as [Hin|Hin]; [discriminate|]).
      inversion Hin.
    + intros buffer' Hb. discriminate.
  - destruct (singleWrite R buffer) as [n [e|]] eqn:Ew.
    + eexists. split; [reflexivity|]. simpl. split_and!.
      * intros t Hin. repeat (apply elem_of_cons in Hin as [Hin|Hin]; [discriminate|]).
        inversion Hin.
      * intros range Hin.
        repeat (apply elem_of_cons in Hin as [Hin|Hin]; [discriminate|]).
        inversion Hin.
      * intros buffer' Hb Hw. injection Hb as <-. rewrite Ew in Hw. discriminate.
    + eexists. split; [reflexivity|]. simpl. split_and!.
      * intros t Hin. repeat (apply elem_of_cons in Hin as [Hin|Hin]; [discriminate|]).
        inversion Hin.
      * intros range Hin.
        repeat (apply elem_of_cons in Hin as [Hin|Hin]; [discriminate|]).
        inversion Hin.
      * intros buffer' Hb Hw. injection Hb as <-. rewrite Ew in Hw.
        injection Hw as ->. rewrite take_ge by lia.
        split; [reflexivity|]. simpl. intros -> Hlen.
        destruct buffer; [reflexivity | simpl in Hlen; lia].
Qed.

Lemma single_shot_download_witness :
  downloadFile (sampleRemote 0 []) (sampleWorld [] noFailure) 6 (500 * Mebibyte) []
  = Next (mkResult 0 None [] [CallHeadObject; CallDownload None; CallFileWrite []]).
Proof.
  destruct (single_shot_download (sampleRemote 0 []) (sampleWorld [] noFailure)
              6 (500 * Mebibyte) 0 [] eq_refl ltac:(vm_compute; congruence))
    as (r & Hr & _ & _ & Hok).
  rewrite Hr. f_equal. apply (Hok [] eq_refl eq_refl).
Defined.

(** C9 (amended): on success the byte count returned by a transfer is the
    [ContentLength] answered by a [HeadObject] request, made before the
    transfer by [downloadFile] and after it by [uploadFile]; it is not
    compared with the bytes that were transferred. *)
Theorem returned_count_is_probe :
  (forall R W concurrency chunkSize schedule r,
     downloadFile R W concurrency chunkSize schedule = Next r ->
     transferErr r = None -> headObject R = Ok (bytesTransferred r)) /\
  (forall E source,
     transferErr (uploadFile E source) = None ->
     headAfterUpload E = Ok (bytesTransferred (uploadFile E source))).
Proof.
  split.
  - intros R W concurrency chunkSize schedule r H Herr.
    unfold downloadFile, getFileSize in H.
    destruct (headObject R) as [size|e] eqn:Eh.
    + destruct (size <=? chunkSize).
      * destruct (getObject R) as [buffer [e|]].
        -- injection H as <-. discriminate.
        -- destruct (singleWrite R buffer) as [n [e|]]; injection H as <-;
             [discriminate | reflexivity].
      * unfold downloadFileInParallel in H.
        destruct (spawn _) as [s0|] eqn:E0; [|discriminate].
        destruct (run W _ schedule s0) as [s| |] eqn:E1; try discriminate.
        destruct (returned s) as [[n err]|] eqn:Er; [|discriminate].
        injection H as <-. simpl.
        pose proof (run_returned W _ schedule s0 s (n, err)
                      (spawn_not_returned _ _ E0) E1 Er) as Hn.
        simpl in Hn. subst n. reflexivity.
    + injection H as <-. discriminate.
  - intros E source. unfold uploadFile.
    destruct (GetUploadChunkSize E); [|discriminate].
    destruct (GetUploadConcurrency E); [|discriminate].
    destruct (uploaderUpload E source); [discriminate|].
    destruct (headAfterUpload E); [reflexivity | discriminate].
Qed.

Lemma returned_count_is_probe_witness :
  headAfterUpload (sampleUpload 3) =
    Ok (bytesTransferred (uploadFile (sampleUpload 3) sampleObject)) /\
  headObject (sampleRemote 5 (take 3 sampleObject)) = Ok 5.
Proof.
  destruct returned_count_is_probe as [Hdown Hup]. split.
  - apply Hup. reflexivity.
  - apply (Hdown (sampleRemote 5 (take 3 sampleObject)) (sampleWorld [] noFailure)
             6 (500 * Mebibyte) []
             (mkResult 5 None (take 3 sampleObject)
                [CallHeadObject; CallDownload None; CallFileWrite (take 3 sampleObject)]));
      reflexivity.
Defined.

(** C9 as stated fails: an upload of 12 bytes whose later [HeadObject]
    answers 3 returns 3 without error, and a download whose probe answers 5
    while 3 bytes arrive returns 5 without error. *)
Lemma unverified_count_counterexample :
  length sampleObject = 12%nat /\
  bytesTransferred (uploadFile (sampleUpload 3) sampleObject) = 3 /\
  transferErr (uploadFile (sampleUpload 3) sampleObject) = None /\
  downloadFile (sampleRemote 5 (take 3 sampleObject)) (sampleWorld [] noFailure)
    6 (500 * Mebibyte) []
  = Next (mkResult 5 None (take 3 sampleObject)
            [CallHeadObject; CallDownload None; CallFileWrite (take 3 sampleObject)]).
Proof.
  repeat split; reflexivity.
Qed.

(** ** More on the goroutines of [downloadFileInParallel] *)

Lemma requested_app l1 l2 : requested (l1 ++ l2) = requested l1 ++ requested l2.
Proof.
  induction l1 as [|[| |] l1 IH]; simpl; congruence.
Qed.

Lemma requested_elem evs w c e : EvDownloaded w c e ∈ evs -> c ∈ requested evs.
Proof.
  induction evs as [|ev evs IH]; intros H; [inversion H|].
  apply elem_of_cons in H as [<- | H].
  - simpl. left.
  - specialize (IH H). destruct ev; simpl; try exact IH. right. exact IH.
Qed.

(** Requests made, jobs queued and jobs on their way to a request add up to
    the same number after every step. *)
Lemma step_requested W t a s s' :
  step W t a s = Next s' ->
  (length (requested (events s')) + length (jobs s') + sum_list_with awaiting (workers s')
   = length (requested (events s)) + length (jobs s)
     + sum_list_with awaiting (workers s))%nat.
Proof.
  intros H. destruct a as [w|w|w|w| | | | |]; simpl in H.
  - unfold stepReceiveJob in H.
    destruct (workers s !! w) as [[| | |]|] eqn:Ew; try discriminate.
    destruct (jobs s) as [|j rest] eqn:Ej; try discriminate.
    injection H as <-. simpl.
    pose proof (sum_list_insert awaiting _ w _ (WHasJob j) Ew). simpl in *. lia.
  - unfold stepAcquireBuffer in H.
    destruct (workers s !! w) as [[|j|j a0|j a0]|] eqn:Ew; try discriminate.
    destruct (downloadBuffers s) as [|a rest] eqn:Eb; try discriminate.
    cbv zeta in H.
    destruct (_ =? _) in H.
    + destruct (indexOf _ _) in H; [|discriminate]. injection H as <-.
      simpl. rewrite requested_app. simpl. rewrite app_nil_r.
      pose proof (sum_list_insert awaiting _ w _ (WDownloading j a) Ew). simpl in *. lia.
    + destruct (_ <? _) in H; [discriminate|].
      destruct (indexOf _ _) in H; [|discriminate]. injection H as <-.
      simpl. rewrite requested_app. simpl. rewrite app_nil_r.
      pose proof (sum_list_insert awaiting _ w _
                    (WDownloading j (length (heap s))) Ew). simpl in *. lia.
  - unfold stepDownload in H.
    destruct (workers s !! w) as [[|j|j a|j a]|] eqn:Ew; try discriminate.
    destruct (heap s !! a) as [old|]; try discriminate.
    destruct (rangedGet W j) as [data [e|]]; injection H as <-;
      simpl; rewrite requested_app, length_app; simpl;
      pose proof (sum_list_insert awaiting _ w _ (WSignal j a) Ew); simpl in *; lia.
  - unfold stepSignal in H.
    destruct (workers s !! w) as [[|j|j a|j a]|] eqn:Ew; try discriminate.
    destruct (indexOf _ _) as [[|]|]; try discriminate.
    destruct (copier s) as [i| | | |] eqn:Ec; try discriminate.
    destruct (_ =? _)%nat; try discriminate.
    injection H as <-. simpl.
    pose proof (sum_list_insert awaiting _ w _ WIdle Ew). simpl in *. lia.
  - unfold stepReceiveClosed in H.
    destruct (copier s) as [i| | | |]; try discriminate.
    destruct (copyChannel s !! i) as [[|]|]; try discriminate.
    injection H as <-. reflexivity.
  - unfold stepWriteFile in H.
    destruct (copier s) as [|i cur| | |] eqn:Ec; try discriminate.
    destruct (indexOf _ _) as [[a|]|]; try discriminate.
    destruct (heap s !! a) as [buf|]; try discriminate.
    destruct (fileWrite W cur buf) as [n [e|]]; injection H as <-;
      simpl; rewrite requested_app; simpl; rewrite app_nil_r; reflexivity.
  - unfold stepReleaseBuffer in H.
    destruct (copier s) as [| |i cur| |] eqn:Ec; try discriminate.
    destruct (indexOf _ _) as [[a|]|]; try discriminate.
    destruct (_ <? _)%nat; try discriminate.
    injection H as <-. reflexivity.
  - unfold stepDone in H.
    destruct (copier s) as [| | |i cur|] eqn:Ec; try discriminate.
    destruct (_ <? _); try discriminate.
    destruct (copyChannel s !! i) as [[|]|]; try discriminate.
    injection H as <-. reflexivity.
  - unfold stepReturn in H.
    destruct (returned s) eqn:Er; try discriminate.
    destruct (_ =? _); try discriminate.
    injection H as <-. reflexivity.
Qed.

Lemma run_requested W t schedule : forall s s',
  run W t schedule s = Next s' ->
  (length (requested (events s')) + length (jobs s') + sum_list_with awaiting (workers s')
   = length (requested (events s)) + length (jobs s)
     + sum_list_with awaiting (workers s))%nat.
Proof.
  induction schedule as [|a rest IH]; intros s s' H; simpl in H.
  - injection H as <-. reflexivity.
  - destruct (step W t a s) as [s1| |] eqn:E; try discriminate.
    rewrite (IH s1 s' H). apply (step_requested W t a s s1 E).
Qed.

Lemma idle_not_awaiting ws :
  (forall w st, ws !! w = Some st -> jobOf st = None) -> sum_list_with awaiting ws = 0%nat.
Proof.
  induction ws as [|st ws IH]; intros H; [reflexivity|].
  simpl. rewrite IH by (intros w st' Hw; apply (H (S w)), Hw).
  specialize (H 0%nat st eq_refl). destruct st; simpl in *; congruence.
Qed.

(** X1: whenever [downloadFileInParallel] returns, the ranged requests it
    has made are, up to their order, the chunks of the plan, each of them
    exactly once: no chunk is requested twice and none is left out,
    whatever the schedule and whichever requests failed. *)
Theorem each_chunk_requested_once (W : world) (t : transfer) (schedule : list action)
    (n : Z) (err : option error) (s : state) :
  validTransfer t ->
  downloadFileInParallel W t schedule = Next (n, err, s) ->
  exists plan,
    planJobs (totalBytes t) (downloadChunkSize t) = Some plan /\
    requested (events s) ≡ₚ chunkIndex <$> plan /\
    NoDup (requested (events s)).
Proof.
  intros Hvalid H. unfold downloadFileInParallel in H.
  destruct (spawn t) as [s0|] eqn:Hspawn; [|discriminate].
  destruct (run W t schedule s0) as [s1| |] eqn:Hrun; try discriminate.
  destruct (returned s1) as [[n1 err1]|] eqn:Hret; [|discriminate].
  injection H as -> -> ->.
  destruct (spawn_inv W t Hvalid)
    as (s0' & plan & nw & Hs0 & Hplan & Hjobs & Hnw & Hnw1 & HN1 & Hidx & Hsize & Hfull
        & I0 & _ & _ & Hworkers & _).
  assert (s0' = s0) by congruence. subst s0'.
  pose proof (run_inv W t plan nw Hidx Hsize Hfull schedule s0 s I0 Hrun) as I.
  destruct (inv_ret _ _ _ _ _ I _ Hret) as [_ Hexit].
  pose proof (inv_taken _ _ _ _ _ I) as Htaken.
  pose proof (inv_jobs _ _ _ _ _ I) as [_ Hjl].
  pose proof (inv_held _ _ _ _ _ I) as Hheld.
  rewrite Hexit in Htaken, Hheld. simpl in Htaken, Hheld. unfold pulled in *.
  assert (Hj0 : length (jobs s) = 0%nat) by lia.
  replace (length plan - length (jobs s) - length plan)%nat with 0%nat in Hheld by lia.
  simpl in Hheld. apply Permutation_nil_r in Hheld.
  assert (Hidle : sum_list_with awaiting (workers s) = 0%nat).
  { apply idle_not_awaiting. intros w st Hw.
    apply (omap_all_none jobOf _ Hheld w st Hw). }
  assert (Hstart : sum_list_with awaiting (workers s0) = 0%nat /\ events s0 = []).
  { unfold spawn in Hs0.
    destruct (numberOfChunks _ _) as [k|]; [|discriminate].
    destruct (k <? 0); [discriminate|].
    destruct (numberOfWorkers _ _ <? 0); [discriminate|].
    destruct (_ && _); [discriminate|].
    injection Hs0 as <-. simpl. split; [|reflexivity].
    generalize (Z.to_nat (numberOfWorkers (downloadConcurrency t) k)).
    intros m. induction m; simpl; auto. }
  destruct Hstart as [Hidle0 Hev0].
  pose proof (run_requested W t schedule s0 s Hrun) as Hcount.
  rewrite Hidle, Hidle0, Hev0, Hj0, Hjobs in Hcount. simpl in Hcount.
  assert (Hnd : NoDup (chunkIndex <$> plan)).
  { apply NoDup_alt. intros c c' x Hc Hc'.
    rewrite list_lookup_fmap in Hc, Hc'.
    destruct (plan !! c) as [j|] eqn:Ej; [|discriminate].
    destruct (plan !! c') as [j'|] eqn:Ej'; [|discriminate].
    simpl in Hc, Hc'. injection Hc as Hc. injection Hc' as Hc'.
    pose proof (Hidx c j Ej). pose proof (Hidx c' j' Ej'). lia. }
  assert (Hperm : chunkIndex <$> plan ≡ₚ requested (events s)).
  { apply submseteq_length_Permutation.
    - apply NoDup_submseteq; [exact Hnd|].
      intros x Hx. apply list_elem_of_fmap in Hx as (j & -> & Hj).
      apply list_elem_of_lookup_1 in Hj as [c Hc].
      destruct (inv_attempted _ _ _ _ _ I c j Hc) as [w Hw].
      { left. rewrite Hexit. simpl. eapply lookup_lt_Some, Hc. }
      eapply requested_elem, Hw.
    - rewrite length_fmap. lia. }
  exists plan. split_and!; [exact Hplan | symmetry; exact Hperm |].
  rewrite <- Hperm. exact Hnd.
Qed.

Lemma each_chunk_requested_once_witness :
  exists s, downloadFileInParallel (sampleWorld sampleObject deniedChunk1) sampleTransfer
              sampleSchedule = Next (12, Some "PermissionDenied"%string, s) /\
            requested (events s) ≡ₚ [0; 1; 2].
Proof.
  destruct (downloadFileInParallel (sampleWorld sampleObject deniedChunk1) sampleTransfer
              sampleSchedule) as [[[n err] s]| |] eqn:E;
    [|vm_compute in E; discriminate ..].
  destruct (each_chunk_requested_once (sampleWorld sampleObject deniedChunk1) sampleTransfer
              sampleSchedule n err s
              ltac:(unfold validTransfer; vm_compute; repeat split; congruence) E)
    as (plan & Hplan & Hperm & _).
  vm_compute in Hplan. injection Hplan as <-.
  exists s. split; [|exact Hperm].
  vm_compute in E. injection E as <- <- <-. reflexivity.
Defined.

(** X2: a buffer is never in two hands.  In every reachable state the
    buffers queued in [downloadBuffers], those held by the workers and the
    one held by the copy goroutine are pairwise distinct addresses of
    allocated arrays: two workers never hold the same buffer, and a buffer
    held by a worker is neither in the pool nor with the copy goroutine. *)
Theorem buffers_never_shared (W : world) (t : transfer) (schedule : list action)
    (s0 s : state) :
  validTransfer t -> spawn t = Some s0 -> run W t schedule s0 = Next s ->
  NoDup (downloadBuffers s ++ owned (workers s) ++ copierOwned s) /\
  (forall w w' st st' a,
     workers s !! w = Some st -> workers s !! w' = Some st' ->
     bufferOf st = Some a -> bufferOf st' = Some a -> w = w') /\
  (forall w st a,
     workers s !! w = Some st -> bufferOf st = Some a ->
     (a ∉ downloadBuffers s) /\ (a ∉ copierOwned s) /\ is_Some (heap s !! a)).
Proof.
  intros Hvalid Hspawn Hrun.
  destruct (reachable W t schedule s0 s Hvalid Hspawn Hrun)
    as (plan & nw & Hplan & _ & _ & Hnw1 & HN1 & Hidx & Hsize & Hfull & I0 & I & Hm).
  pose proof (inv_bufs _ _ _ _ _ I) as Hnd.
  split_and!; [exact Hnd | |].
  - intros w w' st st' a Hw Hw' Ha Ha'.
    eapply (omap_NoDup_lookup bufferOf (workers s)); try eassumption.
    apply NoDup_app in Hnd as (_ & _ & Hnd). apply NoDup_app in Hnd as (Hnd & _).
    exact Hnd.
  - intros w st a Hw Ha.
    pose proof (omap_lookup_elem bufferOf _ _ _ _ Hw Ha) as Hin.
    fold (owned (workers s)) in Hin.
    apply NoDup_app in Hnd as (_ & Hpool & Hnd). apply NoDup_app in Hnd as (_ & Hcop & _).
    split_and!.
    + intros Hp. apply (Hpool a Hp). apply elem_of_app. left. exact Hin.
    + apply Hcop, Hin.
    + apply lookup_lt_is_Some_2. apply (inv_valid _ _ _ _ _ I).
      rewrite !elem_of_app. right. left. exact Hin.
Qed.

Lemma buffers_never_shared_witness :
  exists s, runTransfer (sampleWorld sampleObject noFailure) sampleTransfer
              (take 6 sampleSchedule) = Next s /\
            owned (workers s) = [1; 0]%nat /\
            NoDup (downloadBuffers s ++ owned (workers s) ++ copierOwned s).
Proof.
  destruct (spawn sampleTransfer) as [s0|] eqn:E0; [|vm_compute in E0; discriminate].
  destruct (run (sampleWorld sampleObject noFailure) sampleTransfer
              (take 6 sampleSchedule) s0) as [s| |] eqn:E1;
    [|unfold spawn in E0; vm_compute in E0; injection E0 as <-; vm_compute in E1; discriminate ..].
  destruct (buffers_never_shared (sampleWorld sampleObject noFailure) sampleTransfer
              (take 6 sampleSchedule) s0 s
              ltac:(unfold validTransfer; vm_compute; repeat split; congruence) E0 E1)
    as (Hnd & _ & _).
  exists s. unfold runTransfer. rewrite E0. split_and!; [exact E1 | | exact Hnd].
  vm_compute in E0. injection E0 as <-. vm_compute in E1. injection E1 as <-.
  reflexivity.
Defined.

(** ** Transfers without failures *)

Lemma step_finalErr obj W t a s s' :
  healthy obj W -> step W t a s = Next s' -> finalErr s = None -> finalErr s' = None.
Proof.
  intros [Hget Hwrite] H Hnone. destruct a as [w|w|w|w| | | | |]; simpl in H.
  - unfold stepReceiveJob in H.
    destruct (workers s !! w) as [[| | |]|]; try discriminate.
    destruct (jobs s); try discriminate.
    injection H as <-. exact Hnone.
  - unfold stepAcquireBuffer in H.
    destruct (workers s !! w) as [[|j|j a0|j a0]|]; try discriminate.
    destruct (downloadBuffers s) as [|a rest]; try discriminate.
    cbv zeta in H.
    destruct (_ =? _) in H.
    + destruct (indexOf _ _) in H; [|discriminate]. injection H as <-. exact Hnone.
    + destruct (_ <? _) in H; [discriminate|].
      destruct (indexOf _ _) in H; [|discriminate]. injection H as <-. exact Hnone.
  - unfold stepDownload in H.
    destruct (workers s !! w) as [[|j|j a|j a]|]; try discriminate.
    destruct (heap s !! a) as [old|]; try discriminate.
    rewrite (Hget j) in H. injection H as <-. exact Hnone.
  - unfold stepSignal in H.
    destruct (workers s !! w) as [[|j|j a|j a]|]; try discriminate.
    destruct (indexOf _ _) as [[|]|]; try discriminate.
    destruct (copier s) as [i| | | |]; try discriminate.
    destruct (_ =? _)%nat; try discriminate.
    injection H as <-. exact Hnone.
  - unfold stepReceiveClosed in H.
    destruct (copier s) as [i| | | |]; try discriminate.
    destruct (copyChannel s !! i) as [[|]|]; try discriminate.
    injection H as <-. exact Hnone.
  - unfold stepWriteFile in H.
    destruct (copier s) as [|i cur| | |]; try discriminate.
    destruct (indexOf _ _) as [[a|]|]; try discriminate.
    destruct (heap s !! a) as [buf|]; try discriminate.
    rewrite (Hwrite cur buf) in H. injection H as <-. exact Hnone.
  - unfold stepReleaseBuffer in H.
    destruct (copier s) as [| |i cur| |]; try discriminate.
    destruct (indexOf _ _) as [[a|]|]; try discriminate.
    destruct (_ <? _)%nat; try discriminate.
    injection H as <-. exact Hnone.
  - unfold stepDone in H.
    destruct (copier s) as [| | |i cur|]; try discriminate.
    destruct (_ <? _); try discriminate.
    destruct (copyChannel s !! i) as [[|]|]; try discriminate.
    injection H as <-. exact Hnone.
  - unfold stepReturn in H.
    destruct (returned s); try discriminate.
    destruct (_ =? _); try discriminate.
    injection H as <-. exact Hnone.
Qed.

Lemma run_finalErr obj W t schedule : forall s s',
  healthy obj W -> run W t schedule s = Next s' -> finalErr s = None -> finalErr s' = None.
Proof.
  induction schedule as [|a rest IH]; intros s s' Hw H Hnone; simpl in H.
  - injection H as <-. exact Hnone.
  - destruct (step W t a s) as [s1| |] eqn:E; try discriminate.
    apply (IH s1 s' Hw H). eapply step_finalErr; eassumption.
Qed.

Lemma spawn_finalErr t s0 : spawn t = Some s0 -> finalErr s0 = None.
Proof.
  unfold spawn. intros H.
  destruct (numberOfChunks _ _) as [n|]; [|discriminate].
  destruct (n <? 0); [discriminate|].
  destruct (numberOfWorkers _ _ <? 0); [discriminate|].
  destruct (_ && _); [discriminate|].
  injection H as <-. reflexivity.
Qed.

(** On a world without failures the parallel path returns the size, no
    error and a file equal to the object, and some schedule returns. *)
Lemma healthy_parallel obj W t :
  validTransfer t -> Z.of_nat (length obj) = totalBytes t -> healthy obj W ->
  (forall schedule n err s,
     downloadFileInParallel W t schedule = Next (n, err, s) ->
     n = totalBytes t /\ err = None /\ file s = obj) /\
  exists schedule s, downloadFileInParallel W t schedule = Next (totalBytes t, None, s).
Proof.
  intros Hvalid Hobj Hw.
  destruct (spawn_inv W t Hvalid)
    as (s0 & plan & nw & Hs0 & Hplan & Hjobs & Hnw & Hnw1 & HN1 & Hidx & Hsize & Hfull
        & I0 & Hm & _).
  assert (Hall : forall schedule n err s,
            downloadFileInParallel W t schedule = Next (n, err, s) ->
            n = totalBytes t /\ err = None /\ file s = obj).
  { intros schedule n err s H. unfold downloadFileInParallel in H. rewrite Hs0 in H.
    destruct (run W t schedule s0) as [s1| |] eqn:Hrun; try discriminate.
    destruct (returned s1) as [[n1 err1]|] eqn:Hret; [|discriminate].
    injection H as -> -> ->.
    pose proof (run_inv W t plan nw Hidx Hsize Hfull schedule s0 s I0 Hrun) as I.
    destruct (inv_ret _ _ _ _ _ I _ Hret) as [E Hexit]. injection E as -> ->.
    split_and!; [reflexivity | |].
    - eapply run_finalErr; [exact Hw | exact Hrun | eapply spawn_finalErr, Hs0].
    - destruct Hvalid as (Hcs & Hlt & Hmax & _).
      destruct (planJobs_closed_form _ _ Hcs Hlt Hmax)
        as (plan' & k & _ & Hplan' & _ & Hlen & Hceil & Hform).
      assert (plan' = plan) by congruence. subst plan'. subst k.
      destruct Hw as [Hget Hwrite].
      rewrite (inv_file _ _ _ _ _ I).
      rewrite fileOf_complete by (intros c buf; rewrite Hwrite; reflexivity).
      rewrite (copiedBufs_by_index
                 (fun c => match plan !! Z.to_nat c with
                           | Some j => rangeOf obj j
                           | None => []
                           end)).
      + rewrite (inv_copied _ _ _ _ _ I), Hexit. simpl.
        rewrite (ranges_by_index obj plan (length plan)) by lia.
        rewrite firstn_all.
        apply (concat_ranges_all obj _ _ plan Hcs Hobj Hceil Hform).
      + intros c buf e Hin.
        destruct (inv_copiedbuf _ _ _ _ _ I c buf e Hin) as (j & Hc0 & Hj & Hdel).
        rewrite Hj. replace (rangeOf obj j) with (fst (rangedGet W j))
          by (rewrite Hget; reflexivity).
        apply Hdel. unfold fullDelivery. rewrite Hget. simpl.
        eapply (rangeOf_length obj _ _ plan Hcs Hobj Hceil Hform), Hj. }
  split; [exact Hall|].
  destruct (completion W t plan nw Hidx Hsize Hfull (measure s0) s0 I0 Hnw1 eq_refl)
    as (schedule & s & Hrun & Hret).
  destruct (returned s) as [[n err]|] eqn:Er; [|congruence].
  assert (H : downloadFileInParallel W t schedule = Next (n, err, s)).
  { unfold downloadFileInParallel. rewrite Hs0, Hrun, Er. reflexivity. }
  destruct (Hall schedule n err s H) as (-> & -> & _).
  exists schedule, s. exact H.
Qed.

(** X3: on a service and a file without failures [downloadFile] restores the
    object: whether it takes the single-shot path or the parallel one, and
    on the parallel path whatever the schedule of the goroutines, a call
    that returns gives back the size of the object and a nil error and has
    written the bytes of the object, all of them and in order, to the
    destination; and some schedule does return. *)
Theorem healthy_download_restores_object (R : remote) (W : world) (obj : list byte)
    (concurrency chunkSize : Z) :
  0 < chunkSize -> 1 <= concurrency ->
  Z.of_nat (length obj) + chunkSize - 1 <= int64_max ->
  headObject R = Ok (Z.of_nat (length obj)) ->
  getObject R = (obj, None) -> singleWrite R obj = (length obj, None) ->
  healthy obj W ->
  (forall schedule r,
     downloadFile R W concurrency chunkSize schedule = Next r ->
     bytesTransferred r = Z.of_nat (length obj) /\ transferErr r = None /\
     destination r = obj) /\
  exists schedule r, downloadFile R W concurrency chunkSize schedule = Next r.
Proof.
  intros Hcs Hconc Hmax Hhead Hget Hwrite Hw.
  unfold downloadFile, getFileSize. rewrite Hhead.
  destruct (Z.leb_spec (Z.of_nat (length obj)) chunkSize) as [Hle | Hlt].
  - rewrite Hget, Hwrite. split.
    + intros schedule r H. injection H as <-. simpl.
      rewrite take_ge by lia. auto.
    + exists [], (mkResult (Z.of_nat (length obj)) None (take (length obj) obj)
                   [CallHeadObject; CallDownload None; CallFileWrite obj]).
      reflexivity.
  - set (t := mkTransfer concurrency chunkSize (Z.of_nat (length obj))).
    assert (Hvalid : validTransfer t) by (unfold validTransfer; simpl; lia).
    destruct (healthy_parallel obj W t Hvalid eq_refl Hw) as [Hall (schedule & s & Hex)].
    split.
    + intros schedule' r H.
      destruct (downloadFileInParallel W t schedule') as [[[n err] s']| |] eqn:E;
        try discriminate.
      injection H as <-. simpl. destruct (Hall schedule' n err s' E) as (-> & -> & ->).
      auto.
    + exists schedule. rewrite Hex. eexists. reflexivity.
Qed.

Lemma healthy_download_restores_object_witness :
  exists r,
    downloadFile (sampleRemote 12 sampleObject) (sampleWorld sampleObject noFailure)
      2 5 sampleSchedule = Next r /\
    bytesTransferred r = 12 /\ transferErr r = None /\ destination r = sampleObject.
Proof.
  destruct (downloadFile (sampleRemote 12 sampleObject)
              (sampleWorld sampleObject noFailure) 2 5 sampleSchedule)
    as [r| |] eqn:E; [|vm_compute in E; discriminate ..].
  exists r. split; [reflexivity|].
  destruct (healthy_download_restores_object
              (sampleRemote 12 sampleObject) (sampleWorld sampleObject noFailure)
              sampleObject 2 5
              ltac:(lia) ltac:(lia) ltac:(vm_compute; congruence) eq_refl eq_refl eq_refl
              ltac:(split; reflexivity)) as [Hall _].
  apply (Hall sampleSchedule r E).
Defined.

(** ** Transfers without a worker *)

Lemma spawn_without_workers t :
  0 < downloadChunkSize t -> downloadChunkSize t < totalBytes t ->
  totalBytes t + downloadChunkSize t - 1 <= int64_max ->
  downloadConcurrency t = 0 ->
  exists s0, spawn t = Some s0 /\ workers s0 = [] /\ copier s0 = CWait 0 /\
             copyChannel s0 !! 0%nat = Some false /\ waitGroup s0 <> 0 /\
             returned s0 = None.
Proof.
  intros Hcs Hlt Hmax Hconc.
  destruct (planJobs_closed_form _ _ Hcs Hlt Hmax)
    as (plan & n & Hn & Hplan & Eplan & Hlen & Hceil & Hform).
  assert (Hpos : 0 < n) by nia.
  unfold spawn. rewrite Hn, Hconc.
  replace (n <? 0) with false by (symmetry; apply Z.ltb_ge; lia).
  unfold numberOfWorkers.
  replace (n <? 0) with false by (symmetry; apply Z.ltb_ge; lia).
  replace (n =? 0) with false by (symmetry; apply Z.eqb_neq; lia).
  simpl. eexists. split; [reflexivity|]. simpl. rewrite <- Eplan.
  split_and!; try reflexivity; [|lia].
  apply lookup_replicate_2. lia.
Qed.

Lemma no_worker_blocked W t a s :
  workers s = [] -> copier s = CWait 0 -> copyChannel s !! 0%nat = Some false ->
  waitGroup s <> 0 -> step W t a s = Blocked.
Proof.
  intros Hw Hc Hch Hwg. destruct a as [w|w|w|w| | | | |]; simpl.
  - unfold stepReceiveJob. rewrite Hw, lookup_nil. reflexivity.
  - unfold stepAcquireBuffer. rewrite Hw, lookup_nil. reflexivity.
  - unfold stepDownload. rewrite Hw, lookup_nil. reflexivity.
  - unfold stepSignal. rewrite Hw, lookup_nil. reflexivity.
  - unfold stepReceiveClosed. rewrite Hc, Hch. reflexivity.
  - unfold stepWriteFile. rewrite Hc. reflexivity.
  - unfold stepReleaseBuffer. rewrite Hc. reflexivity.
  - unfold stepDone. rewrite Hc. reflexivity.
  - unfold stepReturn. destruct (returned s); [reflexivity|].
    replace (waitGroup s =? 0) with false by (symmetry; apply Z.eqb_neq; exact Hwg).
    reflexivity.
Qed.

(** X4: [downloadFileInParallel] does not check its concurrency.  With a
    concurrency of 0 no worker is started, the copy goroutine waits for
    chunk 0 and [waitGroup.Wait()] never returns: under every schedule the
    call stays blocked.  With a negative concurrency the call panics when
    it makes the channel of buffers. *)
Theorem no_worker_no_return (W : world) (t : transfer) (schedule : list action) :
  0 < downloadChunkSize t -> downloadChunkSize t < totalBytes t ->
  totalBytes t + downloadChunkSize t - 1 <= int64_max ->
  (downloadConcurrency t = 0 -> downloadFileInParallel W t schedule = Blocked) /\
  (downloadConcurrency t < 0 -> downloadFileInParallel W t schedule = Panicked).
Proof.
  intros Hcs Hlt Hmax. split.
  - intros Hconc.
    destruct (spawn_without_workers t Hcs Hlt Hmax Hconc)
      as (s0 & Hs0 & Hw & Hc & Hch & Hwg & Hret).
    unfold downloadFileInParallel. rewrite Hs0.
    destruct schedule as [|a rest]; simpl.
    + rewrite Hret. reflexivity.
    + rewrite (no_worker_blocked W t a s0 Hw Hc Hch Hwg). reflexivity.
  - intros Hconc.
    destruct (planJobs_closed_form _ _ Hcs Hlt Hmax)
      as (plan & n & Hn & Hplan & Eplan & Hlen & Hceil & Hform).
    assert (Hpos : 0 < n) by nia.
    unfold downloadFileInParallel, spawn. rewrite Hn.
    replace (n <? 0) with false by (symmetry; apply Z.ltb_ge; lia).
    unfold numberOfWorkers.
    replace (n <? downloadConcurrency t) with false by (symmetry; apply Z.ltb_ge; lia).
    replace (downloadConcurrency t <? 0) with true by (symmetry; apply Z.ltb_lt; lia).
    reflexivity.
Qed.

Lemma no_worker_no_return_witness :
  downloadFileInParallel (sampleWorld sampleObject noFailure) idleTransfer sampleSchedule
  = Blocked.
Proof.
  apply (no_worker_no_return (sampleWorld sampleObject noFailure) idleTransfer
           sampleSchedule);
    vm_compute; congruence.
Defined.

(** X5: the byte count that [downloadFile] returns with an error depends on
    the path: 0 when the probe, the single-shot download or its write
    fails, but the whole probed size when the failure happens on the
    parallel path. *)
Theorem failed_download_byte_count (R : remote) (W : world) (concurrency chunkSize : Z)
    (schedule : list action) (r : transferResult) (e : error) :
  downloadFile R W concurrency chunkSize schedule = Next r ->
  transferErr r = Some e ->
  bytesTransferred r =
    match headObject R with
    | Ok size => if size <=? chunkSize then 0 else size
    | Err _ => 0
    end.
Proof.
  intros H Herr. unfold downloadFile, getFileSize in H.
  destruct (headObject R) as [size|e0] eqn:Eh.
  - destruct (size <=? chunkSize).
    + destruct (getObject R) as [buffer [e1|]].
      * injection H as <-. reflexivity.
      * destruct (singleWrite R buffer) as [n [e1|]]; injection H as <-;
          [reflexivity | discriminate].
    + unfold downloadFileInParallel in H.
      destruct (spawn _) as [s0|] eqn:E0; [|discriminate].
      destruct (run W _ schedule s0) as [s| |] eqn:E1; try discriminate.
      destruct (returned s) as [[n err]|] eqn:Er; [|discriminate].
      injection H as <-. simpl.
      apply (run_returned W _ schedule s0 s (n, err) (spawn_not_returned _ _ E0) E1 Er).
  - injection H as <-. reflexivity.
Qed.

Lemma failed_download_byte_count_witness :
  exists r,
    downloadFile (sampleRemote 12 sampleObject) (sampleWorld sampleObject deniedChunk1)
      2 5 sampleSchedule = Next r /\
    transferErr r = Some "PermissionDenied"%string /\ bytesTransferred r = 12.
Proof.
  destruct (downloadFile (sampleRemote 12 sampleObject)
              (sampleWorld sampleObject deniedChunk1) 2 5 sampleSchedule)
    as [r| |] eqn:E; [|vm_compute in E; discriminate ..].
  assert (Herr : transferErr r = Some "PermissionDenied"%string).
  { vm_compute in E. injection E as <-. reflexivity. }
  exists r. split_and!; [reflexivity | exact Herr |].
  apply (failed_download_byte_count _ _ _ _ _ _ _ E Herr).
Defined.

(** ** The arrays allocated by a transfer *)

Section Memory.

Variable W : world.
Variable t : transfer.
Variable plan : list chunk.
Variable nw : nat.

Hypothesis plan_index : forall c j, plan !! c = Some j -> chunkIndex j = Z.of_nat c.
Hypothesis plan_size : forall c j, plan !! c = Some j ->
  add64 (sub64 (endByte j) (startByte j)) 1 = chunkLen j /\
  0 < chunkLen j <= downloadChunkSize t.
Hypothesis plan_full : forall c j, plan !! c = Some j -> (S c < length plan)%nat ->
  chunkLen j = downloadChunkSize t.

Lemma lastAcquired_setWorker s w st st' :
  workers s !! w = Some st -> (forall j, st' <> WHasJob j) ->
  lastAcquired plan s -> lastAcquired plan (setWorker w st' s).
Proof.
  intros Hw Hst [Hj Hl]. split; [exact Hj|]. simpl.
  intros w0 j0 H0. destruct (decide (w0 = w)) as [-> | Hne].
  - rewrite list_lookup_insert_eq in H0 by (eapply lookup_lt_Some; eassumption).
    injection H0 as ->. exfalso. eapply Hst. reflexivity.
  - rewrite list_lookup_insert_ne in H0 by congruence. eapply Hl, H0.
Qed.

Lemma step_heapInv s s' a :
  inv W t plan nw s -> heapInv t plan nw s -> step W t a s = Next s' ->
  heapInv t plan nw s'.
Proof.
  intros I [Hall Hlen] H. destruct a as [w|w|w|w| | | | |]; simpl in H.
  - unfold stepReceiveJob in H.
    destruct (workers s !! w) as [[| | |]|] eqn:Ew; try discriminate.
    destruct (jobs s) as [|j rest] eqn:Ej; try discriminate.
    injection H as <-. split; [exact Hall|].
    destruct Hlen as [Hlen | (_ & [Hj _] & _)]; [left; exact Hlen | congruence].
  - unfold stepAcquireBuffer in H.
    destruct (workers s !! w) as [[|j|j a0|j a0]|] eqn:Ew; try discriminate.
    destruct (downloadBuffers s) as [|a rest] eqn:Eb; try discriminate.
    cbv zeta in H.
    destruct (held_lookup W t plan nw plan_index s w (WHasJob j) j I Ew eq_refl)
      as (c & Hc & Hci & Hrange & HcN).
    destruct (plan_size c j Hc) as [Hsz Hbound].
    destruct (Z.eqb_spec (add64 (sub64 (endByte j) (startByte j)) 1) (downloadChunkSize t))
      as [Heq | Hneq].
    + destruct (indexOf _ _) in H; [|discriminate]. injection H as <-.
      split; [exact Hall|].
      destruct Hlen as [Hlen | (Hlen & Hlast & Hshort)]; [left; exact Hlen|].
      right. split_and!; [exact Hlen | | exact Hshort].
      apply (lastAcquired_setWorker
               (setPointers (<[Z.to_nat (chunkIndex j) := Some a]> (bufferPointers s))
                  (setBuffers rest s)) w (WHasJob j) (WDownloading j a));
        first [assumption | discriminate].
    + destruct (_ <? _) in H; [discriminate|].
      destruct (indexOf _ _) in H; [|discriminate]. injection H as <-.
      assert (HcLast : S c = length plan).
      { destruct (decide (S c < length plan)%nat) as [Hlt|]; [|lia].
        exfalso. apply Hneq. rewrite Hsz. apply (plan_full c j Hc Hlt). }
      split.
      * simpl. apply Forall_app. split; [exact Hall|].
        constructor; [|constructor]. unfold zeros. rewrite length_replicate, Hsz. lia.
      * destruct Hlen as [Hlen | (_ & [_ Hlast] & _)].
        -- right. simpl. rewrite length_app. simpl. split_and!; [lia | |].
           ++ split.
              ** simpl. pose proof (inv_jobs _ _ _ _ _ I) as [_ Hjl].
                 unfold pulled in Hrange.
                 destruct (jobs s); [reflexivity | simpl in *; lia].
              ** simpl. intros w0 j0 H0 Hidx.
                 destruct (decide (w0 = w)) as [-> | Hne].
                 --- rewrite list_lookup_insert_eq in H0
                       by (eapply lookup_lt_Some; eassumption).
                     discriminate.
                 --- rewrite list_lookup_insert_ne in H0 by congruence.
                     destruct (held_lookup W t plan nw plan_index s w0 (WHasJob j0) j0
                                 I H0 eq_refl) as (c0 & Hc0 & Hci0 & _ & _).
                     assert (c0 = c) by lia. subst c0.
                     assert (j0 = j) by congruence. subst j0.
                     apply Hne.
                     eapply (held_distinct W t plan nw plan_index s w0 w); try eassumption;
                       reflexivity.
           ++ exists j. split; [|rewrite <- Hsz; exact Hneq].
              rewrite last_lookup. rewrite <- HcLast. simpl. exact Hc.
        -- exfalso. apply (Hlast w j Ew). rewrite Hci. lia.
  - unfold stepDownload in H.
    destruct (workers s !! w) as [[|j|j a|j a]|] eqn:Ew; try discriminate.
    destruct (heap s !! a) as [old|] eqn:Ea; try discriminate.
    assert (Hold : forall data,
              (length (writeAt old data) <= Z.to_nat (downloadChunkSize t))%nat).
    { intros data. rewrite length_writeAt.
      rewrite Forall_lookup in Hall. apply (Hall a old Ea). }
    assert (G : forall data err,
              heapInv t plan nw (logEvent (EvDownloaded w (chunkIndex j) err)
                        (setWorker w (WSignal j a)
                          (recordErr err (setHeap (<[a := writeAt old data]> (heap s)) s))))).
    { intros data err. split.
      - destruct err; simpl; apply Forall_insert; auto.
      - destruct Hlen as [Hlen | (Hlen & Hlast & Hshort)].
        + left. destruct err; simpl; rewrite length_insert; exact Hlen.
        + right. split_and!; [destruct err; simpl; rewrite length_insert; exact Hlen | |
                              exact Hshort].
          destruct Hlast as [Hj Hl]. split; [destruct err; exact Hj|].
          intros w0 j0 H0.
          assert (H1 : <[w := WSignal j a]> (workers s) !! w0 = Some (WHasJob j0))
            by (destruct err; exact H0).
          destruct (decide (w0 = w)) as [-> | Hne].
          * rewrite list_lookup_insert_eq in H1 by (eapply lookup_lt_Some; eassumption).
            discriminate.
          * rewrite list_lookup_insert_ne in H1 by congruence. eapply Hl, H1. }
    destruct (rangedGet W j) as [data err]. injection H as <-. apply G.
  - unfold stepSignal in H.
    destruct (workers s !! w) as [[|j|j a|j a]|] eqn:Ew; try discriminate.
    destruct (indexOf _ _) as [[|]|]; try discriminate.
    destruct (copier s) as [i| | | |] eqn:Ec; try discriminate.
    destruct (_ =? _)%nat; try discriminate.
    injection H as <-. split; [exact Hall|].
    destruct Hlen as [Hlen | (Hlen & Hlast & Hshort)]; [left; exact Hlen|].
    right. split_and!; [exact Hlen | | exact Hshort].
    apply (lastAcquired_setWorker (setCopier (CWrite i (chunkIndex j)) s)
             w (WSignal j a) WIdle);
      first [assumption | discriminate].
  - unfold stepReceiveClosed in H.
    destruct (copier s) as [i| | | |]; try discriminate.
    destruct (copyChannel s !! i) as [[|]|]; try discriminate.
    injection H as <-. split; assumption.
  - unfold stepWriteFile in H.
    destruct (copier s) as [|i cur| | |]; try discriminate.
    destruct (indexOf _ _) as [[a|]|]; try discriminate.
    destruct (heap s !! a) as [buf|]; try discriminate.
    destruct (fileWrite W cur buf) as [n [e|]]; injection H as <-; split; assumption.
  - unfold stepReleaseBuffer in H.
    destruct (copier s) as [| |i cur| |]; try discriminate.
    destruct (indexOf _ _) as [[a|]|]; try discriminate.
    destruct (_ <? _)%nat; try discriminate.
    injection H as <-. split; assumption.
  - unfold stepDone in H.
    destruct (copier s) as [| | |i cur|]; try discriminate.
    destruct (_ <? _); try discriminate.
    destruct (copyChannel s !! i) as [[|]|]; try discriminate.
    injection H as <-. split; assumption.
  - unfold stepReturn in H.
    destruct (returned s); try discriminate.
    destruct (_ =? _); try discriminate.
    injection H as <-. split; assumption.
Qed.

Lemma run_heapInv schedule : forall s s',
  inv W t plan nw s -> heapInv t plan nw s -> run W t schedule s = Next s' ->
  heapInv t plan nw s'.
Proof.
  induction schedule as [|a rest IH]; intros s s' I K H; simpl in H.
  - injection H as <-. exact K.
  - destruct (step W t a s) as [s1| |] eqn:E; try discriminate.
    apply (IH s1 s'); [|eapply step_heapInv; eassumption | exact H].
    eapply (step_inv W t plan nw); eassumption.
Qed.

End Memory.

Lemma spawn_heap t s0 :
  spawn t = Some s0 ->
  heap s0 = replicate (length (workers s0)) (zeros (downloadChunkSize t)).
Proof.
  unfold spawn. intros H.
  destruct (numberOfChunks _ _) as [n|]; [|discriminate].
  destruct (n <? 0); [discriminate|].
  destruct (numberOfWorkers _ _ <? 0); [discriminate|].
  destruct (_ && _); [discriminate|].
  injection H as <-. simpl. rewrite length_replicate. reflexivity.
Qed.

(** X6: the memory of a transfer.  Besides the [min(concurrency, chunks)]
    pool arrays made at the start, [downloadFileInParallel] allocates at
    most one more array, for the last chunk when it is shorter than the
    chunk size; no array is longer than a chunk, and when the chunk size
    divides the size of the object nothing is allocated after the start. *)
Theorem heap_bounded (W : world) (t : transfer) (schedule : list action) (s0 s : state) :
  validTransfer t -> spawn t = Some s0 -> run W t schedule s0 = Next s ->
  exists plan nw,
    planJobs (totalBytes t) (downloadChunkSize t) = Some plan /\
    Z.of_nat nw = Z.min (downloadConcurrency t) (Z.of_nat (length plan)) /\
    (nw <= length (heap s) <= S nw)%nat /\
    Forall (fun b : list byte => (length b <= Z.to_nat (downloadChunkSize t))%nat)
           (heap s) /\
    (totalBytes t mod downloadChunkSize t = 0 -> length (heap s) = nw).
Proof.
  intros Hvalid Hspawn Hrun.
  destruct (spawn_inv W t Hvalid)
    as (s0' & plan & nw & Hs0 & Hplan & Hjobs & Hnw & Hnw1 & HN1 & Hidx & Hsize & Hfull
        & I0 & _ & _ & Hworkers & _).
  assert (s0' = s0) by congruence. subst s0'.
  assert (K0 : heapInv t plan nw s0).
  { unfold heapInv. rewrite (spawn_heap t s0 Hs0), Hworkers. split.
    - apply Forall_replicate. unfold zeros. rewrite length_replicate. lia.
    - left. apply length_replicate. }
  destruct (run_heapInv W t plan nw Hidx Hsize Hfull schedule s0 s I0 K0 Hrun)
    as [Hall Hlen].
  exists plan, nw. split_and!; try assumption.
  - destruct Hlen as [-> | (-> & _)]; lia.
  - destruct Hlen as [-> | (-> & _)]; lia.
  - intros Hdiv. destruct Hlen as [Hlen | (_ & _ & j & Hlast & Hshort)]; [exact Hlen|].
    exfalso. apply Hshort.
    destruct Hvalid as (Hcs & Hlt & Hmax & _).
    destruct (planJobs_closed_form _ _ Hcs Hlt Hmax)
      as (plan' & n & _ & Hplan' & _ & Hl & Hceil & Hform).
    assert (plan' = plan) by congruence. subst plan'. subst n.
    rewrite last_lookup in Hlast.
    destruct (Hform _ j Hlast) as (_ & Hs & He).
    apply Z.div_exact in Hdiv; [|lia].
    set (q := totalBytes t / downloadChunkSize t) in *.
    assert (q = Z.of_nat (length plan)) by nia.
    unfold chunkLen. rewrite Hs, He. nia.
Qed.

Lemma heap_bounded_witness :
  exists s, runTransfer (sampleWorld sampleObject noFailure) sampleTransfer
              sampleSchedule = Next s /\
            length (heap s) = 3%nat /\
            Forall (fun b : list byte => (length b <= 5)%nat) (heap s).
Proof.
  destruct (spawn sampleTransfer) as [s0|] eqn:E0; [|vm_compute in E0; discriminate].
  destruct (run (sampleWorld sampleObject noFailure) sampleTransfer sampleSchedule s0)
    as [s| |] eqn:E1;
    [|unfold spawn in E0; vm_compute in E0; injection E0 as <-; vm_compute in E1; discriminate ..].
  destruct (heap_bounded (sampleWorld sampleObject noFailure) sampleTransfer
              sampleSchedule s0 s
              ltac:(unfold validTransfer; vm_compute; repeat split; congruence) E0 E1)
    as (plan & nw & _ & _ & _ & Hall & _).
  exists s. unfold runTransfer. rewrite E0. split_and!; [exact E1 | | exact Hall].
  vm_compute in E0. injection E0 as <-. vm_compute in E1. injection E1 as <-.
  reflexivity.
Defined.

(** ** Order of the requests and the writes *)

Lemma step_events W t a s s' :
  step W t a s = Next s' ->
  events s' = events s \/
  (exists w c, events s' = events s ++ [EvWorker w c]) \/
  (exists w c e, events s' = events s ++ [EvDownloaded w c e]) \/
  (exists i cur buf e, copier s = CWrite i cur /\
                       events s' = events s ++ [EvCopied cur buf e]).
Proof.
  intros H. destruct a as [w|w|w|w| | | | |]; simpl in H.
  - unfold stepReceiveJob in H.
    destruct (workers s !! w) as [[| | |]|]; try discriminate.
    destruct (jobs s); try discriminate.
    injection H as <-. left. reflexivity.
  - unfold stepAcquireBuffer in H.
    destruct (workers s !! w) as [[|j|j a0|j a0]|]; try discriminate.
    destruct (downloadBuffers s) as [|a rest]; try discriminate.
    cbv zeta in H.
    destruct (_ =? _) in H.
    + destruct (indexOf _ _) in H; [|discriminate]. injection H as <-.
      right. left. eexists _, _. reflexivity.
    + destruct (_ <? _) in H; [discriminate|].
      destruct (indexOf _ _) in H; [|discriminate]. injection H as <-.
      right. left. eexists _, _. reflexivity.
  - unfold stepDownload in H.
    destruct (workers s !! w) as [[|j|j a|j a]|]; try discriminate.
    destruct (heap s !! a) as [old|]; try discriminate.
    destruct (rangedGet W j) as [data [e|]]; injection H as <-;
      right; right; left; eexists _, _, _; reflexivity.
  - unfold stepSignal in H.
    destruct (workers s !! w) as [[|j|j a|j a]|]; try discriminate.
    destruct (indexOf _ _) as [[|]|]; try discriminate.
    destruct (copier s) as [i| | | |]; try discriminate.
    destruct (_ =? _)%nat; try discriminate.
    injection H as <-. left. reflexivity.
  - unfold stepReceiveClosed in H.
    destruct (copier s) as [i| | | |]; try discriminate.
    destruct (copyChannel s !! i) as [[|]|]; try discriminate.
    injection H as <-. left. reflexivity.
  - unfold stepWriteFile in H.
    destruct (copier s) as [|i cur| | |] eqn:Ec; try discriminate.
    destruct (indexOf _ _) as [[a|]|]; try discriminate.
    destruct (heap s !! a) as [buf|]; try discriminate.
    destruct (fileWrite W cur buf) as [n [e|]]; injection H as <-;
      right; right; right; eexists _, _, _, _; (split; [reflexivity|]); reflexivity.
  - unfold stepReleaseBuffer in H.
    destruct (copier s) as [| |i cur| |]; try discriminate.
    destruct (indexOf _ _) as [[a|]|]; try discriminate.
    destruct (_ <? _)%nat; try discriminate.
    injection H as <-. left. reflexivity.
  - unfold stepDone in H.
    destruct (copier s) as [| | |i cur|]; try discriminate.
    destruct (_ <? _); try discriminate.
    destruct (copyChannel s !! i) as [[|]|]; try discriminate.
    injection H as <-. left. reflexivity.
  - unfold stepReturn in H.
    destruct (returned s); try discriminate.
    destruct (_ =? _); try discriminate.
    injection H as <-. left. reflexivity.
Qed.

Lemma snoc_split {A : Type} (l l1 l2 : list A) (e x : A) :
  l ++ [e] = l1 ++ x :: l2 ->
  (l2 = [] /\ l = l1 /\ e = x) \/ exists l2', l2 = l2' ++ [e] /\ l = l1 ++ x :: l2'.
Proof.
  intros H. destruct l2 as [|y l2 _] using rev_ind.
  - left. apply app_inj_tail in H as [-> ->]. auto.
  - right. rewrite app_comm_cons, app_assoc in H.
    apply app_inj_tail in H as [-> ->]. exists l2. auto.
Qed.

Lemma requestedBeforeCopied_snoc evs e :
  requestedBeforeCopied evs ->
  (forall c buffer err, e = EvCopied c buffer err -> c ∈ requested evs) ->
  requestedBeforeCopied (evs ++ [e]).
Proof.
  intros Hold Hnew before c buffer err after H.
  apply snoc_split in H as [(_ & -> & ->) | (after' & _ & ->)].
  - eapply Hnew. reflexivity.
  - eapply Hold. reflexivity.
Qed.

Section Order.

Variable W : world.
Variable t : transfer.
Variable plan : list chunk.
Variable nw : nat.

Hypothesis plan_index : forall c j, plan !! c = Some j -> chunkIndex j = Z.of_nat c.
Hypothesis plan_size : forall c j, plan !! c = Some j ->
  add64 (sub64 (endByte j) (startByte j)) 1 = chunkLen j /\
  0 < chunkLen j <= downloadChunkSize t.
Hypothesis plan_full : forall c j, plan !! c = Some j -> (S c < length plan)%nat ->
  chunkLen j = downloadChunkSize t.

Lemma step_requestedBeforeCopied s s' a :
  inv W t plan nw s -> requestedBeforeCopied (events s) -> step W t a s = Next s' ->
  requestedBeforeCopied (events s').
Proof.
  intros I Hold H.
  destruct (step_events W t a s s' H)
    as [-> | [(w & c & ->) | [(w & c & e & ->) | (i & cur & buf & e & Hc & ->)]]].
  - exact Hold.
  - apply requestedBeforeCopied_snoc; [exact Hold | discriminate].
  - apply requestedBeforeCopied_snoc; [exact Hold | discriminate].
  - apply requestedBeforeCopied_snoc; [exact Hold|].
    intros c buffer err E. injection E as <- _ _.
    pose proof (inv_copier _ _ _ _ _ I) as Hwf. rewrite Hc in Hwf.
    destruct Hwf as [Hi ->].
    destruct (lookup_lt_is_Some_2 plan i Hi) as [j Hj].
    destruct (inv_attempted _ _ _ _ _ I i j Hj) as [w Hw].
    { left. rewrite Hc. simpl. lia. }
    rewrite (plan_index i j Hj) in Hw. eapply requested_elem, Hw.
Qed.

Lemma run_requestedBeforeCopied schedule : forall s s',
  inv W t plan nw s -> requestedBeforeCopied (events s) ->
  run W t schedule s = Next s' -> requestedBeforeCopied (events s').
Proof.
  induction schedule as [|a rest IH]; intros s s' I K H; simpl in H.
  - injection H as <-. exact K.
  - destruct (step W t a s) as [s1| |] eqn:E; try discriminate.
    apply (IH s1 s'); [|eapply step_requestedBeforeCopied; eassumption | exact H].
    eapply (step_inv W t plan nw); eassumption.
Qed.

End Order.

Lemma spawn_events t s0 : spawn t = Some s0 -> events s0 = [].
Proof.
  unfold spawn. intros H.
  destruct (numberOfChunks _ _) as [n|]; [|discriminate].
  destruct (n <? 0); [discriminate|].
  destruct (numberOfWorkers _ _ <? 0); [discriminate|].
  destruct (_ && _); [discriminate|].
  injection H as <-. reflexivity.
Qed.

(** X7: the copy goroutine never writes a chunk that has not been
    downloaded: at every moment of a transfer, each [file.Write] of a chunk
    in the log is preceded by the completed ranged request of that chunk. *)
Theorem write_follows_download (W : world) (t : transfer) (schedule : list action)
    (s0 s : state) :
  validTransfer t -> spawn t = Some s0 -> run W t schedule s0 = Next s ->
  requestedBeforeCopied (events s).
Proof.
  intros Hvalid Hspawn Hrun.
  destruct (spawn_inv W t Hvalid)
    as (s0' & plan & nw & Hs0 & Hplan & Hjobs & Hnw & Hnw1 & HN1 & Hidx & Hsize & Hfull
        & I0 & _).
  assert (s0' = s0) by congruence. subst s0'.
  eapply (run_requestedBeforeCopied W t plan nw Hidx Hsize Hfull); try eassumption.
  rewrite (spawn_events t s0 Hs0). intros before c buffer err after H.
  destruct before; discriminate.
Qed.

Lemma write_follows_download_witness :
  exists s, runTransfer (sampleWorld sampleObject noFailure) sampleTransfer
              sampleSchedule = Next s /\
            requestedBeforeCopied (events s).
Proof.
  destruct (spawn sampleTransfer) as [s0|] eqn:E0; [|vm_compute in E0; discriminate].
  destruct (run (sampleWorld sampleObject noFailure) sampleTransfer sampleSchedule s0)
    as [s| |] eqn:E1;
    [|unfold spawn in E0; vm_compute in E0; injection E0 as <-; vm_compute in E1; discriminate ..].
  exists s. unfold runTransfer. rewrite E0. split; [exact E1|].
  apply (write_follows_download (sampleWorld sampleObject noFailure) sampleTransfer
           sampleSchedule s0 s
           ltac:(unfold validTransfer; vm_compute; repeat split; congruence) E0 E1).
Defined.

(** ** Splitting and joining paths *)

Lemma append_assoc (a b c : string) : ((a ++ b) ++ c = a ++ (b ++ c))%string.
Proof.
  induction a as [|x a IH]; simpl; congruence.
Qed.

Lemma strings_Split_app p q sep :
  strings_Split (p ++ String sep q) sep = strings_Split p sep ++ strings_Split q sep.
Proof.
  induction p as [|c p IH]; simpl.
  - rewrite Ascii.eqb_refl. reflexivity.
  - rewrite IH. destruct (Ascii.eqb c sep); [reflexivity|].
    pose proof (strings_Split_length p sep) as Hl.
    destruct (strings_Split p sep); [discriminate | reflexivity].
Qed.

Lemma strings_Split_plain s sep : countByte sep s = 0%nat -> strings_Split s sep = [s].
Proof.
  induction s as [|c s IH]; simpl; intros H; [reflexivity|].
  destruct (Ascii.eqb c sep); [discriminate|].
  rewrite IH by exact H. reflexivity.
Qed.

Lemma strings_Split_elements s sep :
  Forall (fun e => countByte sep e = 0%nat) (strings_Split s sep).
Proof.
  induction s as [|c s IH]; simpl.
  - repeat constructor.
  - destruct (Ascii.eqb c sep) eqn:E.
    + constructor; [reflexivity | exact IH].
    + destruct (strings_Split s sep) as [|p ps].
      * repeat constructor. simpl. rewrite E. reflexivity.
      * apply Forall_cons in IH as [Hp Hps]. constructor; [|exact Hps].
        simpl. rewrite E. exact Hp.
Qed.

(** Joining the pieces of a string gives the string back. *)
Lemma strings_Join_Split s c : strings_Join (strings_Split s c) (String c "") = s.
Proof.
  induction s as [|a s IH]; simpl; [reflexivity|].
  pose proof (strings_Split_length s c) as Hl.
  destruct (strings_Split s c) as [|x xs]; [discriminate|].
  destruct (Ascii.eqb_spec a c) as [-> | Hne].
  - change (strings_Join (""%string :: x :: xs) (String c ""))
      with (String c (strings_Join (x :: xs) (String c ""))).
    rewrite IH. reflexivity.
  - destruct xs as [|y ys].
    + simpl in *. rewrite IH. reflexivity.
    + change (strings_Join (String a x :: y :: ys) (String c ""))
        with (String a (strings_Join (x :: y :: ys) (String c ""))).
      rewrite IH. reflexivity.
Qed.

(** Splitting the join of slash-free elements gives the elements back. *)
Lemma strings_Split_Join l c :
  l <> [] -> Forall (fun e => countByte c e = 0%nat) l ->
  strings_Split (strings_Join l (String c "")) c = l.
Proof.
  induction l as [|e l IH]; intros Hne Hall; [congruence|].
  apply Forall_cons in Hall as [He Hl].
  destruct l as [|x xs].
  - simpl. apply strings_Split_plain, He.
  - change (strings_Join (e :: x :: xs) (String c ""))
      with (e ++ String c (strings_Join (x :: xs) (String c "")))%string.
    rewrite strings_Split_app, IH by (congruence || exact Hl).
    rewrite strings_Split_plain by exact He. reflexivity.
Qed.

Lemma GetS3Path_Some folder path key :
  GetS3Path folder path = Some key ->
  (4 <= length (strings_Split path "/"%char))%nat /\
  key = (folder ++ "/" ++
         strings_Join (drop (length (strings_Split path "/"%char) - 4)
                            (strings_Split path "/"%char)) "/")%string.
Proof.
  unfold GetS3Path. intros H.
  destruct (decide (4 <= length (strings_Split path "/"%char))%nat) as [Hlen | Hlen].
  - split; [exact Hlen|].
    change 4 with (Z.of_nat 4) in H. rewrite sliceFrom_last in H by exact Hlen.
    injection H as <-. reflexivity.
  - change 4 with (Z.of_nat 4) in H. rewrite sliceFrom_short in H by lia. discriminate.
Qed.

(** X8: the key computed by [GetS3Path] depends on the last four components
    of the path only: putting any directories in front of a path that has
    four components does not change its key. *)
Theorem GetS3Path_ignores_leading_directories (folder dir path : string) :
  (4 <= length (strings_Split path "/"%char))%nat ->
  GetS3Path folder (dir ++ "/" ++ path) = GetS3Path folder path /\
  GetS3Path folder path <> None.
Proof.
  intros Hlen. unfold GetS3Path.
  change (dir ++ "/" ++ path)%string with (dir ++ String "/" path)%string.
  rewrite strings_Split_app.
  set (l1 := strings_Split dir "/"%char). set (l2 := strings_Split path "/"%char).
  fold l2 in Hlen.
  change 4 with (Z.of_nat 4).
  rewrite !sliceFrom_last by (rewrite ?length_app; lia).
  split; [|discriminate].
  rewrite length_app, drop_app_ge by lia.
  replace (length l1 + length l2 - 4 - length l1)%nat with (length l2 - 4)%nat by lia.
  reflexivity.
Qed.

Lemma GetS3Path_ignores_leading_directories_witness :
  GetS3Path "s3/Dir" "/data/seg-1/backups/20180101/20180101082233/file.txt" =
  GetS3Path "s3/Dir" "backups/20180101/20180101082233/file.txt".
Proof.
  apply (GetS3Path_ignores_leading_directories "s3/Dir" "/data/seg-1"
           "backups/20180101/20180101082233/file.txt").
  vm_compute. lia.
Defined.

(** X9: the keys produced by [GetS3Path] are fixed points of it: a key is
    the folder followed by four slash-free components, and mapping a key
    again with the same folder gives the same key. *)
Theorem GetS3Path_idempotent (folder path key : string) :
  GetS3Path folder path = Some key ->
  (exists a b c d,
     strings_Split key "/"%char = strings_Split folder "/"%char ++ [a; b; c; d]) /\
  GetS3Path folder key = Some key.
Proof.
  intros H. apply GetS3Path_Some in H as [Hlen ->].
  destruct (last_four_split _ Hlen) as (pre & a & b & c & d & Hsplit & Hdrop).
  rewrite Hdrop.
  assert (Hfree : Forall (fun e => countByte "/"%char e = 0%nat) [a; b; c; d]).
  { pose proof (strings_Split_elements path "/"%char) as Hall.
    rewrite Hsplit in Hall. apply Forall_app in Hall as [_ Hall]. exact Hall. }
  assert (Hkey : strings_Split (folder ++ "/" ++ strings_Join [a; b; c; d] "/") "/"%char
                 = strings_Split folder "/"%char ++ [a; b; c; d]).
  { change (folder ++ "/" ++ strings_Join [a; b; c; d] "/")%string
      with (folder ++ String "/" (strings_Join [a; b; c; d] "/"))%string.
    rewrite strings_Split_app. f_equal.
    apply (strings_Split_Join [a; b; c; d] "/"%char); [discriminate | exact Hfree]. }
  split; [exists a, b, c, d; exact Hkey|].
  unfold GetS3Path. rewrite Hkey.
  change 4 with (Z.of_nat 4).
  rewrite sliceFrom_last by (rewrite length_app; simpl; lia).
  rewrite length_app, drop_app_ge by (simpl; lia).
  replace (length (strings_Split folder "/"%char) + length [a; b; c; d] - 4
           - length (strings_Split folder "/"%char))%nat with 0%nat by (simpl; lia).
  reflexivity.
Qed.

Lemma GetS3Path_idempotent_witness :
  GetS3Path "s3/Dir" "s3/Dir/backups/20180101/20180101082233/file.txt" =
  Some "s3/Dir/backups/20180101/20180101082233/file.txt"%string.
Proof.
  apply (GetS3Path_idempotent "s3/Dir"
           "/data/seg-1/backups/20180101/20180101082233/file.txt").
  reflexivity.
Defined.

(** ** Deleting a backup *)

Lemma cleanElements_plain rooted l : forall out,
  forallb plainElement l = true -> cleanElements rooted l out = rev out ++ l.
Proof.
  induction l as [|e l IH]; intros out H; simpl.
  - rewrite app_nil_r. reflexivity.
  - simpl in H. apply andb_true_iff in H as [He Hl].
    unfold plainElement in He. apply andb_true_iff in He as [He He2].
    apply andb_true_iff in He as [He0 He1].
    apply negb_true_iff in He0, He1, He2. rewrite He0, He1, He2. simpl.
    rewrite IH by exact Hl. simpl. rewrite <- app_assoc. reflexivity.
Qed.

Lemma isDigit_not c x : isDigit x = false -> isDigit c = true -> Ascii.eqb c x = false.
Proof.
  intros Hx Hc. destruct (Ascii.eqb_spec c x) as [-> | ]; [congruence | reflexivity].
Qed.

Lemma digits_slash_free s :
  forallb isDigit (list_ascii_of_string s) = true -> countByte "/"%char s = 0%nat.
Proof.
  induction s as [|c s IH]; simpl; intros H; [reflexivity|].
  apply andb_true_iff in H as [Hc Hs].
  rewrite (isDigit_not c "/"%char eq_refl Hc), IH by exact Hs. reflexivity.
Qed.

Lemma digits_plain s :
  s <> ""%string -> forallb isDigit (list_ascii_of_string s) = true ->
  plainElement s = true.
Proof.
  destruct s as [|c s]; [congruence|]. intros _ H. simpl in H.
  apply andb_true_iff in H as [Hc _].
  unfold plainElement. simpl.
  rewrite (isDigit_not c "."%char eq_refl Hc). reflexivity.
Qed.

Lemma digits_substring s : forall n m,
  forallb isDigit (list_ascii_of_string s) = true ->
  forallb isDigit (list_ascii_of_string (substring n m s)) = true.
Proof.
  induction s as [|c s IH]; intros n m H.
  - destruct n, m; reflexivity.
  - simpl in H. apply andb_true_iff in H as [Hc Hs].
    destruct n as [|n]; simpl.
    + destruct m as [|m]; simpl; [reflexivity|].
      rewrite Hc. apply IH, Hs.
    + apply IH, Hs.
Qed.

Lemma plain_not_rooted s :
  forallb plainElement (strings_Split s "/"%char) = true -> startsWithSlash s = false.
Proof.
  destruct s as [|c s]; [reflexivity|]. simpl.
  destruct (Ascii.eqb c "/"%char); [|reflexivity].
  simpl. discriminate.
Qed.

(** The path deleted for a valid timestamp under a clean folder. *)
Lemma deletePath_clean folder timestamp date :
  cleanFolder folder = true -> IsValidTimestamp timestamp = true ->
  sliceString timestamp 0 8 = Some date ->
  filepath_Join [folder; "backups"%string; date; timestamp] =
    (folder ++ "/" ++ "backups" ++ "/" ++ date ++ "/" ++ timestamp)%string /\
  countByte "/"%char date = 0%nat /\ countByte "/"%char timestamp = 0%nat.
Proof.
  intros Hfolder Hts Hdate.
  unfold IsValidTimestamp in Hts. apply andb_true_iff in Hts as [Hlen Hdigits].
  apply Nat.eqb_eq in Hlen.
  unfold sliceString in Hdate. rewrite Hlen in Hdate. simpl in Hdate.
  injection Hdate as <-.
  pose proof (digits_substring timestamp 0 8 Hdigits) as Hd.
  assert (Hts0 : timestamp <> ""%string) by (intros ->; discriminate).
  assert (Hd0 : substring 0 8 timestamp <> ""%string).
  { destruct timestamp; [congruence | discriminate]. }
  set (date := substring 0 8 timestamp) in *.
  split_and!; [|apply digits_slash_free, Hd | apply digits_slash_free, Hdigits].
  assert (Hf0 : isEmpty folder = false).
  { destruct folder; [discriminate | reflexivity]. }
  unfold filepath_Join. rewrite Hf0.
  set (path := strings_Join [folder; "backups"%string; date; timestamp] "/").
  assert (Hpath : path = (folder ++ "/" ++ "backups" ++ "/" ++ date ++ "/" ++ timestamp)%string)
    by reflexivity.
  assert (Hsplit : strings_Split path "/"%char =
                   strings_Split folder "/"%char ++ ["backups"%string; date; timestamp]).
  { rewrite Hpath.
    change (folder ++ "/" ++ "backups" ++ "/" ++ date ++ "/" ++ timestamp)%string
      with (folder ++ String "/" ("backups" ++ String "/" (date ++ String "/" timestamp)))%string.
    rewrite !strings_Split_app.
    rewrite (strings_Split_plain date) by (apply digits_slash_free, Hd).
    rewrite (strings_Split_plain timestamp) by (apply digits_slash_free, Hdigits).
    reflexivity. }
  assert (Hplain : forallb plainElement (strings_Split path "/"%char) = true).
  { rewrite Hsplit, forallb_app. apply andb_true_iff. split; [exact Hfolder|].
    simpl. rewrite (digits_plain date Hd0 Hd), (digits_plain timestamp Hts0 Hdigits).
    reflexivity. }
  unfold filepath_Clean.
  assert (Hp0 : isEmpty path = false).
  { rewrite Hpath. destruct folder; [discriminate | reflexivity]. }
  rewrite Hp0. cbv zeta.
  rewrite (plain_not_rooted path Hplain).
  rewrite (cleanElements_plain false _ [] Hplain). simpl rev. rewrite app_nil_l.
  rewrite (strings_Join_Split path "/"%char), Hp0. exact Hpath.
Qed.

(** X10: [DeleteBackup] never panics and contacts S3 only for a timestamp of
    fourteen digits: for any other second argument, a missing one included,
    it returns an error without reading the configuration; for a valid one
    it reads the configuration and, when that succeeds, makes one batch
    delete, under the prefix [Folder/backups/<first 8 digits>/<timestamp>],
    whose result it returns. *)
Theorem DeleteBackup_validates_timestamp (E : deleteEnv) (args : list string) :
  exists err calls,
    DeleteBackup E args = Some (err, calls) /\
    (IsValidTimestamp (Args_Get args 1) = false -> err <> None /\ calls = []) /\
    (IsValidTimestamp (Args_Get args 1) = true ->
       exists date, sliceString (Args_Get args 1) 0 8 = Some date /\
         String.length date = 8%nat /\
         match sessionConfig E with
         | Err e => err = Some e /\ calls = [CallReadConfig]
         | Ok (folder, bucket) =>
             let prefix := filepath_Join [folder; "backups"%string; date; Args_Get args 1] in
             err = batchDelete E bucket prefix /\
             calls = [CallReadConfig; CallBatchDelete bucket prefix]
         end).
Proof.
  unfold DeleteBackup. set (timestamp := Args_Get args 1).
  destruct (isEmpty timestamp) eqn:Hempty.
  - eexists _, _. split; [reflexivity|]. split.
    + intros _. split; [discriminate | reflexivity].
    + intros Hv. destruct timestamp; discriminate.
  - destruct (IsValidTimestamp timestamp) eqn:Hv; simpl.
    + pose proof Hv as Hv'. unfold IsValidTimestamp in Hv'.
      apply andb_true_iff in Hv' as [Hlen _]. apply Nat.eqb_eq in Hlen.
      assert (Hdate : sliceString timestamp 0 8 = Some (substring 0 8 timestamp)).
      { unfold sliceString. rewrite Hlen. reflexivity. }
      rewrite Hdate.
      assert (Hl8 : String.length (substring 0 8 timestamp) = 8%nat).
      { clear -Hlen.
        do 14 (destruct timestamp as [|? timestamp]; [discriminate|]). reflexivity. }
      destruct (sessionConfig E) as [[folder bucket]|e].
      * eexists _, _. split; [reflexivity|]. split; [discriminate|].
        intros _. eexists. split_and!; reflexivity || exact Hl8.
      * eexists _, _. split; [reflexivity|]. split; [discriminate|].
        intros _. eexists. split_and!; reflexivity || exact Hl8.
    + eexists _, _. split; [reflexivity|]. split; [|discriminate].
      intros _. split; [discriminate | reflexivity].
Qed.

Lemma DeleteBackup_valid E args :
  IsValidTimestamp (Args_Get args 1) = true ->
  exists date,
    sliceString (Args_Get args 1) 0 8 = Some date /\
    DeleteBackup E args =
      match sessionConfig E with
      | Err e => Some (Some e, [CallReadConfig])
      | Ok (folder, bucket) =>
          Some (batchDelete E bucket
                  (filepath_Join [folder; "backups"%string; date; Args_Get args 1]),
                [CallReadConfig;
                 CallBatchDelete bucket
                   (filepath_Join [folder; "backups"%string; date; Args_Get args 1])])
      end.
Proof.
  intros Hv. unfold DeleteBackup. rewrite Hv.
  pose proof Hv as Hv'. unfold IsValidTimestamp in Hv'.
  apply andb_true_iff in Hv' as [Hlen _]. apply Nat.eqb_eq in Hlen.
  assert (Hempty : isEmpty (Args_Get args 1) = false).
  { destruct (Args_Get args 1); [discriminate | reflexivity]. }
  rewrite Hempty. simpl negb. cbv iota.
  assert (Hdate : sliceString (Args_Get args 1) 0 8
                  = Some (substring 0 8 (Args_Get args 1))).
  { unfold sliceString. rewrite Hlen. reflexivity. }
  rewrite Hdate. eexists. split; [reflexivity|].
  destruct (sessionConfig E) as [[folder bucket]|e]; reflexivity.
Qed.

(** X11: the prefix deleted by [DeleteBackup] is the one under which
    [GetS3Path] stores the files of that backup.  When the configured
    folder is a relative path in clean form, the key of a local file
    [<dir>/backups/<date>/<timestamp>/<file>], where [<date>] is the first
    eight digits of the timestamp, is the deleted prefix followed by "/"
    and the file name. *)
Theorem DeleteBackup_covers_backup_keys (E : deleteEnv) (args : list string)
    (folder bucket dir file : string) :
  IsValidTimestamp (Args_Get args 1) = true ->
  sessionConfig E = Ok (folder, bucket) ->
  cleanFolder folder = true ->
  countByte "/"%char file = 0%nat ->
  exists date prefix,
    sliceString (Args_Get args 1) 0 8 = Some date /\
    DeleteBackup E args =
      Some (batchDelete E bucket prefix, [CallReadConfig; CallBatchDelete bucket prefix]) /\
    prefix = (folder ++ "/backups/" ++ date ++ "/" ++ Args_Get args 1)%string /\
    GetS3Path folder (strings_Join [dir; "backups"%string; date; Args_Get args 1; file] "/")
      = Some (prefix ++ "/" ++ file)%string.
Proof.
  intros Hv Hconfig Hfolder Hfile.
  destruct (DeleteBackup_valid E args Hv) as (date & Hdate & Hdel).
  rewrite Hconfig in Hdel.
  destruct (deletePath_clean folder _ date Hfolder Hv Hdate) as (Hjoin & Hd & Hts).
  exists date, (filepath_Join [folder; "backups"%string; date; Args_Get args 1]).
  split_and!; [exact Hdate | exact Hdel | exact Hjoin |].
  rewrite Hjoin. set (timestamp := Args_Get args 1) in *.
  unfold GetS3Path.
  assert (Hsplit : strings_Split
                     (strings_Join [dir; "backups"%string; date; timestamp; file] "/")
                     "/"%char =
                   strings_Split dir "/"%char ++ ["backups"%string; date; timestamp; file]).
  { change (strings_Join [dir; "backups"%string; date; timestamp; file] "/")
      with (dir ++ String "/" ("backups" ++ String "/" (date ++ String "/"
              (timestamp ++ String "/" file))))%string.
    rewrite !strings_Split_app.
    rewrite (strings_Split_plain date), (strings_Split_plain timestamp),
      (strings_Split_plain file) by assumption.
    reflexivity. }
  rewrite Hsplit. change 4 with (Z.of_nat 4).
  rewrite sliceFrom_last by (rewrite length_app; simpl; lia).
  rewrite length_app, drop_app_ge by (simpl; lia).
  replace (length (strings_Split dir "/"%char) +
           length ["backups"%string; date; timestamp; file] - 4
           - length (strings_Split dir "/"%char))%nat with 0%nat by (simpl; lia).
  simpl drop. f_equal.
  change (strings_Join ["backups"%string; date; timestamp; file] "/")
    with ("backups" ++ "/" ++ date ++ "/" ++ timestamp ++ "/" ++ file)%string.
  rewrite !append_assoc. reflexivity.
Qed.

Lemma DeleteBackup_covers_backup_keys_witness :
  DeleteBackup sampleDelete ["config.yaml"; "20180101082233"]%string =
    Some (None, [CallReadConfig;
                 CallBatchDelete "bucket_name" "s3/Dir/backups/20180101/20180101082233"]) /\
  GetS3Path "s3/Dir" "/data/seg-1/backups/20180101/20180101082233/file.txt" =
    Some "s3/Dir/backups/20180101/20180101082233/file.txt"%string.
Proof.
  destruct (DeleteBackup_covers_backup_keys sampleDelete
              ["config.yaml"; "20180101082233"]%string
              "s3/Dir" "bucket_name" "/data/seg-1" "file.txt"
              eq_refl eq_refl eq_refl eq_refl)
    as (date & prefix & Hdate & Hdel & Hprefix & Hkey).
  vm_compute in Hdate. injection Hdate as <-.
  subst prefix. split; [exact Hdel | exact Hkey].
Defined.

Lemma DeleteBackup_validates_timestamp_witness :
  exists err,
    DeleteBackup sampleDelete ["config.yaml"; "2018-01-01"]%string = Some (err, []) /\
    err <> None.
Proof.
  destruct (DeleteBackup_validates_timestamp sampleDelete
              ["config.yaml"; "2018-01-01"]%string)
    as (err & calls & Heq & Hinvalid & _).
  destruct (Hinvalid eq_refl) as [Herr ->].
  exists err. split; assumption.
Defined.

Lemma cleanElements_app rooted l1 : forall l2 out,
  forallb plainElement l1 = true ->
  cleanElements rooted (l1 ++ l2) out = cleanElements rooted l2 (rev l1 ++ out).
Proof.
  induction l1 as [|e l1 IH]; intros l2 out H; simpl; [reflexivity|].
  simpl in H. apply andb_true_iff in H as [He Hl].
  unfold plainElement in He. apply andb_true_iff in He as [He He2].
  apply andb_true_iff in He as [He0 He1].
  apply negb_true_iff in He0, He1, He2. rewrite He0, He1, He2. simpl.
  rewrite IH by exact Hl. rewrite <- app_assoc. reflexivity.
Qed.

Lemma prefix_app (f a b : string) :
  String.prefix (f ++ a) (f ++ b) = String.prefix a b.
Proof.
  induction f as [|c f IH]; simpl; [reflexivity|].
  destruct (ascii_dec c c); [exact IH | congruence].
Qed.

(** X12: a configured folder that ends with "/" breaks the agreement of
    X11: [GetS3Path] keeps the doubled slash in the key, [filepath.Join]
    removes it from the prefix, so that the prefix deleted by
    [DeleteBackup] is not a prefix of the keys of the backup. *)
Theorem DeleteBackup_misses_keys_of_slash_folder (E : deleteEnv) (args : list string)
    (folder bucket dir file : string) :
  IsValidTimestamp (Args_Get args 1) = true ->
  sessionConfig E = Ok ((folder ++ "/")%string, bucket) ->
  cleanFolder folder = true ->
  countByte "/"%char file = 0%nat ->
  exists date prefix key,
    sliceString (Args_Get args 1) 0 8 = Some date /\
    DeleteBackup E args =
      Some (batchDelete E bucket prefix, [CallReadConfig; CallBatchDelete bucket prefix]) /\
    GetS3Path (folder ++ "/")
      (strings_Join [dir; "backups"%string; date; Args_Get args 1; file] "/") = Some key /\
    String.prefix prefix key = false.
Proof.
  intros Hv Hconfig Hfolder Hfile.
  destruct (DeleteBackup_valid E args Hv) as (date & Hdate & Hdel).
  rewrite Hconfig in Hdel.
  destruct (deletePath_clean folder _ date Hfolder Hv Hdate) as (Hjoin & Hd & Hts).
  set (timestamp := Args_Get args 1) in *.
  assert (Hprefix : filepath_Join [(folder ++ "/")%string; "backups"%string; date; timestamp]
                    = (folder ++ "/" ++ "backups" ++ "/" ++ date ++ "/" ++ timestamp)%string).
  { rewrite <- Hjoin. unfold filepath_Join.
    assert (Hf0 : isEmpty folder = false) by (destruct folder; [discriminate | reflexivity]).
    assert (Hf1 : isEmpty (folder ++ "/") = false) by (destruct folder; reflexivity).
    rewrite Hf0, Hf1. unfold filepath_Clean.
    set (p1 := strings_Join [(folder ++ "/")%string; "backups"%string; date; timestamp] "/").
    set (p2 := strings_Join [folder; "backups"%string; date; timestamp] "/").
    assert (H1 : isEmpty p1 = false) by (unfold p1; destruct folder; reflexivity).
    assert (H2 : isEmpty p2 = false) by (unfold p2; destruct folder; reflexivity).
    assert (R1 : startsWithSlash p1 = startsWithSlash p2)
      by (unfold p1, p2; destruct folder; [discriminate | reflexivity]).
    rewrite H1, H2, R1. cbv zeta.
    assert (S2 : strings_Split p2 "/"%char =
                 strings_Split folder "/"%char ++ ["backups"%string; date; timestamp]).
    { change p2 with (folder ++ String "/" ("backups" ++ String "/"
                        (date ++ String "/" timestamp)))%string.
      rewrite !strings_Split_app.
      rewrite (strings_Split_plain date), (strings_Split_plain timestamp) by assumption.
      reflexivity. }
    assert (S1 : strings_Split p1 "/"%char =
                 strings_Split folder "/"%char ++
                 [""%string; "backups"%string; date; timestamp]).
    { replace p1 with (folder ++ String "/" ("" ++ String "/" ("backups" ++ String "/"
                        (date ++ String "/" timestamp))))%string
        by (unfold p1; simpl; rewrite append_assoc; reflexivity).
      rewrite !strings_Split_app.
      rewrite (strings_Split_plain date), (strings_Split_plain timestamp) by assumption.
      reflexivity. }
    rewrite S1, S2, !(cleanElements_app _ _ _ _ Hfolder). reflexivity. }
  rewrite Hprefix in Hdel.
  eexists date, _, _. split_and!; [exact Hdate | exact Hdel | |].
  - unfold GetS3Path.
    assert (Hsplit : strings_Split
                       (strings_Join [dir; "backups"%string; date; timestamp; file] "/")
                       "/"%char =
                     strings_Split dir "/"%char ++ ["backups"%string; date; timestamp; file]).
    { change (strings_Join [dir; "backups"%string; date; timestamp; file] "/")
        with (dir ++ String "/" ("backups" ++ String "/" (date ++ String "/"
                (timestamp ++ String "/" file))))%string.
      rewrite !strings_Split_app.
      rewrite (strings_Split_plain date), (strings_Split_plain timestamp),
        (strings_Split_plain file) by assumption.
      reflexivity. }
    rewrite Hsplit. change 4 with (Z.of_nat 4).
    rewrite sliceFrom_last by (rewrite length_app; simpl; lia).
    rewrite length_app, drop_app_ge by (simpl; lia).
    replace (length (strings_Split dir "/"%char) +
             length ["backups"%string; date; timestamp; file] - 4
             - length (strings_Split dir "/"%char))%nat with 0%nat by (simpl; lia).
    simpl drop. reflexivity.
  - rewrite append_assoc, prefix_app. reflexivity.
Qed.

Lemma DeleteBackup_misses_keys_of_slash_folder_witness :
  exists prefix key,
    DeleteBackup (mkDeleteEnv (Ok ("s3/Dir/", "bucket_name")%string) (fun _ _ => None)
                    (fun msg => msg))
      ["config.yaml"; "20180101082233"]%string =
      Some (None, [CallReadConfig; CallBatchDelete "bucket_name" prefix]) /\
    GetS3Path "s3/Dir/" "/data/seg-1/backups/20180101/20180101082233/file.txt" = Some key /\
    String.prefix prefix key = false.
Proof.
  destruct (DeleteBackup_misses_keys_of_slash_folder
              (mkDeleteEnv (Ok ("s3/Dir/", "bucket_name")%string) (fun _ _ => None)
                 (fun msg => msg))
              ["config.yaml"; "20180101082233"]%string
              "s3/Dir" "bucket_name" "/data/seg-1" "file.txt"
              eq_refl eq_refl eq_refl eq_refl)
    as (date & prefix & key & Hdate & Hdel & Hkey & Hmiss).
  vm_compute in Hdate. injection Hdate as <-.
  exists prefix, key. split_and!; assumption.
Defined.

(** ** Validation of the configuration *)

Lemma isEmpty_true s : isEmpty s = true <-> s = ""%string.
Proof.
  destruct s; simpl; split; congruence.
Qed.

Lemma isEmpty_false s : isEmpty s = false <-> s <> ""%string.
Proof.
  destruct s; simpl; split; congruence.
Qed.

Lemma isEmpty_append a b : isEmpty (a ++ b) = isEmpty a && isEmpty b.
Proof.
  destruct a; reflexivity.
Qed.

Lemma isEmpty_addIf b c m e :
  isEmpty (Plugin.addIf b (String c m) e) = isEmpty e && negb b.
Proof.
  unfold Plugin.addIf. destruct b; simpl.
  - rewrite !isEmpty_append. simpl. rewrite !andb_false_r. reflexivity.
  - rewrite andb_true_r. reflexivity.
Qed.

Lemma isEmpty_addErr (c : bool) err w e :
  isEmpty (if c then e else Plugin.addErr err w e) =
  isEmpty e && (c || match err with None => true | Some _ => false end).
Proof.
  unfold Plugin.addErr. destruct c; simpl; [rewrite andb_true_r; reflexivity|].
  destruct err; [|rewrite andb_true_r; reflexivity].
  rewrite !isEmpty_append. simpl. rewrite !andb_false_r. reflexivity.
Qed.

Lemma isEmpty_keys (k s : bool) c m c' m' e :
  isEmpty (if k then Plugin.addIf (negb s) (String c m) e
           else Plugin.addIf s (String c' m') e) =
  isEmpty e && Bool.eqb k s.
Proof.
  destruct k; rewrite isEmpty_addIf; destruct s; reflexivity.
Qed.

Lemma check_nonempty s : negb (isEmpty s) = true <-> s <> ""%string.
Proof.
  destruct s; simpl; split; congruence.
Qed.

Lemma check_keys a b :
  Bool.eqb (isEmpty a) (isEmpty b) = true <-> (a = ""%string <-> b = ""%string).
Proof.
  destruct a as [|c a], b as [|d b]; simpl.
  - tauto.
  - split; [discriminate|]. intros H. apply proj1 in H. specialize (H eq_refl).
    discriminate.
  - split; [discriminate|]. intros H. apply proj2 in H. specialize (H eq_refl).
    discriminate.
  - split; [|reflexivity]. intros _. split; discriminate.
Qed.

Lemma check_region r e :
  negb (((if isEmpty r then "unused" else r) =? "unused")%string && isEmpty e) = true <->
  (e = ""%string -> r <> ""%string /\ r <> "unused"%string).
Proof.
  destruct e as [|d e].
  - change (isEmpty "") with true. rewrite andb_true_r. destruct r as [|c r].
    + simpl. split; [discriminate | intros H; destruct (H eq_refl) as [H0 _]; congruence].
    + change (isEmpty (String c r)) with false. cbv iota.
      rewrite negb_true_iff, String.eqb_neq.
      split; [intros H _; split; [discriminate | exact H]|].
      intros H. apply H. reflexivity.
  - change (isEmpty (String d e)) with false. rewrite andb_false_r. simpl.
    split; [discriminate | reflexivity].
Qed.

Lemma check_encryption x :
  negb (negb ((if isEmpty x then "on" else x) =? "on")%string &&
        negb ((if isEmpty x then "on" else x) =? "off")%string) = true <->
  (x = ""%string \/ x = "on"%string \/ x = "off"%string).
Proof.
  destruct x as [|c x]; [simpl; tauto|].
  change (isEmpty (String c x)) with false. cbv iota.
  destruct (String.eqb_spec (String c x) "on") as [-> | Hon]; [simpl; tauto|].
  destruct (String.eqb_spec (String c x) "off") as [-> | Hoff]; [simpl; tauto|].
  simpl. split; [discriminate|]. intros [H | [H | H]]; congruence.
Qed.

Lemma check_parse s (err : option error) :
  (isEmpty s || match err with Some _ => false | None => true end) = true <->
  (s <> ""%string -> err = None).
Proof.
  destruct s as [|c s], err as [e|]; simpl; split; try congruence; try tauto.
  intros H. discriminate H. discriminate.
Qed.

(** An acceptable configuration passes the validation. *)
Lemma validation_verdict (P : Plugin.parsers) (config : Plugin.PluginConfig) :
  snd (Plugin.InitializeAndValidateConfig P config) = None <-> Plugin.acceptable P config.
Proof.
  unfold Plugin.InitializeAndValidateConfig, Plugin.acceptable. cbv zeta. simpl snd.
  match goal with
  | |- (if isEmpty ?t then _ else _) = _ <-> _ =>
      assert (E : isEmpty t = true <-> (if isEmpty t then None else Some t) = None)
        by (destruct (isEmpty t); split; congruence)
  end.
  rewrite <- E. clear E.
  rewrite !isEmpty_addErr, !isEmpty_addIf, isEmpty_keys, !isEmpty_addIf. simpl isEmpty.
  rewrite !andb_true_iff, !check_nonempty, check_keys, check_region, check_encryption,
    !check_parse.
  tauto.
Qed.

(** X13: what [InitializeAndValidateConfig] accepts.  It returns a nil
    error exactly when the executable path, the bucket and the folder are
    given, the access key id and the secret key are given together or not
    at all, a region other than "unused" or an endpoint is given, the
    encryption is absent, "on" or "off", and each chunk size and request
    count that is given parses.  No other field and no parsed value is
    examined. *)
Theorem config_accepted_iff (P : Plugin.parsers) (config : Plugin.PluginConfig) :
  snd (Plugin.InitializeAndValidateConfig P config) = None <-> Plugin.acceptable P config.
Proof.
  unfold Plugin.InitializeAndValidateConfig, Plugin.acceptable. cbv zeta. simpl snd.
  match goal with
  | |- (if isEmpty ?t then _ else _) = _ <-> _ =>
      assert (E : isEmpty t = true <-> (if isEmpty t then None else Some t) = None)
        by (destruct (isEmpty t); split; congruence)
  end.
  rewrite <- E. clear E.
  rewrite !isEmpty_addErr, !isEmpty_addIf, isEmpty_keys, !isEmpty_addIf. simpl isEmpty.
  rewrite !andb_true_iff, !check_nonempty, check_keys, check_region, check_encryption,
    !check_parse.
  tauto.
Qed.

Lemma config_accepted_iff_witness :
  snd (Plugin.InitializeAndValidateConfig Plugin.sampleParsers
         (Plugin.sampleConfig "10MB" "7")) = None.
Proof.
  apply (config_accepted_iff Plugin.sampleParsers (Plugin.sampleConfig "10MB" "7")).
  unfold Plugin.acceptable. simpl.
  repeat split;
    first [ discriminate | intros H; discriminate H
          | intros H; exfalso; apply H; reflexivity
          | intros _; reflexivity | left; reflexivity ].
Defined.


Lemma validation_fields (P : Plugin.parsers) (config : Plugin.PluginConfig) :
  let opt := Plugin.Options config in
  let opt' := Plugin.Options (fst (Plugin.InitializeAndValidateConfig P config)) in
  Plugin.ExecutablePath (fst (Plugin.InitializeAndValidateConfig P config)) =
    Plugin.ExecutablePath config /\
  Plugin.AwsAccessKeyId opt' = Plugin.AwsAccessKeyId opt /\
  Plugin.AwsSecretAccessKey opt' = Plugin.AwsSecretAccessKey opt /\
  Plugin.BackupMaxConcurrentRequests opt' = Plugin.BackupMaxConcurrentRequests opt /\
  Plugin.BackupMultipartChunksize opt' = Plugin.BackupMultipartChunksize opt /\
  Plugin.Bucket opt' = Plugin.Bucket opt /\
  Plugin.Encryption opt' =
    (if isEmpty (Plugin.Encryption opt) then "on"%string else Plugin.Encryption opt) /\
  Plugin.Endpoint opt' = Plugin.Endpoint opt /\
  Plugin.Folder opt' = Plugin.Folder opt /\
  Plugin.HttpProxy opt' = Plugin.HttpProxy opt /\
  Plugin.Region opt' =
    (if isEmpty (Plugin.Region opt) then "unused"%string else Plugin.Region opt) /\
  Plugin.RestoreMaxConcurrentRequests opt' = Plugin.RestoreMaxConcurrentRequests opt /\
  Plugin.RestoreMultipartChunksize opt' = Plugin.RestoreMultipartChunksize opt /\
  Plugin.PgPort opt' = Plugin.PgPort opt /\
  Plugin.BackupPluginVersion opt' = Plugin.BackupPluginVersion opt.
Proof.
  cbv zeta. split_and!; reflexivity.
Qed.

Lemma default_twice (d s : string) :
  d <> ""%string ->
  (if isEmpty (if isEmpty s then d else s) then d else (if isEmpty s then d else s)) =
  (if isEmpty s then d else s).
Proof.
  intros Hd. destruct s as [|c s]; simpl; [|reflexivity].
  destruct d; [congruence | reflexivity].
Qed.

(** X14: validation is idempotent.  [InitializeAndValidateConfig] leaves a
    configuration whose region and encryption are not empty, and
    validating that configuration again changes nothing and returns the
    same error. *)
Theorem config_validation_idempotent (P : Plugin.parsers)
    (config : Plugin.PluginConfig) :
  let r := Plugin.InitializeAndValidateConfig P config in
  Plugin.InitializeAndValidateConfig P (fst r) = r /\
  Plugin.Region (Plugin.Options (fst r)) <> ""%string /\
  Plugin.Encryption (Plugin.Options (fst r)) <> ""%string.
Proof.
  intros r.
  destruct (validation_fields P config)
    as (E0 & E1 & E2 & E3 & E4 & E5 & E6 & E7 & E8 & E9 & E10 & E11 & E12 & E13 & E14).
  cbv zeta in *. fold r in E0, E1, E2, E3, E4, E5, E6, E7, E8, E9, E10, E11, E12, E13, E14.
  split_and!.
  - unfold Plugin.InitializeAndValidateConfig at 1. cbv zeta.
    rewrite E0, E1, E2, E3, E4, E5, E6, E7, E8, E9, E10, E11, E12, E13, E14.
    rewrite !(default_twice "on"), !(default_twice "unused") by discriminate.
    reflexivity.
  - rewrite E10. destruct (Plugin.Region (Plugin.Options config)); discriminate.
  - rewrite E6. destruct (Plugin.Encryption (Plugin.Options config)); discriminate.
Qed.

Lemma blocked_without_workers W t schedule :
  0 < downloadChunkSize t -> downloadChunkSize t < totalBytes t ->
  totalBytes t + downloadChunkSize t - 1 <= int64_max ->
  downloadConcurrency t = 0 -> downloadFileInParallel W t schedule = Blocked.
Proof.
  intros Hcs Hlt Hmax Hconc.
  destruct (spawn_without_workers t Hcs Hlt Hmax Hconc)
    as (s0 & Hs0 & Hw & Hc & Hch & Hwg & Hret).
  unfold downloadFileInParallel. rewrite Hs0.
  destruct schedule as [|a rest]; simpl.
  - rewrite Hret. reflexivity.
  - rewrite (no_worker_blocked W t a s0 Hw Hc Hch Hwg). reflexivity.
Qed.

(** X15: the numbers of an accepted configuration are not checked, and
    [downloadFile] takes them as they are.  A
    [restore_max_concurrent_requests] that parses to 0 is accepted and
    makes every download of an object larger than a chunk block for ever;
    a [restore_multipart_chunksize] that parses to 0 is accepted and makes
    every download of a non-empty object panic on the division by the
    chunk size. *)
Theorem unchecked_restore_settings (P : Plugin.parsers) (config : Plugin.PluginConfig)
    (R : remote) (W : world) (size : Z) (schedule : list action) :
  Plugin.acceptable P config -> headObject R = Ok size ->
  exists config',
    Plugin.InitializeAndValidateConfig P config = (config', None) /\
    let concurrency := Plugin.DownloadConcurrency (Plugin.Options config') in
    let chunkSize := Plugin.DownloadChunkSize (Plugin.Options config') in
    (Plugin.RestoreMaxConcurrentRequests (Plugin.Options config) <> ""%string ->
     fst (Plugin.strconv_Atoi P
            (Plugin.RestoreMaxConcurrentRequests (Plugin.Options config))) = 0 ->
     0 < chunkSize -> chunkSize < size -> size + chunkSize - 1 <= int64_max ->
     downloadFile R W concurrency chunkSize schedule = Blocked) /\
    (Plugin.RestoreMultipartChunksize (Plugin.Options config) <> ""%string ->
     fst (Plugin.bytesize_Parse P
            (Plugin.RestoreMultipartChunksize (Plugin.Options config))) = 0 ->
     0 < size ->
     downloadFile R W concurrency chunkSize schedule = Panicked).
Proof.
  intros Hok Hhead. apply validation_verdict in Hok.
  destruct (Plugin.InitializeAndValidateConfig P config) as [config' err] eqn:E.
  simpl in Hok. subst err. exists config'. split; [reflexivity|].
  assert (Hc : Plugin.DownloadConcurrency (Plugin.Options config') =
               if isEmpty (Plugin.RestoreMaxConcurrentRequests (Plugin.Options config))
               then Plugin.DefaultConcurrency
               else fst (Plugin.strconv_Atoi P
                           (Plugin.RestoreMaxConcurrentRequests (Plugin.Options config)))).
  { unfold Plugin.InitializeAndValidateConfig in E. cbv zeta in E.
    injection E as <- _. reflexivity. }
  assert (Hs : Plugin.DownloadChunkSize (Plugin.Options config') =
               if isEmpty (Plugin.RestoreMultipartChunksize (Plugin.Options config))
               then Plugin.DefaultDownloadChunkSize
               else wrap64 (fst (Plugin.bytesize_Parse P
                                   (Plugin.RestoreMultipartChunksize
                                      (Plugin.Options config))))).
  { unfold Plugin.InitializeAndValidateConfig in E. cbv zeta in E.
    injection E as <- _. reflexivity. }
  cbv zeta. split.
  - intros Hne Hzero Hpos Hlt Hmax.
    apply isEmpty_false in Hne. rewrite Hne, Hzero in Hc. rewrite Hc.
    unfold downloadFile, getFileSize. rewrite Hhead.
    replace (size <=? _) with false by (symmetry; apply Z.leb_gt; lia).
    rewrite blocked_without_workers; [reflexivity | simpl; lia ..].
  - intros Hne Hzero Hpos.
    apply isEmpty_false in Hne. rewrite Hne, Hzero in Hs. rewrite Hs.
    change (wrap64 0) with 0.
    unfold downloadFile, getFileSize. rewrite Hhead.
    replace (size <=? 0) with false by (symmetry; apply Z.leb_gt; lia).
    unfold downloadFileInParallel, spawn, numberOfChunks, div64. simpl.
    reflexivity.
Qed.

Lemma unchecked_restore_settings_witness :
  downloadFile (sampleRemote 12 sampleObject) (sampleWorld sampleObject noFailure)
    7 0 sampleSchedule = Panicked /\
  snd (Plugin.InitializeAndValidateConfig Plugin.sampleParsers
         (Plugin.sampleConfig "0MB" "7")) = None.
Proof.
  assert (Hok : Plugin.acceptable Plugin.sampleParsers (Plugin.sampleConfig "0MB" "7")).
  { unfold Plugin.acceptable. simpl.
    repeat split;
      first [ discriminate | intros H; discriminate H
            | intros H; exfalso; apply H; reflexivity
            | intros _; reflexivity | left; reflexivity ]. }
  destruct (unchecked_restore_settings Plugin.sampleParsers
              (Plugin.sampleConfig "0MB" "7")
              (sampleRemote 12 sampleObject) (sampleWorld sampleObject noFailure)
              12 sampleSchedule Hok eq_refl) as (config' & E & _ & Hpanic).
  rewrite E. split; [|reflexivity].
  injection E as <-. apply Hpanic; [discriminate | reflexivity | lia].
Defined.

(** ** The worker pool of the directory transfers *)






Section Pool.

Variable localPath : string -> string.
Variable W : dirWorld.
Variable fileList : list string.

Local Abbreviation PInv := (poolInv localPath W fileList).








End Pool.






(** ** The sequential restore of a directory *)

(** X18: [RestoreDirectory] takes the listed keys in order, skips those
    that end with "/" and stops at the first failure.  It returns nil
    exactly when every file key was created and downloaded, having made
    one [os.Create] and one [downloadFile] per file and nothing else.
    Otherwise it returns the error of the first file whose create or
    download fails and touches no later file; after a failed download it
    calls [os.Remove] with the bare file name, not with the path
    [dirName/name] that it created. *)
Theorem RestoreDirectory_stops_at_first_failure (W : dirWorld) (dirName : string)
    (keys : list string) :
  exists restored,
    Forall (fileOk (restorePath dirName) W) restored /\
    let done :=
      concat (map (fun key => [CallOpen (restorePath dirName key) None;
                               CallTransfer key None]) restored) in
    match RestoreDirectory W dirName keys with
    | (None, calls) => restored = List.filter isFileKey keys /\ calls = done
    | (Some e, calls) =>
        exists key rest name,
          List.filter isFileKey keys = restored ++ key :: rest /\
          restorePath dirName key = (dirName ++ "/" ++ name)%string /\
          (osOpen W (restorePath dirName key) = Some e /\
           calls = done ++ [CallOpen (restorePath dirName key) (Some e)]
           \/
           osOpen W (restorePath dirName key) = None /\ transferFile W key = Some e /\
           calls = done ++ [CallOpen (restorePath dirName key) None;
                            CallTransfer key (Some e); CallRemove name])
    end.
Proof.
  induction keys as [|key keys IH].
  - exists []. split; [constructor|]. simpl. auto.
  - assert (Hf : List.filter isFileKey (key :: keys) =
                 if strings_HasSuffix key "/" then List.filter isFileKey keys
                 else key :: List.filter isFileKey keys).
    { simpl. unfold isFileKey at 1. destruct (strings_HasSuffix key "/"); reflexivity. }
    rewrite Hf. clear Hf. cbn [RestoreDirectory].
    destruct (strings_HasSuffix key "/") eqn:Hsuffix.
    + exact IH.
    + fold (restorePath dirName key).
      set (name := if strings_Contains key "/"
                   then List.last (strings_Split key "/"%char) ""%string
                   else ""%string).
      destruct (osOpen W (restorePath dirName key)) as [e|] eqn:Hopen.
      * exists []. split; [constructor|]. simpl.
        exists key, (List.filter isFileKey keys), name.
        split_and!; [reflexivity | reflexivity |]. left. auto.
      * destruct (transferFile W key) as [e|] eqn:Htransfer.
        -- exists []. split; [constructor|]. simpl.
           exists key, (List.filter isFileKey keys), name.
           split_and!; [reflexivity | reflexivity |]. right. auto.
        -- destruct IH as (restored & Hok & IH).
           destruct (RestoreDirectory W dirName keys) as [[e|] calls].
           ++ destruct IH as (key' & rest & name' & Hfiles & Hpath & Hcalls).
              exists (key :: restored). split; [constructor; [split|]; assumption|].
              exists key', rest, name'. rewrite Hfiles.
              split_and!; [reflexivity | exact Hpath |].
              destruct Hcalls as [(Ho & ->) | (Ho & Ht & ->)]; [left | right];
                split_and!; try assumption; reflexivity.
           ++ destruct IH as [-> ->].
              exists (key :: List.filter isFileKey keys).
              split; [constructor; [split|]; assumption|].
              split; reflexivity.
Qed.

Lemma RestoreDirectory_stops_at_first_failure_witness :
  RestoreDirectory (mkDirWorld (fun _ => None)
                      (fun key => if strings_Contains key "b.gz"
                                  then Some "NoSuchKey"%string else None))
    "dir" sampleKeys =
  (Some "NoSuchKey"%string,
   [CallOpen "dir/a.gz" None;
    CallTransfer "backups/20180101/20180101082233/a.gz" None;
    CallOpen "dir/b.gz" None;
    CallTransfer "backups/20180101/20180101082233/b.gz" (Some "NoSuchKey"%string);
    CallRemove "b.gz"]).
Proof.
  pose proof (RestoreDirectory_stops_at_first_failure
                (mkDirWorld (fun _ => None)
                   (fun key => if strings_Contains key "b.gz"
                               then Some "NoSuchKey"%string else None))
                "dir" sampleKeys) as H.
  reflexivity.
Defined.

(** ** Local file names of a restored directory *)

Lemma strings_HasSuffix_slash c s :
  strings_HasSuffix (String c s) "/" =
  if isEmpty s then Ascii.eqb c "/"%char else strings_HasSuffix s "/".
Proof.
  unfold strings_HasSuffix. cbn [String.length Nat.leb Nat.sub].
  rewrite Nat.sub_0_r. destruct s as [|d s].
  - simpl. destruct (Ascii.eqb c "/"%char); reflexivity.
  - cbn [String.length substring isEmpty Nat.leb Nat.sub]. rewrite Nat.sub_0_r.
    reflexivity.
Qed.

Lemma last_cons_cons {A : Type} (x y : A) (l : list A) (d : A) :
  List.last (x :: y :: l) d = List.last (y :: l) d.
Proof.
  reflexivity.
Qed.

(** A non-empty key that does not end with "/": its trailing slashes are
    none, and its last component is not empty and has no "/". *)
Lemma file_key_last s :
  s <> ""%string -> strings_HasSuffix s "/" = false ->
  stripTrailingSlashes s = s /\
  List.last (strings_Split s "/"%char) ""%string <> ""%string /\
  countByte "/"%char (List.last (strings_Split s "/"%char) ""%string) = 0%nat.
Proof.
  induction s as [|c s IH]; intros Hne Hs; [congruence|].
  rewrite strings_HasSuffix_slash in Hs.
  destruct s as [|d s].
  - simpl in Hs. simpl. rewrite Hs. simpl. rewrite Hs. split_and!; [reflexivity | discriminate | reflexivity].
  - cbn [isEmpty] in Hs. destruct (IH ltac:(discriminate) Hs) as (Hstrip & Hlast & Hfree).
    split_and!.
    + cbn [stripTrailingSlashes]. cbn [stripTrailingSlashes] in Hstrip.
      rewrite Hstrip. reflexivity.
    + cbn [strings_Split]. cbn [strings_Split] in Hlast.
      pose proof (strings_Split_length (String d s) "/"%char) as Hl.
      cbn [strings_Split] in Hl.
      destruct (Ascii.eqb c "/"%char).
      * destruct (if Ascii.eqb d "/"%char then _ else _) as [|p ps]; [discriminate|].
        rewrite last_cons_cons. exact Hlast.
      * destruct (if Ascii.eqb d "/"%char then _ else _) as [|p [|q ps]];
          [discriminate | simpl; discriminate |].
        rewrite !last_cons_cons in *. exact Hlast.
    + cbn [strings_Split]. cbn [strings_Split] in Hlast, Hfree.
      pose proof (strings_Split_length (String d s) "/"%char) as Hl.
      cbn [strings_Split] in Hl.
      destruct (Ascii.eqb c "/"%char) eqn:Ec.
      * destruct (if Ascii.eqb d "/"%char then _ else _) as [|p ps]; [discriminate|].
        rewrite last_cons_cons. exact Hfree.
      * destruct (if Ascii.eqb d "/"%char then _ else _) as [|p [|q ps]];
          [discriminate | |].
        -- simpl in *. rewrite Ec. exact Hfree.
        -- rewrite !last_cons_cons in *. exact Hfree.
Qed.

Lemma contains_nonempty s sub :
  sub <> ""%string -> strings_Contains s sub = true -> s <> ""%string.
Proof.
  intros Hsub H ->. destruct sub; [congruence | discriminate].
Qed.

(** X19: the local file of a restored key.  For a key that contains "/"
    and does not end with it, the sequential and the parallel restore of a
    directory create the same file: [dirName], "/", and the last component
    of the key, which is not empty and contains no "/".  For a key without
    "/" they differ: [RestoreDirectoryParallel] uses the key as the file
    name, [RestoreDirectory] leaves the name empty and creates
    [dirName/]. *)
Theorem restored_file_name (dirName key : string) :
  isFileKey key = true ->
  (strings_Contains key "/" = true ->
     exists name,
       restorePath dirName key = (dirName ++ "/" ++ name)%string /\
       restorePathParallel dirName key = (dirName ++ "/" ++ name)%string /\
       name = List.last (strings_Split key "/"%char) ""%string /\
       name <> ""%string /\ countByte "/"%char name = 0%nat) /\
  (strings_Contains key "/" = false ->
     restorePath dirName key = (dirName ++ "/")%string /\
     restorePathParallel dirName key = (dirName ++ "/" ++ key)%string).
Proof.
  intros Hfile. unfold isFileKey in Hfile. apply negb_true_iff in Hfile.
  unfold restorePath, restorePathParallel. split.
  - intros Hc. rewrite Hc.
    pose proof (contains_nonempty key "/" ltac:(discriminate) Hc) as Hne.
    destruct (file_key_last key Hne Hfile) as (Hstrip & Hlast & Hfree).
    exists (List.last (strings_Split key "/"%char) ""%string).
    split_and!; try reflexivity; try assumption.
    unfold filepath_Base. rewrite Hstrip.
    apply isEmpty_false in Hne. rewrite Hne.
    apply isEmpty_false in Hlast. rewrite Hlast. reflexivity.
  - intros Hc. rewrite Hc. split; reflexivity.
Qed.

Lemma restored_file_name_witness :
  restorePath "dir" "backups/20180101/20180101082233/a.gz" = "dir/a.gz"%string /\
  restorePathParallel "dir" "backups/20180101/20180101082233/a.gz" = "dir/a.gz"%string.
Proof.
  destruct (restored_file_name "dir" "backups/20180101/20180101082233/a.gz" eq_refl)
    as [Hslash _].
  destruct (Hslash eq_refl) as (name & H1 & H2 & Hname & _).
  subst name. split; [exact H1 | exact H2].
Defined.

(** ** Encryption of the session *)

(** X20: for a configuration that [InitializeAndValidateConfig] accepts,
    [readConfigAndStartSession] disables SSL exactly when the encryption
    is "off": an absent encryption and "on" leave it enabled, and every
    other spelling has been refused by the validation. *)
Theorem encryption_disabled_iff_off (P : Plugin.parsers) (config : Plugin.PluginConfig) :
  Plugin.acceptable P config ->
  let validated := fst (Plugin.InitializeAndValidateConfig P config) in
  let disableSSL :=
    negb (ShouldEnableEncryption (Plugin.Encryption (Plugin.Options validated))) in
  (disableSSL = true <-> Plugin.Encryption (Plugin.Options config) = "off"%string) /\
  (Plugin.Encryption (Plugin.Options config) = ""%string -> disableSSL = false).
Proof.
  intros Hok. cbv zeta.
  destruct (validation_fields P config) as (_ & _ & _ & _ & _ & _ & E & _).
  cbv zeta in E. rewrite E. clear E.
  destruct Hok as (_ & _ & _ & _ & _ & Henc & _).
  destruct Henc as [-> | [-> | ->]]; simpl; split; try split; congruence.
Qed.

Lemma encryption_disabled_iff_off_witness :
  ShouldEnableEncryption
    (Plugin.Encryption
       (Plugin.Options
          (fst (Plugin.InitializeAndValidateConfig Plugin.sampleParsers
                  (Plugin.sampleConfig "10MB" "7"))))) = true.
Proof.
  assert (Hok : Plugin.acceptable Plugin.sampleParsers (Plugin.sampleConfig "10MB" "7")).
  { unfold Plugin.acceptable. simpl.
    repeat split;
      first [ discriminate | intros H; discriminate H
            | intros H; exfalso; apply H; reflexivity
            | intros _; reflexivity | left; reflexivity ]. }
  destruct (encryption_disabled_iff_off Plugin.sampleParsers
              (Plugin.sampleConfig "10MB" "7") Hok) as [_ Hdefault].
  apply negb_false_iff. apply Hdefault. reflexivity.
Defined.

(** ** A directory backed up and restored *)

Lemma strings_Contains_cons c s sub :
  strings_Contains (String c s) sub =
  if String.prefix sub (String c s) then true else strings_Contains s sub.
Proof.
  reflexivity.
Qed.

Lemma strings_Contains_slash a b : strings_Contains (a ++ String "/" b) "/" = true.
Proof.
  induction a as [|c a IH].
  - change ("" ++ String "/" b)%string with (String "/" b).
    rewrite strings_Contains_cons.
    replace (String.prefix "/" (String "/" b)) with true; [reflexivity|].
    symmetry. apply prefix_correct. destruct b; reflexivity.
  - change (String c a ++ String "/" b)%string with (String c (a ++ String "/" b)).
    rewrite strings_Contains_cons, IH. destruct (String.prefix _ _); reflexivity.
Qed.

Lemma slash_free_not_suffix f :
  f <> ""%string -> countByte "/"%char f = 0%nat -> strings_HasSuffix f "/" = false.
Proof.
  induction f as [|c f IH]; intros Hne Hfree; [congruence|].
  rewrite strings_HasSuffix_slash. simpl in Hfree.
  destruct (Ascii.eqb c "/"%char) eqn:Ec; [discriminate|].
  destruct f as [|d f]; [reflexivity|].
  cbn [isEmpty]. apply IH; [discriminate | exact Hfree].
Qed.

Lemma not_suffix_app a f :
  f <> ""%string -> countByte "/"%char f = 0%nat ->
  strings_HasSuffix (a ++ String "/" f) "/" = false.
Proof.
  intros Hne Hfree. induction a as [|c a IH].
  - simpl append. rewrite strings_HasSuffix_slash.
    apply isEmpty_false in Hne. rewrite Hne. apply slash_free_not_suffix; [|exact Hfree].
    apply isEmpty_false, Hne.
  - change (String c a ++ String "/" f)%string with (String c (a ++ String "/" f)).
    rewrite strings_HasSuffix_slash.
    destruct (a ++ String "/" f)%string eqn:E; [destruct a; discriminate|].
    cbn [isEmpty]. exact IH.
Qed.

Lemma last_component a f :
  countByte "/"%char f = 0%nat ->
  List.last (strings_Split (a ++ String "/" f) "/"%char) ""%string = f.
Proof.
  intros Hfree. rewrite strings_Split_app, (strings_Split_plain f) by exact Hfree.
  apply last_last.
Qed.

Lemma restore_paths_of dirName a f :
  f <> ""%string -> countByte "/"%char f = 0%nat ->
  isFileKey (a ++ String "/" f) = true /\
  restorePath dirName (a ++ String "/" f) = (dirName ++ "/" ++ f)%string /\
  restorePathParallel dirName (a ++ String "/" f) = (dirName ++ "/" ++ f)%string.
Proof.
  intros Hne Hfree.
  pose proof (not_suffix_app a f Hne Hfree) as Hs.
  assert (Hkey : (a ++ String "/" f)%string <> ""%string) by (destruct a; discriminate).
  destruct (file_key_last _ Hkey Hs) as (Hstrip & Hlast & _).
  unfold isFileKey, restorePath, restorePathParallel, filepath_Base.
  rewrite Hs, strings_Contains_slash, Hstrip, last_component by exact Hfree.
  apply isEmpty_false in Hkey, Hne. rewrite Hkey, Hne. auto.
Qed.

(** X21: a directory backed up by [BackupDirectory], which uploads every
    file under its local path as the key, and restored by
    [RestoreDirectory] or [RestoreDirectoryParallel] comes back flat: a
    file directly in the directory is restored to its path, a file in a
    sub-directory is restored into the directory itself, so that two files
    with the same name in different sub-directories are restored to the
    same local file. *)
Theorem directory_restored_flat (dirName sub sub' name : string) :
  name <> ""%string -> countByte "/"%char name = 0%nat ->
  let direct := (dirName ++ "/" ++ name)%string in
  let nested := (dirName ++ "/" ++ sub ++ "/" ++ name)%string in
  let other := (dirName ++ "/" ++ sub' ++ "/" ++ name)%string in
  (isFileKey direct = true /\ restorePath dirName direct = direct /\
   restorePathParallel dirName direct = direct) /\
  (isFileKey nested = true /\ restorePath dirName nested = direct /\
   restorePathParallel dirName nested = direct) /\
  restorePath dirName nested = restorePath dirName other /\
  restorePathParallel dirName nested = restorePathParallel dirName other.
Proof.
  intros Hne Hfree. cbv zeta.
  assert (Hnested : forall s,
            (dirName ++ "/" ++ s ++ "/" ++ name)%string =
            ((dirName ++ "/" ++ s) ++ String "/" name)%string).
  { intros s. rewrite !append_assoc. reflexivity. }
  destruct (restore_paths_of dirName dirName name Hne Hfree) as (D1 & D2 & D3).
  destruct (restore_paths_of dirName (dirName ++ "/" ++ sub) name Hne Hfree)
    as (N1 & N2 & N3).
  destruct (restore_paths_of dirName (dirName ++ "/" ++ sub') name Hne Hfree)
    as (O1 & O2 & O3).
  rewrite !Hnested.
  change (dirName ++ "/" ++ name)%string with (dirName ++ String "/" name)%string in *.
  split_and!; try assumption; congruence.
Qed.

Lemma directory_restored_flat_witness :
  restorePath "dir" "dir/seg0/data.gz" = "dir/data.gz"%string /\
  restorePath "dir" "dir/seg1/data.gz" = "dir/data.gz"%string.
Proof.
  destruct (directory_restored_flat "dir" "seg0" "seg1" "data.gz"
              ltac:(discriminate) eq_refl) as (_ & (_ & Hnested & _) & Hsame & _).
  split; [exact Hnested|].
  exact (eq_trans (eq_sym Hsame) Hnested).
Defined.

(** ** Keys of different files *)

Lemma append_inj_l (a b c : string) : (a ++ b = a ++ c)%string -> b = c.
Proof.
  induction a as [|x a IH]; simpl; intros H; [exact H|].
  injection H as H. apply IH, H.
Qed.

(** X22: [GetS3Path] separates the files of a backup: two paths that get
    the same key under the same folder have the same last four components,
    so that files which differ in their name, their timestamp directory,
    their date directory or the directory above it never share a key,
    while the directories further up play no part. *)
Theorem GetS3Path_injective_on_last_four (folder path path' key : string) :
  GetS3Path folder path = Some key -> GetS3Path folder path' = Some key ->
  drop (length (strings_Split path "/"%char) - 4) (strings_Split path "/"%char) =
  drop (length (strings_Split path' "/"%char) - 4) (strings_Split path' "/"%char).
Proof.
  intros H H'. apply GetS3Path_Some in H as [Hlen Hkey].
  apply GetS3Path_Some in H' as [Hlen' Hkey'].
  rewrite Hkey in Hkey'. apply append_inj_l in Hkey'.
  change ("/" ++ ?x)%string with (String "/" x) in Hkey'.
  injection Hkey' as Hjoin.
  set (l := drop _ (strings_Split path "/"%char)) in *.
  set (l' := drop _ (strings_Split path' "/"%char)) in *.
  assert (Hfree : forall p, Forall (fun e => countByte "/"%char e = 0%nat)
                              (drop (length (strings_Split p "/"%char) - 4)
                                    (strings_Split p "/"%char))).
  { intros p. pose proof (strings_Split_elements p "/"%char) as Hall.
    rewrite <- (take_drop (length (strings_Split p "/"%char) - 4)) in Hall.
    apply Forall_app in Hall as [_ Hall]. exact Hall. }
  assert (Hne : forall p, (4 <= length (strings_Split p "/"%char))%nat ->
                          drop (length (strings_Split p "/"%char) - 4)
                               (strings_Split p "/"%char) <> []).
  { intros p Hp E. apply (f_equal length) in E. rewrite length_drop in E. simpl in E. lia. }
  rewrite <- (strings_Split_Join l "/"%char) by (apply Hne, Hlen || apply Hfree).
  rewrite <- (strings_Split_Join l' "/"%char) by (apply Hne, Hlen' || apply Hfree).
  change (String "/" "") with "/"%string. rewrite Hjoin. reflexivity.
Qed.

Lemma GetS3Path_injective_on_last_four_witness :
  drop 3 (strings_Split "/data/seg-1/backups/20180101/20180101082233/file.txt" "/"%char) =
  drop 2 (strings_Split "/seg0/backups/20180101/20180101082233/file.txt" "/"%char).
Proof.
  apply (GetS3Path_injective_on_last_four "s3/Dir"
           "/data/seg-1/backups/20180101/20180101082233/file.txt"
           "/seg0/backups/20180101/20180101082233/file.txt"
           "s3/Dir/backups/20180101/20180101082233/file.txt"); reflexivity.
Defined.

(** ** The text of a validation error *)

Lemma prefix_cons a s1 b s2 :
  String.prefix (String a s1) (String b s2) =
  if ascii_dec a b then String.prefix s1 s2 else false.
Proof.
  reflexivity.
Qed.

Lemma prefix_nil s : String.prefix "" s = true.
Proof.
  destruct s; reflexivity.
Qed.

Lemma prefix_append m r : String.prefix m (m ++ r) = true.
Proof.
  induction m as [|c m IH]; [apply prefix_nil|].
  change (String c m ++ r)%string with (String c (m ++ r)).
  rewrite prefix_cons. destruct (ascii_dec c c); [exact IH | congruence].
Qed.

Lemma prefix_extend m : forall s t,
  String.prefix m s = true -> String.prefix m (s ++ t) = true.
Proof.
  induction m as [|a m IH]; intros s t H; [apply prefix_nil|].
  destruct s as [|b s]; [discriminate|].
  change (String b s ++ t)%string with (String b (s ++ t)).
  rewrite prefix_cons in *. destruct (ascii_dec a b); [apply IH, H | discriminate].
Qed.

Lemma strings_Contains_nil sub : strings_Contains "" sub = String.prefix sub "".
Proof.
  destruct sub; reflexivity.
Qed.

Lemma strings_Contains_extend s : forall t sub,
  strings_Contains s sub = true -> strings_Contains (s ++ t) sub = true.
Proof.
  induction s as [|c s IH]; intros t sub H.
  - rewrite strings_Contains_nil in H. destruct sub; [|discriminate].
    destruct t; reflexivity.
  - change (String c s ++ t)%string with (String c (s ++ t)).
    rewrite strings_Contains_cons in H. rewrite strings_Contains_cons.
    destruct (String.prefix sub (String c s)) eqn:Ep.
    + pose proof (prefix_extend _ _ t Ep) as Hx.
      change (String c s ++ t)%string with (String c (s ++ t)) in Hx.
      rewrite Hx. reflexivity.
    + rewrite (IH t sub H).
      destruct (String.prefix sub (String c (s ++ t))); reflexivity.
Qed.

Lemma strings_Contains_middle e m r : strings_Contains (e ++ m ++ r) m = true.
Proof.
  induction e as [|c e IH].
  - change ("" ++ m ++ r)%string with (m ++ r)%string.
    destruct (m ++ r)%string eqn:E.
    + destruct m; [reflexivity | discriminate].
    + rewrite strings_Contains_cons, <- E, prefix_append. reflexivity.
  - change (String c e ++ m ++ r)%string with (String c (e ++ m ++ r)).
    rewrite strings_Contains_cons, IH. destruct (String.prefix _ _); reflexivity.
Qed.

Lemma contains_not_empty t m :
  m <> ""%string -> strings_Contains t m = true -> isEmpty t = false.
Proof.
  intros Hm H. destruct t; [|reflexivity].
  rewrite strings_Contains_nil in H. destruct m; [congruence | discriminate].
Qed.

Lemma keep_addIf b x e m :
  strings_Contains e m = true -> strings_Contains (Plugin.addIf b x e) m = true.
Proof.
  intros H. destruct b; [apply strings_Contains_extend, H | exact H].
Qed.

Lemma keep_addErr (c : bool) err w e m :
  strings_Contains e m = true ->
  strings_Contains (if c then e else Plugin.addErr err w e) m = true.
Proof.
  intros H. destruct c; [exact H|].
  destruct err; [apply strings_Contains_extend, H | exact H].
Qed.

Lemma keep_keys (k b b' : bool) x x' e m :
  strings_Contains e m = true ->
  strings_Contains (if k then Plugin.addIf b x e else Plugin.addIf b' x' e) m = true.
Proof.
  intros H. destruct k; apply keep_addIf, H.
Qed.

Lemma new_addIf m r e : strings_Contains (Plugin.addIf true (m ++ r) e) m = true.
Proof.
  apply strings_Contains_middle.
Qed.

Lemma new_addErr w er e :
  strings_Contains (if false then e else Plugin.addErr (Some er) w e)
    (w ++ " Err: " ++ er) = true.
Proof.
  unfold Plugin.addErr.
  replace (e ++ w ++ " Err: " ++ er ++ Plugin.nl)%string
    with (e ++ (w ++ " Err: " ++ er) ++ Plugin.nl)%string
    by (rewrite !append_assoc; reflexivity).
  apply strings_Contains_middle.
Qed.

Ltac find_report :=
  first [ apply new_addIf
        | apply new_addErr
        | apply keep_addErr; find_report
        | apply keep_addIf; find_report
        | apply keep_keys; find_report ].

Ltac start_report :=
  unfold reported, Plugin.InitializeAndValidateConfig; cbv zeta; cbn [snd];
  match goal with
  | |- exists errTxt, (if isEmpty ?t then _ else _) = _ /\ strings_Contains _ ?msg = _ =>
      let Hc := fresh "Hc" in
      assert (Hc : strings_Contains t msg = true);
      [ | exists t; rewrite (contains_not_empty t msg ltac:(discriminate) Hc);
          split; [reflexivity | exact Hc] ]
  end.

(** X23: the error of [InitializeAndValidateConfig] names every check that
    failed, not only the first: each missing field, each half of a
    credential pair given alone, a missing region and endpoint, an
    encryption that is neither "on" nor "off" and each chunk size or
    request count that does not parse puts its own message, for the
    parsers with their error, into the text returned. *)
Theorem validation_reports_every_failure (P : Plugin.parsers)
    (config : Plugin.PluginConfig) :
  let opt := Plugin.Options config in
  (Plugin.ExecutablePath config = ""%string ->
     reported P config
       "executable_path must exist and cannot be empty in plugin configuration file") /\
  (Plugin.Bucket opt = ""%string ->
     reported P config "bucket must exist and cannot be empty in plugin configuration file") /\
  (Plugin.Folder opt = ""%string ->
     reported P config "folder must exist and cannot be empty in plugin configuration file") /\
  (Plugin.AwsAccessKeyId opt = ""%string -> Plugin.AwsSecretAccessKey opt <> ""%string ->
     reported P config
       "aws_access_key_id must exist in plugin configuration file if aws_secret_access_key does") /\
  (Plugin.AwsAccessKeyId opt <> ""%string -> Plugin.AwsSecretAccessKey opt = ""%string ->
     reported P config
       "aws_secret_access_key must exist in plugin configuration file if aws_access_key_id does") /\
  (Plugin.Endpoint opt = ""%string ->
   Plugin.Region opt = ""%string \/ Plugin.Region opt = "unused"%string ->
     reported P config "region or endpoint must exist in plugin configuration file") /\
  (Plugin.Encryption opt <> ""%string -> Plugin.Encryption opt <> "on"%string ->
   Plugin.Encryption opt <> "off"%string ->
     reported P config "Invalid encryption configuration. Valid choices are on or off.") /\
  (forall e, Plugin.BackupMultipartChunksize opt <> ""%string ->
     snd (Plugin.bytesize_Parse P (Plugin.BackupMultipartChunksize opt)) = Some e ->
     reported P config ("Invalid backup_multipart_chunksize. Err: " ++ e)) /\
  (forall e, Plugin.BackupMaxConcurrentRequests opt <> ""%string ->
     snd (Plugin.strconv_Atoi P (Plugin.BackupMaxConcurrentRequests opt)) = Some e ->
     reported P config ("Invalid backup_max_concurrent_requests. Err: " ++ e)) /\
  (forall e, Plugin.RestoreMultipartChunksize opt <> ""%string ->
     snd (Plugin.bytesize_Parse P (Plugin.RestoreMultipartChunksize opt)) = Some e ->
     reported P config ("Invalid restore_multipart_chunksize. Err: " ++ e)) /\
  (forall e, Plugin.RestoreMaxConcurrentRequests opt <> ""%string ->
     snd (Plugin.strconv_Atoi P (Plugin.RestoreMaxConcurrentRequests opt)) = Some e ->
     reported P config ("Invalid restore_max_concurrent_requests. Err: " ++ e)).
Proof.
  cbv zeta. split_and!.
  - intros H. start_report. rewrite H. cbn [isEmpty]. find_report.
  - intros H. start_report. rewrite H. cbn [isEmpty]. find_report.
  - intros H. start_report. rewrite H. cbn [isEmpty]. find_report.
  - intros H1 H2. apply isEmpty_false in H2. start_report.
    rewrite H1, H2. cbn [isEmpty negb]. find_report.
  - intros H1 H2. apply isEmpty_false in H1. start_report.
    rewrite H1, H2. cbn [isEmpty]. find_report.
  - intros H1 H2. start_report. rewrite H1.
    replace ((if isEmpty (Plugin.Region (Plugin.Options config)) then "unused"
              else Plugin.Region (Plugin.Options config)) =? "unused")%string
      with true by (destruct H2 as [-> | ->]; reflexivity).
    cbn [isEmpty andb]. find_report.
  - intros H0 H1 H2. start_report.
    apply isEmpty_false in H0. rewrite H0.
    apply String.eqb_neq in H1, H2. rewrite H1, H2. cbn [negb andb]. find_report.
  - intros e H1 H2. apply isEmpty_false in H1. start_report.
    rewrite H1, H2. find_report.
  - intros e H1 H2. apply isEmpty_false in H1. start_report.
    rewrite H1, H2. find_report.
  - intros e H1 H2. apply isEmpty_false in H1. start_report.
    rewrite H1, H2. find_report.
  - intros e H1 H2. apply isEmpty_false in H1. start_report.
    rewrite H1, H2. find_report.
Qed.

Lemma validation_reports_every_failure_witness :
  reported Plugin.sampleParsers incompleteConfig
    "bucket must exist and cannot be empty in plugin configuration file" /\
  reported Plugin.sampleParsers incompleteConfig
    "folder must exist and cannot be empty in plugin configuration file".
Proof.
  destruct (validation_reports_every_failure Plugin.sampleParsers incompleteConfig)
    as (_ & Hbucket & Hfolder & _).
  split; [apply Hbucket | apply Hfolder]; reflexivity.
Defined.
